(** * Vision MCP: provider-adapter layer

    A shallow embedding of the TypeScript sources of the vision MCP server
    (image-input normalisation, error taxonomy and detail sanitisation, the
    thinking-content filter, the retry engine of the base adapter and the
    configuration loader), together with the properties stated about them.

    Conventions of the embedding.
    - A JavaScript string is a list of code units.  Code units are modelled
      by [ascii], i.e. the first 256 code points (Basic Latin and Latin-1);
      string literals are written with the usual notation and coerced.
      File names with the code units U+0130 and U+0307 are modelled apart,
      in [WideNames].
    - Regular expressions are transcribed into a small syntax tree and run
      by a backtracking matcher that follows the priorities of ECMAScript
      (alternatives left to right, greedy and lazy repetition).
    - A function that may throw returns a sum: [inl] for the returned value,
      [inr] for the thrown error.
    - Effects which matter to a property (attempts and waits of the retry
      engine, logger calls of the configuration loader) are recorded in an
      explicit trace; purely diagnostic [logger.debug] calls are left out. *)

From Stdlib Require Import Ascii String.
From Stdlib Require Import List ZArith NArith Lia Bool Arith DecimalString.
Import ListNotations.
Open Scope string_scope.
Open Scope list_scope.

Set Implicit Arguments.
Set Warnings "-register-all,-uniform-inheritance".

(* ================================================================== *)
(** * JavaScript strings *)
(* ================================================================== *)

Definition jsstring := list ascii.

Coercion list_ascii_of_string : string >-> list.

Module JsString.

Definition LF : ascii := "010"%char.
Definition dquote : ascii := "034"%char.
Definition CR : ascii := "013"%char.

Definition code (c : ascii) : N := N_of_ascii c.

(** [\s] of ECMAScript (WhiteSpace and LineTerminator), restricted to the
    modelled range: TAB, LF, VT, FF, CR, SPACE, NBSP. *)
Definition isWhiteSpace (c : ascii) : bool :=
  let n := code c in
  (((9 <=? n) && (n <=? 13)) || (n =? 32) || (n =? 160))%N.

Definition isLineTerminator (c : ascii) : bool :=
  let n := code c in ((n =? 10) || (n =? 13))%N.

(** Case folding of the [i] flag.  Without the [u] flag a code unit is
    compared through its upper-case form, and a non-ASCII code unit never
    folds onto an ASCII one; every literal of the patterns below is ASCII,
    so folding the ASCII letters is all that is observable. *)
Definition canonicalize (c : ascii) : ascii :=
  let n := code c in
  if ((97 <=? n) && (n <=? 122))%N then ascii_of_N (n - 32) else c.

Definition eqb_ci (a b : ascii) : bool :=
  Ascii.eqb (canonicalize a) (canonicalize b).

(** [String.prototype.toLowerCase] on the modelled range: A-Z and the
    Latin-1 capitals (U+00C0..U+00DE without the multiplication sign).
    On this range lower case keeps the length of a string; the one
    character whose lower case is longer, U+0130, is outside it and is the
    subject of [WideNames]. *)
Definition lowerChar (c : ascii) : ascii :=
  let n := code c in
  if ((65 <=? n) && (n <=? 90))%N then ascii_of_N (n + 32)
  else if ((192 <=? n) && (n <=? 222) && negb (n =? 215))%N
       then ascii_of_N (n + 32)
       else c.

Definition toLowerCase (s : jsstring) : jsstring := map lowerChar s.

Fixpoint eqb (a b : jsstring) : bool :=
  match a, b with
  | [], [] => true
  | x :: a', y :: b' => Ascii.eqb x y && eqb a' b'
  | _, _ => false
  end.

(** [s.startsWith(p)] *)
Fixpoint startsWith (p s : jsstring) : bool :=
  match p, s with
  | [], _ => true
  | x :: p', y :: s' => Ascii.eqb x y && startsWith p' s'
  | _ :: _, [] => false
  end.

(** [s.includes(p)] *)
Fixpoint includes (p s : jsstring) : bool :=
  startsWith p s ||
  match s with
  | [] => false
  | _ :: s' => includes p s'
  end.

(** The same two tests up to the case of ASCII letters: the way a literal
    of a pattern with the [i] flag meets the input. *)
Fixpoint startsWithI (p s : jsstring) : bool :=
  match p, s with
  | [], _ => true
  | x :: p', y :: s' => eqb_ci x y && startsWithI p' s'
  | _ :: _, [] => false
  end.

Fixpoint includesI (p s : jsstring) : bool :=
  startsWithI p s ||
  match s with
  | [] => false
  | _ :: s' => includesI p s'
  end.

(** Equality up to the case of ASCII letters. *)
Definition eqbI (a b : jsstring) : bool :=
  (length a =? length b)%nat && startsWithI a b.

(** [s.endsWith(p)] *)
Definition endsWith (p s : jsstring) : bool :=
  startsWith (rev p) (rev s).

(** [s.indexOf(c)] and [s.lastIndexOf(c)] for a one-character needle;
    -1 when the character does not occur. *)
Fixpoint indexOfFrom (c : ascii) (i : Z) (s : jsstring) : Z :=
  match s with
  | [] => (-1)%Z
  | x :: s' => if Ascii.eqb x c then i else indexOfFrom c (i + 1) s'
  end.

Definition indexOf (c : ascii) (s : jsstring) : Z := indexOfFrom c 0 s.

Fixpoint lastIndexOfFrom (c : ascii) (i : Z) (found : Z) (s : jsstring) : Z :=
  match s with
  | [] => found
  | x :: s' =>
      lastIndexOfFrom c (i + 1) (if Ascii.eqb x c then i else found) s'
  end.

Definition lastIndexOf (c : ascii) (s : jsstring) : Z :=
  lastIndexOfFrom c 0 (-1) s.

(** [s.substring(i)]: a negative index is clamped to 0. *)
Definition substringFrom (i : Z) (s : jsstring) : jsstring :=
  skipn (Z.to_nat i) s.

(** [s.substring(i, j)] for [i <= j]. *)
Definition substring (i j : Z) (s : jsstring) : jsstring :=
  firstn (Z.to_nat j - Z.to_nat i) (skipn (Z.to_nat i) s).

(** [s.split(c)] for a one-character separator. *)
Fixpoint split (c : ascii) (s : jsstring) : list jsstring :=
  match s with
  | [] => [[]]
  | x :: s' =>
      if Ascii.eqb x c then [] :: split c s'
      else match split c s' with
           | [] => [[x]]
           | w :: ws => (x :: w) :: ws
           end
  end.

(** [l.join(sep)] *)
Fixpoint join (sep : jsstring) (l : list jsstring) : jsstring :=
  match l with
  | [] => []
  | [w] => w
  | w :: ws => w ++ sep ++ join sep ws
  end.

Fixpoint trimStart (s : jsstring) : jsstring :=
  match s with
  | [] => []
  | c :: s' => if isWhiteSpace c then trimStart s' else s
  end.

Definition trimEnd (s : jsstring) : jsstring := rev (trimStart (rev s)).

(** [s.trim()] *)
Definition trim (s : jsstring) : jsstring := trimEnd (trimStart s).

(** The character [c] does not occur in [s]. *)
Definition without (c : ascii) (s : jsstring) : bool :=
  forallb (fun x => negb (Ascii.eqb x c)) s.

(** The part of [s] before the first [c]. *)
Fixpoint before (c : ascii) (s : jsstring) : jsstring :=
  match s with
  | [] => []
  | x :: s' => if Ascii.eqb x c then [] else x :: before c s'
  end.

(** A string is truthy when it is not empty. *)
Definition truthy (s : jsstring) : bool :=
  match s with [] => false | _ :: _ => true end.

(** An optional string field ([undefined] when absent). *)
Definition truthyOpt (o : option jsstring) : bool :=
  match o with Some s => truthy s | None => false end.

End JsString.

(* ================================================================== *)
(** * Regular expressions *)
(* ================================================================== *)

Module Regex.
Import JsString.

(** The constructs used by the patterns of the sources.  Every starred
    sub-expression there is a single character class, which keeps the
    repetition structurally recursive on the input. *)
Inductive regex : Type :=
| Eps                                          (* empty pattern          *)
| Cls (p : ascii -> bool)                      (* one character in a set *)
| Seq (r1 r2 : regex)                          (* r1 r2                  *)
| Alt (r1 r2 : regex)                          (* r1 | r2                *)
| Star (greedy : bool) (p : ascii -> bool)     (* [p]*  and  [p]*?       *)
| Bos                                          (* ^ without the m flag   *)
| Bol                                          (* ^ under the m flag     *)
| Eol                                          (* $ under the m flag     *)
| Eoi.                                         (* $ without the m flag   *)

(** A continuation receives the character before the current position
    (for [^]) and the remaining input. *)
Definition cont := option ascii -> jsstring -> option jsstring.

Definition accept : cont := fun _ rest => Some rest.

Fixpoint star (greedy : bool) (p : ascii -> bool) (k : cont)
         (prev : option ascii) (s : jsstring) : option jsstring :=
  match s with
  | [] => k prev []
  | c :: s' =>
      if p c then
        if greedy then
          match star greedy p k (Some c) s' with
          | Some rest => Some rest
          | None => k prev s
          end
        else
          match k prev s with
          | Some rest => Some rest
          | None => star greedy p k (Some c) s'
          end
      else k prev s
  end.

(** [rmatch r prev s k]: match [r] at the head of [s], then continue with
    [k]; the result is the input left after the whole match. *)
Fixpoint rmatch (r : regex) (prev : option ascii) (s : jsstring) (k : cont)
  : option jsstring :=
  match r with
  | Eps => k prev s
  | Cls p =>
      match s with
      | c :: s' => if p c then k (Some c) s' else None
      | [] => None
      end
  | Seq r1 r2 => rmatch r1 prev s (fun prev' s' => rmatch r2 prev' s' k)
  | Alt r1 r2 =>
      match rmatch r1 prev s k with
      | Some rest => Some rest
      | None => rmatch r2 prev s k
      end
  | Star g p => star g p k prev s
  | Bos =>
      match prev with
      | None => k prev s
      | Some _ => None
      end
  | Bol =>
      match prev with
      | None => k prev s
      | Some c => if isLineTerminator c then k prev s else None
      end
  | Eol =>
      match s with
      | [] => k prev s
      | c :: _ => if isLineTerminator c then k prev s else None
      end
  | Eoi =>
      match s with
      | [] => k prev s
      | _ :: _ => None
      end
  end.

(** The match of [r] that starts exactly here, as the number of
    characters it spans. *)
Definition matchHere (r : regex) (prev : option ascii) (s : jsstring)
  : option nat :=
  match rmatch r prev s accept with
  | Some rest => Some (length s - length rest)
  | None => None
  end.

(** [s.replace(r, f)] for a regular expression with the [g] flag and a
    replacement computed from the matched text.  [skip] counts the
    characters of the current match which are still to be dropped.  An
    empty match is replaced and the scan moves on by one character. *)
Fixpoint replaceFrom (r : regex) (f : jsstring -> jsstring)
         (prev : option ascii) (skip : nat) (s : jsstring) : jsstring :=
  match skip with
  | S n =>
      match s with
      | [] => []
      | c :: s' => replaceFrom r f (Some c) n s'
      end
  | O =>
      match matchHere r prev s with
      | Some len =>
          f (firstn len s) ++
          match s with
          | [] => []
          | c :: s' =>
              match len with
              | O => c :: replaceFrom r f (Some c) 0 s'
              | S n => replaceFrom r f (Some c) n s'
              end
          end
      | None =>
          match s with
          | [] => []
          | c :: s' => c :: replaceFrom r f (Some c) 0 s'
          end
      end
  end.

Definition replaceAll (r : regex) (f : jsstring -> jsstring) (s : jsstring)
  : jsstring :=
  replaceFrom r f None 0 s.

(** [s.replace(r, f)] without the [g] flag: the leftmost match only. *)
Fixpoint replaceFirstFrom (r : regex) (f : jsstring -> jsstring)
         (prev : option ascii) (s : jsstring) : jsstring :=
  match matchHere r prev s with
  | Some len => f (firstn len s) ++ skipn len s
  | None =>
      match s with
      | [] => []
      | c :: s' => c :: replaceFirstFrom r f (Some c) s'
      end
  end.

Definition replaceFirst (r : regex) (f : jsstring -> jsstring) (s : jsstring)
  : jsstring :=
  replaceFirstFrom r f None s.

(** [r.exec(s)] / [s.match(r)] without [g]: the text of the leftmost match. *)
Fixpoint execFrom (r : regex) (prev : option ascii) (s : jsstring)
  : option jsstring :=
  match matchHere r prev s with
  | Some len => Some (firstn len s)
  | None =>
      match s with
      | [] => None
      | c :: s' => execFrom r (Some c) s'
      end
  end.

(** Building blocks. *)
Definition chr (c : ascii) : regex := Cls (Ascii.eqb c).
Definition chrI (c : ascii) : regex := Cls (eqb_ci c).

Fixpoint seqs (l : list regex) : regex :=
  match l with
  | [] => Eps
  | [r] => r
  | r :: l' => Seq r (seqs l')
  end.

Fixpoint alts (r : regex) (l : list regex) : regex :=
  match l with
  | [] => r
  | r' :: l' => Alt r (alts r' l')
  end.

(** A literal word, case-sensitive and under the [i] flag. *)
Fixpoint lit (w : jsstring) : regex :=
  match w with
  | [] => Eps
  | c :: w' => Seq (chr c) (lit w')
  end.

Fixpoint litI (w : jsstring) : regex :=
  match w with
  | [] => Eps
  | c :: w' => Seq (chrI c) (litI w')
  end.

Definition plus (p : ascii -> bool) : regex := Seq (Cls p) (Star true p).

Definition anyChar : ascii -> bool := fun _ => true.          (* [\s\S] *)
Definition dot : ascii -> bool :=                             (* .      *)
  fun c => negb (isLineTerminator c).

(** The character before the position reached after [consumed]. *)
Definition prevAfter (prev : option ascii) (consumed : jsstring)
  : option ascii :=
  last (map Some consumed) prev.

(** Patterns without [^] do not look at the previous character. *)
Fixpoint anchorFree (r : regex) : bool :=
  match r with
  | Bos | Bol => false
  | Seq r1 r2 | Alt r1 r2 => anchorFree r1 && anchorFree r2
  | _ => true
  end.

(** A literal which cannot overlap a later copy of itself: its first
    character does not come back further on (up to case). *)
Definition selfFree (w : jsstring) : bool :=
  match w with
  | [] => false
  | h :: t => forallb (fun c => negb (eqb_ci c h)) t
  end.

(** [c] stops every match of [r]: no class of [r] contains it and [r] does
    not look ahead. *)
Fixpoint stoppedBy (c : ascii) (r : regex) : bool :=
  match r with
  | Eps | Bos | Bol => true
  | Cls p | Star _ p => negb (p c)
  | Seq r1 r2 | Alt r1 r2 => stoppedBy c r1 && stoppedBy c r2
  | Eol | Eoi => false
  end.

Definition beyond (c : ascii) (b : jsstring) (o : option jsstring)
  : option jsstring :=
  option_map (fun rest => rest ++ c :: b) o.

(** [r] matches nowhere in [s]. *)
Fixpoint unmatched (r : regex) (prev : option ascii) (s : jsstring) : bool :=
  match matchHere r prev s with
  | Some _ => false
  | None =>
      match s with
      | [] => true
      | c :: s' => unmatched r (Some c) s'
      end
  end.

(** The least number of characters a match of [r] spans. *)
Fixpoint minLen (r : regex) : nat :=
  match r with
  | Cls _ => 1
  | Seq r1 r2 => minLen r1 + minLen r2
  | Alt r1 r2 => Nat.min (minLen r1) (minLen r2)
  | _ => 0
  end.

End Regex.

(* ================================================================== *)
(** * Error taxonomy and detail sanitisation (utils/errors.ts) *)
(* ================================================================== *)

Module Errors.
Import JsString Regex.

(** Values found in a [details] record. *)
Inductive JsValue : Type :=
| JUndefined
| JNull
| JBool (b : bool)
| JNumber (z : Z)
| JString (s : jsstring)
| JArray (items : list JsValue)
| JObject (fields : list (jsstring * JsValue)).

Definition Details := list (jsstring * JsValue).

(** [record[key]] *)
Fixpoint getField (key : jsstring) (d : Details) : JsValue :=
  match d with
  | [] => JUndefined
  | (k, v) :: d' => if JsString.eqb k key then v else getField key d'
  end.

(** [{ ...d, key: v }]: an existing key keeps its place, a new one is
    appended. *)
Fixpoint setField (key : jsstring) (v : JsValue) (d : Details) : Details :=
  match d with
  | [] => [(key, v)]
  | (k, w) :: d' =>
      if JsString.eqb k key then (k, v) :: d' else (k, w) :: setField key v d'
  end.

Inductive VisionMCPErrorCode : Type :=
| INVALID_INPUT
| MODEL_CONFIG_ERROR
| IMAGE_LOAD_ERROR
| MODEL_API_ERROR
| TIMEOUT_ERROR
| UNKNOWN_ERROR.

(** The class an error object was constructed from. *)
Inductive ErrorClass : Type :=
| InvalidInputErrorC
| ModelConfigErrorC
| ImageLoadErrorC
| ModelAPIErrorC
| TimeoutErrorC.

(** Thrown values.  [VisionMCPError] covers the five subclasses of the
    taxonomy; the other constructors are the foreign errors the sources
    test for: [TypeError] (thrown by [new URL]), file-system errors with a
    [code] property, and any other [Error] with its [name] (the rejection
    of a cancelled request is an error named AbortError). *)
Inductive JsError : Type :=
| VisionMCPError (cls : ErrorClass) (code : VisionMCPErrorCode)
                 (message : jsstring) (details : option Details)
                 (cause : option JsError)
| TypeError (message : jsstring)
| SystemError (code : jsstring) (message : jsstring)
| OtherError (name : jsstring) (message : jsstring).

Definition AbortError (message : jsstring) : JsError :=
  OtherError "AbortError" message.

Definition errorMessage (e : JsError) : jsstring :=
  match e with
  | VisionMCPError _ _ m _ _ => m
  | TypeError m => m
  | SystemError _ m => m
  | OtherError _ m => m
  end.

Definition errorCode (e : JsError) : option VisionMCPErrorCode :=
  match e with
  | VisionMCPError _ c _ _ _ => Some c
  | _ => None
  end.

Definition errorDetails (e : JsError) : option Details :=
  match e with
  | VisionMCPError _ _ _ d _ => d
  | _ => None
  end.

Definition InvalidInputError (message : jsstring) (details : option Details)
           (cause : option JsError) : JsError :=
  VisionMCPError InvalidInputErrorC INVALID_INPUT
                 ("Invalid input: " ++ message) details cause.

Definition ModelConfigError (message : jsstring) (details : option Details)
           (cause : option JsError) : JsError :=
  VisionMCPError ModelConfigErrorC MODEL_CONFIG_ERROR
                 ("Model configuration error: " ++ message) details cause.

Definition ImageLoadError (message : jsstring) (details : option Details)
           (cause : option JsError) : JsError :=
  VisionMCPError ImageLoadErrorC IMAGE_LOAD_ERROR
                 ("Failed to load image: " ++ message) details cause.

Definition TimeoutError (message : jsstring) (details : option Details)
           (cause : option JsError) : JsError :=
  VisionMCPError TimeoutErrorC TIMEOUT_ERROR
                 ("Request timeout: " ++ message) details cause.

(** [?&] *)
Definition isSeparator (c : ascii) : bool :=
  Ascii.eqb c "?" || Ascii.eqb c "&".

(** [^&\s] *)
Definition isValueChar (c : ascii) : bool :=
  negb (Ascii.eqb c "&" || isWhiteSpace c).

(** What may follow the value of a parameter: the end of the text, or a
    character which cannot belong to a value ([&] or white space). *)
Definition valueEnds (rest : jsstring) : bool :=
  match rest with
  | [] => true
  | c :: _ => negb (isValueChar c)
  end.

Definition CREDENTIAL_NAMES : list jsstring :=
  [("key" : jsstring); ("api_key" : jsstring); ("apikey" : jsstring);
   ("token" : jsstring); ("access_token" : jsstring);
   ("api-key" : jsstring); ("apikey" : jsstring)].

(** A parameter name the pattern below accepts: a name of the list, in
    any mix of upper and lower case. *)
Definition isCredentialName (name : jsstring) : bool :=
  existsb (fun n => eqbI n name) CREDENTIAL_NAMES.

(** /[?&](?:key|api_key|apikey|token|access_token|api-key|apikey)=([^&\s]+)/gi *)
Definition pat_credential : regex :=
  seqs [Cls isSeparator;
        alts (litI "key")
             [litI "api_key"; litI "apikey"; litI "token";
              litI "access_token"; litI "api-key"; litI "apikey"];
        litI "=";
        plus isValueChar].

(** The replacement callback of [sanitizeUrlInString]:
    [separator + match.slice(1).split('=')[0] + '=***']. *)
Definition maskMatch (m : jsstring) : jsstring :=
  let separator : jsstring :=
    match m with
    | c :: _ => if Ascii.eqb c "?" then "?" else "&"
    | [] => "&"
    end in
  separator ++ hd [] (split "=" (skipn 1 m)) ++ "=***".

Definition sanitizeUrlInString (text : jsstring) : jsstring :=
  replaceAll pat_credential maskMatch text.

(** The keys a [for ... in] loop sees on an array: "0", "1", ... *)
Definition indexKey (i : nat) : jsstring :=
  list_ascii_of_string (NilEmpty.string_of_uint (Nat.to_uint i)).

Fixpoint indexedFrom (i : nat) (l : list JsValue) : Details :=
  match l with
  | [] => []
  | v :: l' => (indexKey i, v) :: indexedFrom (S i) l'
  end.

(** [sanitizeProperty v] is what [sanitizeDetails] stores for a key whose
    value is [v]; [sanitizeItem v] is what the callback of [value.map]
    returns for the array element [v].  An array met as an element is an
    object for [typeof], goes through [sanitizeDetails] and comes back as
    a record keyed by its indices. *)
Fixpoint sanitizeProperty (value : JsValue) : JsValue :=
  match value with
  | JString s => JString (sanitizeUrlInString s)
  | JArray items => JArray (map sanitizeItem items)
  | JObject fields =>
      JObject (map (fun kv => (fst kv, sanitizeProperty (snd kv))) fields)
  | other => other
  end
with sanitizeItem (item : JsValue) : JsValue :=
  match item with
  | JString s => JString (sanitizeUrlInString s)
  | JArray items => JObject (indexedFrom 0 (map sanitizeProperty items))
  | JObject fields =>
      JObject (map (fun kv => (fst kv, sanitizeProperty (snd kv))) fields)
  | other => other
  end.

Definition sanitizeDetails (details : Details) : Details :=
  map (fun kv => (fst kv, sanitizeProperty (snd kv))) details.

(** [new ModelAPIError(message, details, cause)] *)
Definition ModelAPIError (message : jsstring) (details : option Details)
           (cause : option JsError) : JsError :=
  VisionMCPError ModelAPIErrorC MODEL_API_ERROR
                 ("Model API error: " ++ message)
                 (Some (sanitizeDetails
                          (match details with Some d => d | None => [] end)))
                 cause.

(** Every string held by a value, left to right and at any depth. *)
Fixpoint stringsOf (v : JsValue) : list jsstring :=
  match v with
  | JString s => [s]
  | JArray items => flat_map stringsOf items
  | JObject fields => flat_map (fun kv => stringsOf (snd kv)) fields
  | _ => []
  end.

Definition stringsOfDetails (d : Details) : list jsstring :=
  flat_map (fun kv => stringsOf (snd kv)) d.

(** Induction on values, through the lists of arrays and records. *)
Section JsValueInduction.
Variable P : JsValue -> Prop.
Hypothesis Hundefined : P JUndefined.
Hypothesis Hnull : P JNull.
Hypothesis Hbool : forall b, P (JBool b).
Hypothesis Hnumber : forall z, P (JNumber z).
Hypothesis Hstring : forall s, P (JString s).
Hypothesis Harray : forall items, Forall P items -> P (JArray items).
Hypothesis Hobject :
  forall fields, Forall (fun kv => P (snd kv)) fields -> P (JObject fields).

Fixpoint JsValue_nested_ind (v : JsValue) : P v :=
  match v with
  | JUndefined => Hundefined
  | JNull => Hnull
  | JBool b => Hbool b
  | JNumber z => Hnumber z
  | JString s => Hstring s
  | JArray items =>
      Harray
        ((fix all (l : list JsValue) : Forall P l :=
            match l with
            | [] => Forall_nil P
            | x :: l' => Forall_cons x (JsValue_nested_ind x) (all l')
            end) items)
  | JObject fields =>
      Hobject
        ((fix all (l : list (jsstring * JsValue))
            : Forall (fun kv => P (snd kv)) l :=
            match l with
            | [] => Forall_nil _
            | kv :: l' =>
                Forall_cons kv (JsValue_nested_ind (snd kv)) (all l')
            end) fields)
  end.
End JsValueInduction.

End Errors.

(* ================================================================== *)
(** * Thinking-content filter (utils/thinking-filter.ts) *)
(* ================================================================== *)

Module ThinkingFilter.
Import JsString Regex Errors.

Record ModelResponseEnvelope : Type := {
  content : jsstring;
  reasoning : option jsstring;
  thinking : option jsstring
}.

(** /<thinking>[\s\S]*?<\/thinking>/gi *)
Definition pat_thinking_tag : regex :=
  seqs [litI "<thinking>"; Star false anyChar; litI "</thinking>"].

(** /<<analysis>>[\s\S]*?<<analysis>>/gi *)
Definition pat_analysis_tag : regex :=
  seqs [litI "<<analysis>>"; Star false anyChar; litI "<<analysis>>"].

(** /^\s*(Reasoning|Thoughts|Analysis):.*$/gim *)
Definition pat_reasoning_line : regex :=
  seqs [Bol; Star true isWhiteSpace;
        alts (litI "Reasoning") [litI "Thoughts"; litI "Analysis"];
        litI ":"; Star true dot; Eol].

(** /```(?:thinking|reasoning)[\s\S]*?```/gi *)
Definition pat_markdown_fence : regex :=
  seqs [litI "```"; alts (litI "thinking") [litI "reasoning"];
        Star false anyChar; litI "```"].

(** /\[thinking\][\s\S]*?\[\/thinking\]/gi *)
Definition pat_inline_marker : regex :=
  seqs [litI "[thinking]"; Star false anyChar; litI "[/thinking]"].

(** /(<thinking>|<\/thinking>|<<analysis>>)/gi *)
Definition pat_leftover : regex :=
  alts (litI "<thinking>") [litI "</thinking>"; litI "<<analysis>>"].

Definition THINKING_PATTERNS : list regex :=
  [pat_thinking_tag; pat_analysis_tag; pat_reasoning_line;
   pat_markdown_fence; pat_inline_marker; pat_leftover].

(** The three words of [pat_leftover]. *)
Definition LEFTOVER_MARKERS : list jsstring :=
  [("<thinking>" : jsstring); ("</thinking>" : jsstring);
   ("<<analysis>>" : jsstring)].

(** Every match of a pattern of [THINKING_PATTERNS] holds one of these
    texts, up to the case of letters. *)
Definition THINKING_MARKERS : list jsstring :=
  LEFTOVER_MARKERS ++
  [("```thinking" : jsstring); ("```reasoning" : jsstring);
   ("[thinking]" : jsstring);
   ("Reasoning:" : jsstring); ("Thoughts:" : jsstring);
   ("Analysis:" : jsstring)].

Definition removeAll (pattern : regex) (s : jsstring) : jsstring :=
  replaceAll pattern (fun _ => []) s.

(** The inner loop
    [while (cleaned.length < beforeLength) { ...; cleaned = cleaned.replace(pattern, '') }].
    Each turn shortens [beforeLength], so [beforeLength + 1] turns of fuel
    are never used up (lemma [stripLoop_fuel]). *)
Fixpoint stripLoop (fuel : nat) (pattern : regex)
         (cleaned : jsstring) (beforeLength : nat) : jsstring :=
  match fuel with
  | O => cleaned
  | S fuel' =>
      if (length cleaned <? beforeLength)%nat
      then stripLoop fuel' pattern (removeAll pattern cleaned) (length cleaned)
      else cleaned
  end.

Definition applyPattern (cleaned : jsstring) (pattern : regex) : jsstring :=
  let beforeLength := length cleaned in
  stripLoop (S beforeLength) pattern (removeAll pattern cleaned) beforeLength.

(** /\n\s*\n\s*\n/g *)
Definition pat_blank_lines : regex :=
  seqs [chr LF; Star true isWhiteSpace; chr LF; Star true isWhiteSpace; chr LF].

Definition stripThinkingPatterns (text : jsstring) : jsstring :=
  if negb (truthy text) then []
  else
    let cleaned := fold_left applyPattern THINKING_PATTERNS text in
    replaceAll pat_blank_lines (fun _ => [LF; LF]) (trim cleaned).

Definition stripThinking (envelope : ModelResponseEnvelope) : jsstring :=
  let cleaned := stripThinkingPatterns (content envelope) in
  if (length cleaned <? 10)%nat &&
     (truthyOpt (reasoning envelope) || truthyOpt (thinking envelope))
  then []
  else cleaned.

Section FilterThinkingContent.
(** The raw vendor payload and the extractors of
    utils/thinking-extractors.ts, each of which catches its own
    exceptions and always returns an envelope.  [THINKING_EXTRACTORS]
    is the table from model type to extractor. *)
Variable Raw : Type.
Variable THINKING_EXTRACTORS :
  jsstring -> option (Raw -> ModelResponseEnvelope).
Variable extractOpenAIThinking : Raw -> ModelResponseEnvelope.

Definition extractorFor (modelType : jsstring)
  : Raw -> ModelResponseEnvelope :=
  match THINKING_EXTRACTORS (toLowerCase modelType) with
  | Some extractor => extractor
  | None => extractOpenAIThinking
  end.

Definition filterThinkingContent (rawResponse : Raw) (modelType : jsstring)
  : jsstring + JsError :=
  if negb (truthy modelType)
  then inr (OtherError "Error" "modelType is required for thinking filter")
  else inl (stripThinking (extractorFor modelType rawResponse)).

End FilterThinkingContent.

End ThinkingFilter.

(* ================================================================== *)
(** * Retry engine (adapters/base-adapter.ts) *)
(* ================================================================== *)

Module BaseAdapter.
Import JsString Errors.

(** [`${n}`] for an integer below 10^21, which a template literal prints
    with all its digits (from 10^21 on it prints an exponent, and the model
    does not). *)
Definition numberToString (z : Z) : jsstring :=
  list_ascii_of_string (NilZero.string_of_int (Z.to_int z)).

(** The two settings of [ModelConfig] the engine reads. *)
Record RetryConfig : Type := {
  maxRetries : option Z;
  timeout : option Z
}.

(** [x || d] for an optional number. *)
Definition orDefault (x : option Z) (d : Z) : Z :=
  match x with
  | Some z => if (z =? 0)%Z then d else z
  | None => d
  end.

(** A default of a destructuring pattern applies to [undefined] only. *)
Definition destructured (x : option Z) (d : Z) : Z :=
  match x with
  | Some z => z
  | None => d
  end.

Definition NON_RETRYABLE_STATUS_CODES : list Z := [400; 401; 403; 404]%Z.

(** [error instanceof Error && error.name === 'AbortError'] *)
Definition isAbortError (error : JsError) : bool :=
  match error with
  | OtherError name _ => JsString.eqb name "AbortError"
  | _ => false
  end.

(** [error instanceof ModelAPIError] with
    [status && NON_RETRYABLE_STATUS_CODES.has(status)]. *)
Definition isNonRetryable (error : JsError) : bool :=
  match error with
  | VisionMCPError ModelAPIErrorC _ _ details _ =>
      match details with
      | Some d =>
          match getField "status" d with
          | JNumber status =>
              negb (status =? 0)%Z &&
              existsb (Z.eqb status) NON_RETRYABLE_STATUS_CODES
          | _ => false
          end
      | None => false
      end
  | _ => false
  end.

(** [Math.min(1000 * Math.pow(2, attempt), 5000)] *)
Definition backoffTime (attempt : Z) : Z :=
  Z.min (1000 * 2 ^ attempt) 5000.

(** [{ maxRetries = this.config.maxRetries || 2,
       timeout = this.config.timeout || 60000 } = config] *)
Definition effectiveMaxRetries (adapter config : RetryConfig) : Z :=
  destructured (maxRetries config) (orDefault (maxRetries adapter) 2).

Definition effectiveTimeout (adapter config : RetryConfig) : Z :=
  destructured (timeout config) (orDefault (timeout adapter) 60000).

(** The number of retries as the contract of the engine reads it: the
    setting given with the call, else the setting of the adapter, else the
    default of 2.  It is [effectiveMaxRetries] but for a setting of 0 on
    the adapter, which [|| 2] replaces by 2. *)
Definition specifiedMaxRetries (adapter config : RetryConfig) : Z :=
  match maxRetries config, maxRetries adapter with
  | Some perCall, _ => perCall
  | None, Some setting => setting
  | None, None => 2
  end.

(** What the engine does to the outside: it calls the operation and it
    waits. *)
Inductive Event : Type :=
| Attempt (attempt : Z)
| Backoff (ms : Z).

Section WithRetry.
(** The operation talks to an outside world (the vendor's API) which
    moves on with every call and with every wait.  An attempt cut off
    by the deadline of its [AbortController] is an operation which
    rejects with an error named AbortError. *)
Variable T World : Type.
Variable operation : World -> (T + JsError) * World.
Variable wait : Z -> World -> World.

Definition Run : Type := (T + JsError) * World * list Event.

Definition runResult (r : Run) : T + JsError := fst (fst r).
Definition runTrace (r : Run) : list Event := snd r.

Definition later (e : Event) (r : Run) : Run :=
  (fst r, e :: snd r).

(** The statements after the loop: the details of the last failure are
    kept and wrapped in a [ModelAPIError]. *)
Definition failedAfter (maxRetries : Z) (lastError : option JsError)
  : JsError :=
  let lastMessage :=
    match lastError with
    | Some e => JString (errorMessage e)
    | None => JUndefined
    end in
  let errorDetails :=
    match lastError with
    | Some (VisionMCPError _ _ _ (Some details) _) =>
        setField "lastError" lastMessage details
    | _ => [("lastError" : jsstring, lastMessage)]
    end in
  ModelAPIError
    ("Failed after " ++ numberToString (maxRetries + 1) ++ " attempts")
    (Some errorDetails) None.

(** [for (let attempt = 0; attempt <= maxRetries; attempt++) { ... }]:
    the recursion is on the number of turns the loop has left, which is
    [maxRetries - attempt + 1] when that is positive and 0 otherwise. *)
Fixpoint retryLoop (turns : nat) (maxRetries timeout attempt : Z)
         (lastError : option JsError) (w : World) : Run :=
  match turns with
  | O => (inr (failedAfter maxRetries lastError), w, [])
  | S turns' =>
      later (Attempt attempt)
        match operation w with
        | (inl result, w') => (inl result, w', [])
        | (inr error, w') =>
            if isAbortError error then
              (inr (TimeoutError
                      ("Request timed out after " ++
                       numberToString timeout ++ "ms") None None),
               w', [])
            else if isNonRetryable error then (inr error, w', [])
            else if (attempt =? maxRetries)%Z then
              (inr (failedAfter maxRetries (Some error)), w', [])
            else
              let ms := backoffTime attempt in
              later (Backoff ms)
                (retryLoop turns' maxRetries timeout (attempt + 1)
                           (Some error) (wait ms w'))
        end
  end.

(** [withRetry(operation, config)]; [config] is the optional second
    argument, [adapter] the configuration of the adapter. *)
Definition withRetry (adapter config : RetryConfig) (w : World) : Run :=
  let maxRetries := effectiveMaxRetries adapter config in
  let timeout := effectiveTimeout adapter config in
  retryLoop (Z.to_nat (maxRetries + 1)) maxRetries timeout 0 None w.

(** The world in which attempt [i] starts when all earlier attempts
    failed and were retried. *)
Fixpoint worldAt (w : World) (i : nat) : World :=
  match i with
  | O => w
  | S j =>
      wait (backoffTime (Z.of_nat j)) (snd (operation (worldAt w j)))
  end.

(** The events of [n] failed and retried attempts, from attempt [from]. *)
Fixpoint retried (from : Z) (n : nat) : list Event :=
  match n with
  | O => []
  | S m =>
      Attempt from :: Backoff (backoffTime from) :: retried (from + 1) m
  end.

Definition attempts (trace : list Event) : nat :=
  length (filter (fun e => match e with Attempt _ => true | _ => false end)
                 trace).

(** A failure the engine answers with a wait and another attempt. *)
Definition retryable (error : JsError) : bool :=
  negb (isAbortError error) && negb (isNonRetryable error).

(** Attempt [i] (counted from 0) fails with such an error. *)
Definition failsRetryably (w : World) (i : nat) : Prop :=
  exists error,
    fst (operation (worldAt w i)) = inr error /\ retryable error = true.

Definition prepend (events : list Event) (r : Run) : Run :=
  (fst r, events ++ snd r).

End WithRetry.

End BaseAdapter.

(* ================================================================== *)
(** * Logger (utils/logger.ts) *)
(* ================================================================== *)

Module Logger.

Inductive LogLevel : Type := DEBUG | INFO | WARN | ERROR.

(** A call of [logger.warn], [logger.info] or [logger.error], with its
    message.  The calls of [logger.debug] are not recorded: a log of the
    model is the list of the calls above the DEBUG level, and an empty log
    says that none of those was made. *)
Record LogEntry : Type := {
  level : LogLevel;
  message : jsstring
}.

(** The class of the value in the logger's pattern: any character but
    an ampersand, white space, a single or double quote and a backslash. *)
Definition isLogValueChar (c : ascii) : bool :=
  negb (Ascii.eqb c "&" || JsString.isWhiteSpace c || Ascii.eqb c "'" ||
        Ascii.eqb c JsString.dquote || Ascii.eqb c "\").

(** What may follow the value of a parameter in a log text. *)
Definition logValueEnds (rest : jsstring) : bool :=
  match rest with
  | [] => true
  | c :: _ => negb (isLogValueChar c)
  end.

Definition LOG_CREDENTIAL_NAMES : list jsstring :=
  [("key" : jsstring); ("api_key" : jsstring); ("apikey" : jsstring);
   ("token" : jsstring); ("access_token" : jsstring);
   ("api-key" : jsstring)].

(** A parameter name the logger's pattern accepts: a name of the list, in
    any mix of upper and lower case. *)
Definition isLogCredentialName (name : jsstring) : bool :=
  existsb (fun n => JsString.eqbI n name) LOG_CREDENTIAL_NAMES.

(** The logger's pattern, with flags gi:
    ([?&](?:key|api_key|apikey|token|access_token|api-key)=)(value+)
    where value is the class [isLogValueChar]. *)
Definition pat_log_credential : Regex.regex :=
  Regex.seqs
    [Regex.Cls Errors.isSeparator;
     Regex.alts (Regex.litI "key")
                [Regex.litI "api_key"; Regex.litI "apikey";
                 Regex.litI "token"; Regex.litI "access_token";
                 Regex.litI "api-key"];
     Regex.litI "=";
     Regex.plus isLogValueChar].

(** Group 1 of a match of [pat_log_credential]: separator, name and
    equals sign, that is the matched text up to its first equals sign
    (neither a separator nor a name holds one). *)
Definition dollar1 (matched : jsstring) : jsstring :=
  hd [] (JsString.split "=" matched) ++ "=".

(** [sanitizeForLogging(text)] for a string: [text.replace(pattern, '$1***')]. *)
Definition sanitizeForLogging (text : jsstring) : jsstring :=
  Regex.replaceAll pat_log_credential (fun m => dollar1 m ++ "***") text.




End Logger.

(* ================================================================== *)
(** * Base64 ([Buffer.prototype.toString('base64')] and its inverse) *)
(* ================================================================== *)

Module Base64.

Definition alphabet : jsstring :=
  "ABCDEFGHIJKLMNOPQRSTUVWXYZabcdefghijklmnopqrstuvwxyz0123456789+/".

Definition pad : ascii := "="%char.

Definition sextetChar (n : N) : ascii := nth (N.to_nat n) alphabet pad.

Fixpoint indexIn (c : ascii) (l : jsstring) (i : N) : option N :=
  match l with
  | [] => None
  | x :: l' => if Ascii.eqb x c then Some i else indexIn c l' (i + 1)%N
  end.

Definition charSextet (c : ascii) : option N := indexIn c alphabet 0%N.

(** Three bytes give 24 bits, cut into four groups of six. *)
Definition group (a b c : Byte.byte) : N :=
  (Byte.to_N a * 65536 + Byte.to_N b * 256 + Byte.to_N c)%N.

Definition zero : Byte.byte := Byte.x00.

Fixpoint encode (bytes : list Byte.byte) : jsstring :=
  match bytes with
  | [] => []
  | [a] =>
      let n := group a zero zero in
      [sextetChar (n / 262144); sextetChar ((n / 4096) mod 64); pad; pad]%N
  | [a; b] =>
      let n := group a b zero in
      [sextetChar (n / 262144); sextetChar ((n / 4096) mod 64);
       sextetChar ((n / 64) mod 64); pad]%N
  | a :: b :: c :: rest =>
      let n := group a b c in
      [sextetChar (n / 262144); sextetChar ((n / 4096) mod 64);
       sextetChar ((n / 64) mod 64); sextetChar (n mod 64)]%N
      ++ encode rest
  end.

Definition ungroup (s1 s2 s3 s4 : N) : N :=
  (s1 * 262144 + s2 * 4096 + s3 * 64 + s4)%N.

Definition obind {A B : Type} (o : option A) (f : A -> option B) : option B :=
  match o with
  | Some a => f a
  | None => None
  end.

Fixpoint decode (text : jsstring) : option (list Byte.byte) :=
  match text with
  | [] => Some []
  | c1 :: c2 :: c3 :: c4 :: rest =>
      obind (charSextet c1) (fun s1 =>
      obind (charSextet c2) (fun s2 =>
      if Ascii.eqb c4 pad then
        match rest with
        | [] =>
            if Ascii.eqb c3 pad then
              obind (Byte.of_N (ungroup s1 s2 0 0 / 65536)) (fun a =>
              Some [a])
            else
              obind (charSextet c3) (fun s3 =>
              let n := ungroup s1 s2 s3 0 in
              obind (Byte.of_N (n / 65536)) (fun a =>
              obind (Byte.of_N ((n / 256) mod 256)) (fun b =>
              Some [a; b])))
        | _ :: _ => None
        end
      else
        obind (charSextet c3) (fun s3 =>
        obind (charSextet c4) (fun s4 =>
        let n := ungroup s1 s2 s3 s4 in
        obind (Byte.of_N (n / 65536)) (fun a =>
        obind (Byte.of_N ((n / 256) mod 256)) (fun b =>
        obind (Byte.of_N (n mod 256)) (fun c =>
        obind (decode rest) (fun bytes =>
        Some (a :: b :: c :: bytes)))))))))%N
  | _ => None
  end.

End Base64.

(* ================================================================== *)
(** * Image input normalisation (utils/image-input.ts) *)
(* ================================================================== *)

Module ImageInput.
Import JsString Regex Errors Logger.

Inductive ImageInputType : Type := url | base64 | local.

Definition typeName (t : ImageInputType) : jsstring :=
  match t with
  | url => "url"
  | base64 => "base64"
  | local => "local"
  end.

(** The value found for a MIME type: a string, or one of the two values
    which the table of extensions inherits from [Object.prototype] (see
    [lookup]): the function [Object] and the object [Object.prototype]. *)
Inductive MimeValue : Type :=
| MimeString (s : list ascii)
| ObjectFunction
| ObjectPrototype.

Coercion MimeString : list >-> MimeValue.

(** The text a template literal makes of such a value. *)
Definition mimeText (m : MimeValue) : jsstring :=
  match m with
  | MimeString s => s
  | ObjectFunction => "function Object() { [native code] }"
  | ObjectPrototype => "[object Object]"
  end.

Record NormalizedImageInput : Type := {
  type : ImageInputType;
  originalInput : jsstring;
  dataUrl : jsstring;
  mimeType : MimeValue
}.

Definition SUPPORTED_MIME_TYPES : list jsstring :=
  [("image/jpeg" : jsstring); ("image/jpg" : jsstring);
   ("image/png" : jsstring); ("image/webp" : jsstring)].

Definition EXT_TO_MIME_TYPE : list (jsstring * jsstring) :=
  [(".jpg" : jsstring, "image/jpeg" : jsstring);
   (".jpeg" : jsstring, "image/jpeg" : jsstring);
   (".png" : jsstring, "image/png" : jsstring);
   (".webp" : jsstring, "image/webp" : jsstring)].

(** [Object.keys(EXT_TO_MIME_TYPE)] *)
Definition extensions : list jsstring := map fst EXT_TO_MIME_TYPE.

(** The own entry of a table for a key. *)
Fixpoint ownEntry (key : jsstring) (table : list (jsstring * jsstring))
  : option jsstring :=
  match table with
  | [] => None
  | (k, v) :: table' =>
      if JsString.eqb k key then Some v else ownEntry key table'
  end.

(** [table[key]] for a key in lower case; [None] stands for [undefined].
    The table is a plain object, so a key which is not its own is looked
    up on [Object.prototype].  Two of the names defined there are in lower
    case: [constructor], the function [Object], and [__proto__], which
    gives the prototype of the table, [Object.prototype].  Both values are
    truthy. *)
Definition lookup (key : jsstring) (table : list (jsstring * jsstring))
  : option MimeValue :=
  match ownEntry key table with
  | Some v => Some (MimeString v)
  | None =>
      if JsString.eqb key "constructor" then Some ObjectFunction
      else if JsString.eqb key "__proto__" then Some ObjectPrototype
      else None
  end.

Definition strings (l : list jsstring) : JsValue := JArray (map JString l).

Definition detectInputType (input : jsstring) : ImageInputType :=
  if startsWith "data:image/" input && includes ";base64," input then base64
  else if startsWith "http://" input || startsWith "https://" input then url
  else local.

Definition getMimeTypeFromFileName (filename : jsstring)
  : MimeValue + JsError :=
  let ext :=
    substringFrom (lastIndexOf "." filename) (toLowerCase filename) in
  match lookup ext EXT_TO_MIME_TYPE with
  | Some mimeType => inl mimeType
  | None =>
      inr (InvalidInputError
             ("Unsupported file extension: " ++ ext)
             (Some [("filename" : jsstring, JString filename);
                    ("supportedExtensions" : jsstring, strings extensions)])
             None)
  end.

(** /^data:(image\/[^;]+);base64,/i *)
Definition pat_data_url : regex :=
  seqs [Bos; litI "data:"; litI "image/";
        plus (fun c => negb (Ascii.eqb c ";")); litI ";base64,"].

(** Group 1 of [pat_data_url]: the matched text without its five leading
    characters (data:) and its eight trailing ones (;base64,). *)
Definition group1 (matched : jsstring) : jsstring :=
  firstn (length matched - 13) (skipn 5 matched).

Definition getMimeTypeFromDataUrl (dataUrl : jsstring)
  : jsstring + JsError :=
  match execFrom pat_data_url None dataUrl with
  | None =>
      inr (InvalidInputError
             "Invalid data URL format. Expected: data:image/*;base64,..."
             (Some [("dataUrl" : jsstring, JString dataUrl)]) None)
  | Some matched =>
      let mimeType := toLowerCase (group1 matched) in
      if existsb (JsString.eqb mimeType) SUPPORTED_MIME_TYPES
      then inl mimeType
      else
        inr (InvalidInputError
               ("Unsupported image MIME type: " ++ mimeType)
               (Some [("supportedTypes" : jsstring,
                       strings SUPPORTED_MIME_TYPES)])
               None)
  end.

(** The two properties of a parsed [URL] the sources read. *)
Record URL : Type := {
  protocol : jsstring;
  pathname : jsstring
}.

Definition isVisionMCPError (e : JsError) : bool :=
  match e with
  | VisionMCPError _ _ _ _ _ => true
  | _ => false
  end.

Definition isTypeError (e : JsError) : bool :=
  match e with
  | TypeError _ => true
  | _ => false
  end.

(** [(error as any).code === c]: the [code] of a file-system error; the
    code of a [VisionMCPError] is one of the six names of the taxonomy and
    never a file-system code. *)
Definition hasSystemCode (c : jsstring) (e : JsError) : bool :=
  match e with
  | SystemError code _ => JsString.eqb code c
  | _ => false
  end.

Definition Logged (A : Type) : Type := (A + JsError) * list LogEntry.

Definition silent {A : Type} (r : A + JsError) : Logged A := (r, []).

Section Normalize.
(** The platform: [new URL(input)] ([None] when it throws its
    [TypeError]), [readFile] of fs/promises, and [process.env]. *)
Variable parseURL : jsstring -> option URL.
Variable readFile : jsstring -> list Byte.byte + JsError.
Variable env : jsstring -> option jsstring.

Definition isImageUrl (input : jsstring) : bool :=
  match parseURL input with
  | Some urlObj =>
      let pathname := toLowerCase (pathname urlObj) in
      existsb (fun ext => endsWith ext pathname) extensions
  | None => false
  end.

Definition normalizeBase64Input (input : jsstring)
  : NormalizedImageInput + JsError :=
  let body : NormalizedImageInput + JsError :=
    if negb (includes "," input) ||
       negb (length (split "," input) =? 2)%nat
    then
      inr (InvalidInputError
             "Invalid data URL format. Expected: data:image/*;base64,DATA"
             None None)
    else
      match getMimeTypeFromDataUrl input with
      | inr e => inr e
      | inl mimeType =>
          let dataPart := nth 1 (split "," input) [] in
          if negb (truthy dataPart) || (length dataPart =? 0)%nat
          then
            inr (InvalidInputError "No base64 data found in data URL"
                                   None None)
          else
            inl {| type := base64;
                   originalInput := input;
                   dataUrl := input;
                   mimeType := mimeType |}
      end in
  match body with
  | inl r => inl r
  | inr error =>
      inr (ImageLoadError "Invalid base64 data URL"
                          (Some [("input" : jsstring, JString input)])
                          (Some error))
  end.

Definition normalizeUrlInput (input : jsstring) (strictValidation : bool)
  : Logged NormalizedImageInput :=
  let ok : NormalizedImageInput :=
    {| type := url;
       originalInput := input;
       dataUrl := input;
       mimeType := "image/*" |} in
  let body : Logged NormalizedImageInput :=
    match parseURL input with
    | None => silent (inr (TypeError "Invalid URL"))
    | Some u =>
        if negb (startsWith "http" (protocol u)) then
          silent
            (inr (InvalidInputError
                    "Only HTTP/HTTPS URLs are supported"
                    (Some [("protocol" : jsstring, JString (protocol u))])
                    None))
        else if negb (isImageUrl input) then
          if strictValidation then
            silent
              (inr (InvalidInputError
                      ("URL does not have a supported image extension (allowed: "
                         ++ join ", " extensions ++ ")")
                      (Some [("url" : jsstring, JString input)])
                      None))
          else
            (inl ok,
             [ {| level := WARN;
                  message :=
                    "URL does not appear to point to an image file" |};
               {| level := WARN;
                  message :=
                    "Set VISION_STRICT_URL_VALIDATION=true to enforce strict validation" |} ])
        else silent (inl ok)
    end in
  match body with
  | (inl r, log) => (inl r, log)
  | (inr error, log) =>
      if isTypeError error then
        (inr (InvalidInputError
                "Invalid URL format"
                (Some [("input" : jsstring, JString input)])
                (Some error)), log)
      else
        (inr (ImageLoadError
                "Failed to process URL input"
                (Some [("input" : jsstring, JString input)])
                (Some error)), log)
  end.

Definition normalizeLocalInput (input : jsstring)
  : NormalizedImageInput + JsError :=
  let path : option Details :=
    Some [("path" : jsstring, JString input)] in
  let body : NormalizedImageInput + JsError :=
    match readFile input with
    | inr e => inr e
    | inl fileBuffer =>
        if (length fileBuffer =? 0)%nat then
          inr (ImageLoadError "File is empty" path None)
        else
          match getMimeTypeFromFileName input with
          | inr e => inr e
          | inl mimeType =>
              let base64Data := Base64.encode fileBuffer in
              inl {| type := local;
                     originalInput := input;
                     dataUrl :=
                       "data:" ++ mimeText mimeType ++ ";base64," ++
                       base64Data;
                     mimeType := mimeType |}
          end
    end in
  match body with
  | inl r => inl r
  | inr error =>
      if hasSystemCode "ENOENT" error then
        inr (ImageLoadError "File not found" path (Some error))
      else if hasSystemCode "EACCES" error then
        inr (ImageLoadError "Permission denied reading file" path
                            (Some error))
      else
        inr (ImageLoadError "Failed to read local file" path (Some error))
  end.

(** [process.env.VISION_STRICT_URL_VALIDATION !== 'false'] *)
Definition strictValidation : bool :=
  match env "VISION_STRICT_URL_VALIDATION" with
  | Some v => negb (JsString.eqb v "false")
  | None => true
  end.

Definition normalizeImageInput (input : jsstring)
  : Logged NormalizedImageInput :=
  let type := detectInputType input in
  let body : Logged NormalizedImageInput :=
    match type with
    | base64 => silent (normalizeBase64Input input)
    | url => normalizeUrlInput input strictValidation
    | local => silent (normalizeLocalInput input)
    end in
  match body with
  | (inl r, log) => (inl r, log)
  | (inr error, log) =>
      if isVisionMCPError error then (inr error, log)
      else
        (inr (ImageLoadError
                "Failed to normalize image input"
                (Some [("input" : jsstring, JString input);
                       ("type" : jsstring, JString (typeName type))])
                (Some error)), log)
  end.

End Normalize.

(** [getImageSizeInfo(dataUrl).size]: [Math.floor(length * 0.75)], which
    is exact in floating point for every length a string can have. *)
Definition getImageSizeInfo (dataUrl : jsstring) : nat :=
  let base64Data :=
    if includes "," dataUrl then nth 1 (split "," dataUrl) [] else dataUrl in
  length base64Data * 3 / 4.

End ImageInput.

(* ================================================================== *)
(** * Data URL parser (utils/data-url-parser.ts) *)
(* ================================================================== *)

Module DataUrl.
Import JsString Errors.

Record ParsedDataUrl : Type := {
  mimeType : jsstring;
  data : jsstring
}.

Definition parseDataUrl (dataUrl : jsstring) : ParsedDataUrl + JsError :=
  if negb (startsWith "data:" dataUrl) then
    inr (OtherError "Error"
                    ("Invalid data URL: must start with " ++
                     [dquote] ++ "data:" ++ [dquote]))
  else
    let commaIndex := indexOf "," dataUrl in
    if (commaIndex =? -1)%Z then
      inr (OtherError "Error" "Invalid data URL: missing comma separator")
    else
      let metaPart := substring 5 commaIndex dataUrl in
      let dataPart := substringFrom (commaIndex + 1) dataUrl in
      if negb (truthy dataPart) then
        inr (OtherError "Error" "Invalid data URL: empty data part")
      else
        let metaParts := split ";" metaPart in
        let mimeType := hd [] metaParts in
        if negb (startsWith "image/" mimeType) then
          inr (OtherError "Error"
                          ("Invalid MIME type in data URL: " ++ mimeType))
        else if negb (existsb (JsString.eqb "base64") metaParts) then
          inr (OtherError "Error"
                          "Invalid data URL: missing base64 encoding")
        else
          inl {| mimeType := mimeType; data := dataPart |}.

Definition isDataUrl (value : jsstring) : bool :=
  startsWith "data:image/" value.

End DataUrl.

(* ================================================================== *)
(** * Provider registry and configuration loader
      (providers/provider-registry.ts, config/model-config.ts) *)
(* ================================================================== *)

Module ModelConfig.
Import JsString Regex Errors Logger.

(** A number as [parseInt] returns it. *)
Inductive JsNumber : Type :=
| NaN
| Num (z : Z).

Record ModelDefaults : Type := {
  defaultBaseUrl : jsstring;
  defaultModelName : jsstring;
  defaultTimeout : Z;
  defaultMaxRetries : Z
}.

(** The result of a key validator: [true], [false] or an error text. *)
Inductive KeyValidation : Type :=
| VBool (b : bool)
| VMessage (text : jsstring).

(** A provider definition (the adapter factory and the thinking extractor
    play no part in loading the configuration). *)
Record ProviderDefinition : Type := {
  providerType : jsstring;
  displayName : jsstring;
  defaults : ModelDefaults;
  validateApiKey : option (jsstring -> KeyValidation);
  enableThinking : option bool
}.

(** The registry: a [Map] from type to definition, in insertion order. *)
Definition Registry := list (jsstring * ProviderDefinition).

(** [providers.set(provider.type, provider)] *)
Fixpoint mapSet (key : jsstring) (p : ProviderDefinition) (r : Registry)
  : Registry :=
  match r with
  | [] => [(key, p)]
  | (k, q) :: r' =>
      if JsString.eqb k key then (k, p) :: r' else (k, q) :: mapSet key p r'
  end.

Definition register (provider : ProviderDefinition) (r : Registry)
  : Registry :=
  mapSet (providerType provider) provider r.

Fixpoint get (type : jsstring) (r : Registry) : option ProviderDefinition :=
  match r with
  | [] => None
  | (k, p) :: r' => if JsString.eqb k type then Some p else get type r'
  end.

Definition has (type : jsstring) (r : Registry) : bool :=
  match get type r with
  | Some _ => true
  | None => false
  end.

Definition getSupportedTypes (r : Registry) : list jsstring := map fst r.

Definition standardDefaults (baseUrl modelName : jsstring) : ModelDefaults :=
  {| defaultBaseUrl := baseUrl;
     defaultModelName := modelName;
     defaultTimeout := 60000;
     defaultMaxRetries := 2 |}.

Definition requirePrefix (prefix text : jsstring) (apiKey : jsstring)
  : KeyValidation :=
  if negb (startsWith prefix apiKey) then VMessage text else VBool true.

Definition glm : ProviderDefinition :=
  {| providerType := "glm";
     displayName := "GLM-4.6V";
     defaults :=
       standardDefaults "https://open.bigmodel.cn/api/paas/v4" "glm-4.6v";
     validateApiKey :=
       Some (fun apiKey =>
               if negb (includes "." apiKey)
               then VMessage "GLM API Key should contain a dot (.)"
               else VBool true);
     enableThinking := Some true |}.

Definition siliconflow : ProviderDefinition :=
  {| providerType := "siliconflow";
     displayName := "SiliconFlow";
     defaults :=
       standardDefaults "https://api.siliconflow.cn/v1"
                        "Qwen/Qwen2-VL-72B-Instruct";
     validateApiKey :=
       Some (requirePrefix
               "sk-"
               ("SiliconFlow API Key should start with " ++
                [dquote] ++ "sk-" ++ [dquote]));
     enableThinking := Some false |}.

Definition modelscope : ProviderDefinition :=
  {| providerType := "modelscope";
     displayName := "ModelScope API-Inference";
     defaults :=
       standardDefaults "https://api-inference.modelscope.cn/v1"
                        "ZhipuAI/GLM-4.6V";
     validateApiKey :=
       Some (requirePrefix
               "ms-"
               ("ModelScope API Key should start with " ++
                [dquote] ++ "ms-" ++ [dquote]));
     enableThinking := Some false |}.

Definition openai : ProviderDefinition :=
  {| providerType := "openai";
     displayName := "OpenAI";
     defaults := standardDefaults "https://api.openai.com/v1" "gpt-4o";
     validateApiKey :=
       Some (requirePrefix
               "sk-"
               ("OpenAI API Key should start with " ++
                [dquote] ++ "sk-" ++ [dquote]));
     enableThinking := Some false |}.

Definition claude : ProviderDefinition :=
  {| providerType := "claude";
     displayName := "Anthropic Claude";
     defaults :=
       standardDefaults "https://api.anthropic.com"
                        "claude-3-5-sonnet-20241022";
     validateApiKey :=
       Some (requirePrefix
               "sk-ant-"
               ("Claude API Key typically starts with " ++
                [dquote] ++ "sk-ant-" ++ [dquote] ++
                ". Proxy providers may use different formats."));
     enableThinking := Some false |}.

Definition gemini : ProviderDefinition :=
  {| providerType := "gemini";
     displayName := "Google Gemini";
     defaults :=
       standardDefaults "https://generativelanguage.googleapis.com"
                        "gemini-2.0-flash-exp";
     validateApiKey :=
       Some (fun apiKey =>
               if (length apiKey <? 10)%nat
               then VMessage "Gemini API Key should be at least 10 characters"
               else VBool true);
     enableThinking := Some false |}.

(** The registry after the built-in providers are registered. *)
Definition registry : Registry :=
  fold_left (fun r p => register p r)
            [glm; siliconflow; modelscope; openai; claude; gemini] [].

Inductive ThinkingMode : Type := enabled | disabled.

Record ModelConfig : Type := {
  type : jsstring;
  name : jsstring;
  baseUrl : jsstring;
  apiKey : jsstring;
  timeout : JsNumber;
  maxRetries : JsNumber;
  thinking : option ThinkingMode
}.

Definition isDigit (c : ascii) : bool :=
  let n := code c in ((48 <=? n) && (n <=? 57))%N.

Fixpoint digits (seen : bool) (acc : Z) (s : jsstring) : JsNumber :=
  match s with
  | c :: s' =>
      if isDigit c
      then digits true (acc * 10 + (Z.of_N (code c) - 48)) s'
      else if seen then Num acc else NaN
  | [] => if seen then Num acc else NaN
  end.

Definition negate (n : JsNumber) : JsNumber :=
  match n with
  | NaN => NaN
  | Num z => Num (- z)
  end.

(** [parseInt(s, 10)]: leading white space, an optional sign, then the
    longest run of decimal digits; [NaN] when there is none.  The number
    is kept as an integer, which is the double the program has for it up
    to 2^53; beyond that the program rounds to the nearest double and the
    model does not. *)
Definition parseInt (s : jsstring) : JsNumber :=
  match trimStart s with
  | c :: rest =>
      if Ascii.eqb c "-" then negate (digits false 0 rest)
      else if Ascii.eqb c "+" then digits false 0 rest
      else digits false 0 (c :: rest)
  | [] => NaN
  end.

(** /\/$/ *)
Definition pat_trailing_slash : regex := seqs [chr "/"; Eoi].

(** [process.env.X || fallback] *)
Definition envOr (v : option jsstring) (fallback : jsstring) : jsstring :=
  match v with
  | Some s => if truthy s then s else fallback
  | None => fallback
  end.

(** [process.env.X ? parseInt(process.env.X, 10) : fallback] *)
Definition envNumber (v : option jsstring) (fallback : Z) : JsNumber :=
  match v with
  | Some s => if truthy s then parseInt s else Num fallback
  | None => Num fallback
  end.

(** What [logger.warn(validation as string, ...)] is given. *)
Definition validationText (v : KeyValidation) : jsstring :=
  match v with
  | VMessage text => text
  | VBool true => "true"
  | VBool false => "false"
  end.

Definition isValid (v : KeyValidation) : bool :=
  match v with
  | VBool true => true
  | _ => false
  end.

Definition Logged (A : Type) : Type := (A + JsError) * list LogEntry.

Definition failed {A : Type} (e : JsError) : Logged A :=
  (inr e,
   [ {| level := ERROR; message := "Failed to load model configuration" |} ]).

(** [loadModelConfig()], reading [process.env] and the registry. *)
Definition loadModelConfig (registry : Registry)
           (env : jsstring -> option jsstring) : Logged ModelConfig :=
  let type := envOr (env "VISION_MODEL_TYPE") [] in
  if negb (truthy type) then
    failed (ModelConfigError
              "Missing VISION_MODEL_TYPE environment variable" None None)
  else
    match get type registry with
    | None =>
        failed (ModelConfigError
                  ("Unsupported model type: " ++ type ++
                   ". Supported types: " ++
                   join ", " (getSupportedTypes registry))
                  None None)
    | Some provider =>
        let defaults := defaults provider in
        let name := envOr (env "VISION_MODEL_NAME")
                          (defaultModelName defaults) in
        let baseUrl := envOr (env "VISION_API_BASE_URL")
                             (defaultBaseUrl defaults) in
        let apiKey := envOr (env "VISION_API_KEY") [] in
        if negb (truthy apiKey) then
          failed (ModelConfigError
                    "Missing VISION_API_KEY environment variable" None None)
        else
          let warnings :=
            match validateApiKey provider with
            | Some validate =>
                let validation := validate apiKey in
                if isValid validation then []
                else [ {| level := WARN;
                          message := validationText validation |} ]
            | None => []
            end in
          let timeout := envNumber (env "VISION_API_TIMEOUT")
                                   (defaultTimeout defaults) in
          let maxRetries := envNumber (env "VISION_MAX_RETRIES")
                                      (defaultMaxRetries defaults) in
          let config :=
            {| type := type;
               name := name;
               baseUrl := replaceFirst pat_trailing_slash (fun _ => []) baseUrl;
               apiKey := apiKey;
               timeout := timeout;
               maxRetries := maxRetries;
               thinking :=
                 match enableThinking provider with
                 | Some true => Some enabled
                 | _ => None
                 end |} in
          (inl config,
           warnings ++
           [ {| level := INFO;
                message := "Model configuration loaded successfully" |} ])
    end.

(** [n <= 0] and [n < 0]; a comparison with [NaN] is false. *)
Definition notPositive (n : JsNumber) : bool :=
  match n with
  | NaN => false
  | Num z => (z <=? 0)%Z
  end.

Definition negative (n : JsNumber) : bool :=
  match n with
  | NaN => false
  | Num z => (z <? 0)%Z
  end.

(** [if (test) errors.push(text)] *)
Definition pushIf (test : bool) (text : jsstring) (errors : list jsstring)
  : list jsstring :=
  if test then errors ++ [text] else errors.

(** [validateModelConfig(config)].  The three texts of the record are
    strings and its two numbers are numbers ([NaN] included), as
    [loadModelConfig] builds them, so that the [typeof] halves of the
    tests are settled by the type of the record. *)
Definition validateModelConfig (config : ModelConfig) : Logged bool :=
  let errors : list jsstring := [] in
  let errors :=
    pushIf (negb (truthy (name config))) "Model name is required" errors in
  let errors :=
    pushIf (negb (truthy (baseUrl config))) "Base URL is required" errors in
  let errors :=
    pushIf (negb (truthy (apiKey config))) "API Key is required" errors in
  let errors :=
    pushIf (notPositive (timeout config))
           "Timeout must be a positive number" errors in
  let errors :=
    pushIf (negative (maxRetries config))
           "Max retries must be a non-negative number" errors in
  if (0 <? length errors)%nat then
    (inr (ModelConfigError (join "; " errors) None None),
     [ {| level := ERROR;
          message := "Model configuration validation failed" |} ])
  else (inl true, []).

(** [maskApiKey(apiKey)] *)
Definition maskApiKey (apiKey : jsstring) : jsstring :=
  if negb (truthy apiKey) || (length apiKey <=? 8)%nat then "***"
  else
    let visible := Nat.min 4 (length apiKey / 4) in
    substring 0 (Z.of_nat visible) apiKey ++
    repeat "*"%char (Nat.max 1 (length apiKey - visible * 2)) ++
    substringFrom (Z.of_nat (length apiKey - visible)) apiKey.

Definition getModelDisplayInfo (config : ModelConfig) : jsstring :=
  type config ++ " - " ++ name config ++
  " (API Key: " ++ maskApiKey (apiKey config) ++ ")".

(** The two settings the retry engine reads from the configuration of
    its adapter.  The engine only applies [||] to them, for which [NaN]
    is falsy like [undefined]. *)
Definition setting (n : JsNumber) : option Z :=
  match n with
  | NaN => None
  | Num z => Some z
  end.

Definition retrySettings (config : ModelConfig) : BaseAdapter.RetryConfig :=
  {| BaseAdapter.maxRetries := setting (maxRetries config);
     BaseAdapter.timeout := setting (timeout config) |}.

(** [{ ...config, timeout: n }] *)
Definition withTimeout (n : JsNumber) (config : ModelConfig) : ModelConfig :=
  {| type := type config;
     name := name config;
     baseUrl := baseUrl config;
     apiKey := apiKey config;
     timeout := n;
     maxRetries := maxRetries config;
     thinking := thinking config |}.

End ModelConfig.



(* ================================================================== *)
(** * Thinking extractors (utils/thinking-extractors.ts) *)
(* ================================================================== *)

Module ThinkingExtractors.
Import JsString Errors.

(** Truthiness of a value. *)
Definition truthyValue (v : JsValue) : bool :=
  match v with
  | JUndefined | JNull => false
  | JBool b => b
  | JNumber z => negb (z =? 0)%Z
  | JString s => truthy s
  | JArray _ | JObject _ => true
  end.

(** [a || b] *)
Definition orElse (a b : JsValue) : JsValue :=
  if truthyValue a then a else b.

(** [key in record] for an own property. *)
Definition hasField (key : jsstring) (d : Details) : bool :=
  existsb (fun kv => JsString.eqb (fst kv) key) d.

(** [v?.key], and [v.key] for a [v] which is neither null nor undefined.
    The keys read by the sources are names which no prototype defines and
    which are neither an index nor [length]: such a key is found on a
    record only. *)
Definition prop (key : jsstring) (v : JsValue) : JsValue :=
  match v with
  | JObject fields => getField key fields
  | _ => JUndefined
  end.

(** [v?.[0]] *)
Definition index0 (v : JsValue) : JsValue :=
  match v with
  | JArray items => hd JUndefined items
  | JString (c :: _) => JString [c]
  | JObject fields => getField "0" fields
  | _ => JUndefined
  end.

(** [String(v)], as [join] and [+] compute it; [None] stands for the
    TypeError of a record whose own [toString] property hides the
    inherited method (no value of a response is callable).  Inside an
    array, null and undefined count as the empty string. *)
Fixpoint toStringValue (v : JsValue) : option jsstring :=
  match v with
  | JUndefined => Some ("undefined" : jsstring)
  | JNull => Some ("null" : jsstring)
  | JBool b => Some (if b then ("true" : jsstring) else ("false" : jsstring))
  | JNumber z => Some (BaseAdapter.numberToString z)
  | JString s => Some s
  | JArray items =>
      option_map (join ",")
        ((fix texts (l : list JsValue) : option (list jsstring) :=
            match l with
            | [] => Some []
            | item :: l' =>
                match
                  match item with
                  | JUndefined | JNull => Some []
                  | _ => toStringValue item
                  end, texts l'
                with
                | Some s, Some ss => Some (s :: ss)
                | _, _ => None
                end
            end) items)
  | JObject fields =>
      if hasField "toString" fields then None
      else Some ("[object Object]" : jsstring)
  end.

Definition elementText (item : JsValue) : option jsstring :=
  match item with
  | JUndefined | JNull => Some []
  | _ => toStringValue item
  end.

Fixpoint elementTexts (items : list JsValue) : option (list jsstring) :=
  match items with
  | [] => Some []
  | item :: items' =>
      match elementText item, elementTexts items' with
      | Some s, Some ss => Some (s :: ss)
      | _, _ => None
      end
  end.

(** [items.join(sep)] *)
Definition joinValues (sep : jsstring) (items : list JsValue)
  : option jsstring :=
  option_map (join sep) (elementTexts items).

(** [a + b] throws when an operand has no primitive value. *)
Definition addThrows (a b : JsValue) : bool :=
  match toStringValue a, toStringValue b with
  | Some _, Some _ => false
  | _, _ => true
  end.

(** [v === 'text'] *)
Definition isText (v : JsValue) : bool :=
  match v with
  | JString s => JsString.eqb s "text"
  | _ => false
  end.

(** The envelope an extractor returns, with its fields as the response
    holds them; [rawResponse] and [usage] are left out, which the filter
    does not read. *)
Record ModelResponseEnvelope : Type := {
  content : JsValue;
  reasoning : JsValue;
  thinking : JsValue
}.

(** What the [catch] of an extractor returns. *)
Definition emptyEnvelope : ModelResponseEnvelope :=
  {| content := JString []; reasoning := JUndefined; thinking := JUndefined |}.

Definition extractGLMThinking (rawResponse : JsValue)
  : ModelResponseEnvelope :=
  let choice := index0 (prop "choices" rawResponse) in
  let message := orElse (prop "message" choice) (JObject []) in
  {| content := orElse (prop "content" message) (JString []);
     reasoning := orElse (prop "reasoning" message)
                         (orElse (prop "thinking" message) (JString []));
     thinking := JUndefined |}.

Definition extractOpenAIThinking (rawResponse : JsValue)
  : ModelResponseEnvelope :=
  let choice := index0 (prop "choices" rawResponse) in
  let message := orElse (prop "message" choice) (JObject []) in
  {| content := orElse (prop "content" message) (JString []);
     reasoning := orElse (prop "reasoning" message) (JString []);
     thinking := JUndefined |}.

(** The text parts of a Claude response:
    [blocks.filter(b => b?.type === 'text').map(b => b?.text || '').filter(Boolean)] *)
Definition claudeTextParts (contentBlocks : list JsValue) : list JsValue :=
  filter truthyValue
         (map (fun block => orElse (prop "text" block) (JString []))
              (filter (fun block => isText (prop "type" block))
                      contentBlocks)).

(** [filter] is a method of arrays only: on any other truthy value the
    call throws, and so does [join] on a part without a string value;
    the extractor catches both. *)
Definition extractClaudeThinking (rawResponse : JsValue)
  : ModelResponseEnvelope :=
  match orElse (prop "content" rawResponse) (JArray []) with
  | JArray contentBlocks =>
      match joinValues [LF; LF] (claudeTextParts contentBlocks) with
      | Some content =>
          {| content := JString content;
             reasoning := orElse (prop "thinking" rawResponse) (JString []);
             thinking := JUndefined |}
      | None => emptyEnvelope
      end
  | _ => emptyEnvelope
  end.

(** [candidate?.content?.parts || candidate?.output?.parts || []] *)
Definition geminiParts (candidate : JsValue) : JsValue :=
  orElse (prop "parts" (prop "content" candidate))
         (orElse (prop "parts" (prop "output" candidate)) (JArray [])).

(** [parts.filter(p => p?.text).map(p => p.text)] *)
Definition geminiTextParts (parts : list JsValue) : list JsValue :=
  map (prop "text") (filter (fun part => truthyValue (prop "text" part)) parts).

(** The mapping of the usage metadata throws when the token counts it
    adds up have no primitive value. *)
Definition geminiUsageThrows (rawResponse : JsValue) : bool :=
  let usageMetadata :=
    orElse (prop "usageMetadata" rawResponse) (prop "usage" rawResponse) in
  truthyValue usageMetadata &&
  negb (truthyValue (prop "totalTokens" usageMetadata)) &&
  addThrows
    (orElse (prop "promptTokenCount" usageMetadata)
            (orElse (prop "inputTokens" usageMetadata) (JNumber 0)))
    (orElse (prop "candidatesTokenCount" usageMetadata)
            (orElse (prop "outputTokens" usageMetadata) (JNumber 0))).

Definition extractGeminiThinking (rawResponse : JsValue)
  : ModelResponseEnvelope :=
  let candidate := index0 (prop "candidates" rawResponse) in
  if negb (truthyValue candidate) then emptyEnvelope
  else
    match geminiParts candidate with
    | JArray parts =>
        match joinValues [LF; LF] (geminiTextParts parts) with
        | Some content =>
            if geminiUsageThrows rawResponse then emptyEnvelope
            else {| content := JString content;
                    reasoning := JUndefined;
                    thinking := JUndefined |}
        | None => emptyEnvelope
        end
    | _ => emptyEnvelope
    end.

End ThinkingExtractors.

(* ================================================================== *)
(** * The thinking filter on raw responses (utils/thinking-filter.ts) *)
(* ================================================================== *)

Module RawThinkingFilter.
Import JsString Errors ThinkingExtractors.

(** What a key of the table [THINKING_EXTRACTORS] gives.  The table is a
    plain object, so the two lower-case names of [Object.prototype] are
    found as well: [constructor] is the function [Object], which returns
    the response itself, and [__proto__] is an object, which cannot be
    called. *)
Inductive TableEntry : Type :=
| Callable (extractor : JsValue -> ModelResponseEnvelope)
| NotCallable
| Absent.

(** [Object(rawResponse)] read as an envelope. *)
Definition objectConstructor (rawResponse : JsValue) : ModelResponseEnvelope :=
  {| content := prop "content" rawResponse;
     reasoning := prop "reasoning" rawResponse;
     thinking := prop "thinking" rawResponse |}.

Definition THINKING_EXTRACTORS (key : jsstring) : TableEntry :=
  if JsString.eqb key "glm" then Callable extractGLMThinking
  else if JsString.eqb key "glm-4.6v" then Callable extractGLMThinking
  else if JsString.eqb key "glm-4v" then Callable extractGLMThinking
  else if JsString.eqb key "siliconflow" then Callable extractOpenAIThinking
  else if JsString.eqb key "openai" then Callable extractOpenAIThinking
  else if JsString.eqb key "claude" then Callable extractClaudeThinking
  else if JsString.eqb key "gemini" then Callable extractGeminiThinking
  else if JsString.eqb key "constructor" then Callable objectConstructor
  else if JsString.eqb key "__proto__" then NotCallable
  else Absent.

(** [stripThinkingPatterns] on a value of any type: what is not a string
    gives the empty string. *)
Definition stripThinkingPatterns (text : JsValue) : jsstring :=
  match text with
  | JString s => ThinkingFilter.stripThinkingPatterns s
  | _ => []
  end.

Definition stripThinking (envelope : ModelResponseEnvelope) : jsstring :=
  let cleaned :=
    stripThinkingPatterns (orElse (content envelope) (JString [])) in
  if (length cleaned <? 10)%nat &&
     (truthyValue (reasoning envelope) || truthyValue (thinking envelope))
  then []
  else cleaned.

(** [rawResponse?.choices?.[0]?.message?.content] *)
Definition choiceContent (rawResponse : JsValue) : JsValue :=
  prop "content" (prop "message" (index0 (prop "choices" rawResponse))).

Definition filterThinkingContent (rawResponse : JsValue)
           (modelType : jsstring) : jsstring + JsError :=
  if negb (truthy modelType)
  then inr (OtherError "Error" "modelType is required for thinking filter")
  else
    match THINKING_EXTRACTORS (toLowerCase modelType) with
    | Callable extractor => inl (stripThinking (extractor rawResponse))
    | Absent => inl (stripThinking (extractOpenAIThinking rawResponse))
    | NotCallable =>
        inl (stripThinkingPatterns
               (orElse (choiceContent rawResponse) (JString [])))
    end.

End RawThinkingFilter.

(* ================================================================== *)
(** * Parsing a chat-completions response (adapters/base-adapter.ts) *)
(* ================================================================== *)

Module VisionResponse.
Import JsString Errors ThinkingExtractors.

Record VisionModelResponse : Type := {
  content : jsstring;
  usage : JsValue;
  model : JsValue
}.

(** The error of the inner [throw], which the [catch] of [parseResponse]
    wraps. *)
Definition invalidFormat (response : JsValue) : JsError :=
  ModelAPIError "Invalid response format: missing or invalid content"
                (Some [("response" : jsstring, response)]) None.

Definition parseResponse (response : JsValue) (modelType : jsstring)
  : VisionModelResponse + JsError :=
  if negb (truthy modelType)
  then inr (OtherError "Error" "modelType is required for parseResponse")
  else
    match RawThinkingFilter.choiceContent response with
    | JString (c :: s) =>
        let content := c :: s in
        let filteredContent :=
          match RawThinkingFilter.filterThinkingContent response modelType with
          | inl filtered => filtered
          | inr _ => content
          end in
        inl {| content := filteredContent;
               usage := prop "usage" response;
               model := prop "model" response |}
    | _ =>
        inr (ModelAPIError "Failed to parse model response"
                           (Some [("response" : jsstring, response)])
                           (Some (invalidFormat response)))
    end.

End VisionResponse.

(* ================================================================== *)
(** * The SiliconFlow adapter (adapters/siliconflow-adapter.ts) *)
(* ================================================================== *)

Module SiliconFlowAdapter.
Import JsString Errors BaseAdapter.

(** What the adapter reads of the [Response] of [fetch]: [text] is [None]
    when the body cannot be read, [retryAfter] is the header of that name,
    [json] the parsed body or the error of [response.json()]. *)
Record HttpResponse : Type := {
  status : Z;
  statusText : jsstring;
  text : option jsstring;
  retryAfter : option jsstring;
  json : JsValue + JsError
}.

(** [response.ok]: the status is in the range 200 to 299. *)
Definition ok (response : HttpResponse) : bool :=
  ((200 <=? status response) && (status response <=? 299))%Z.

Definition apiUrl (config : ModelConfig.ModelConfig) : jsstring :=
  ModelConfig.baseUrl config ++ "/chat/completions".

(** The statements of [callSiliconFlowAPI] after [fetch]. *)
Definition callSiliconFlowAPI (config : ModelConfig.ModelConfig)
           (response : HttpResponse)
  : VisionResponse.VisionModelResponse + JsError :=
  if negb (ok response) then
    let errorText :=
      match text response with
      | Some t => t
      | None => "Failed to get error details" : jsstring
      end in
    if (status response =? 429)%Z then
      let retryAfterText : jsstring :=
        match retryAfter response with
        | Some (c :: r) => "Retry after " ++ (c :: r) ++ "s. "
        | _ => []
        end in
      inr (ModelAPIError
             ("Rate limit exceeded (429). " ++ retryAfterText ++
              "Please check your API quota or wait before retrying.")
             (Some [("status" : jsstring, JNumber (status response));
                    ("statusText" : jsstring, JString (statusText response));
                    ("errorDetails" : jsstring, JString errorText);
                    ("endpoint" : jsstring, JString (apiUrl config));
                    ("retryAfter" : jsstring,
                     match retryAfter response with
                     | Some r => JString r
                     | None => JNull
                     end);
                    ("guidance" : jsstring,
                     JString "Check your API quota or wait before retrying")])
             None)
    else
      inr (ModelAPIError
             ("SiliconFlow API request failed: " ++
              numberToString (status response) ++ " " ++ statusText response)
             (Some [("status" : jsstring, JNumber (status response));
                    ("statusText" : jsstring, JString (statusText response));
                    ("errorDetails" : jsstring, JString errorText);
                    ("endpoint" : jsstring, JString (apiUrl config))])
             None)
  else
    match json response with
    | inl responseData => VisionResponse.parseResponse responseData "siliconflow"
    | inr error => inr error
    end.

Section Analyze.
(** The vendor's API as an outside world: [fetch] answers with a
    response or rejects, and the world moves on. *)
Variable World : Type.
Variable fetch : World -> (HttpResponse + JsError) * World.
Variable wait : Z -> World -> World.

(** The operation given to [withRetry]: one call of the API, of which
    [analyze] keeps the content. *)
Definition operation (config : ModelConfig.ModelConfig) (w : World)
  : (jsstring + JsError) * World :=
  match fetch w with
  | (inl response, w') =>
      (match callSiliconFlowAPI config response with
       | inl r => inl (VisionResponse.content r)
       | inr error => inr error
       end, w')
  | (inr error, w') => (inr error, w')
  end.

(** [analyze(imageData, prompt)]; the [catch] logs and throws the error
    again. *)
Definition analyze (config : ModelConfig.ModelConfig) (w : World)
  : Run jsstring World :=
  withRetry (operation config) wait (ModelConfig.retrySettings config)
            {| maxRetries := None; timeout := None |} w.

End Analyze.

End SiliconFlowAdapter.

(* ================================================================== *)
(** * The Claude adapter (adapters/claude-adapter.ts) *)
(* ================================================================== *)

Module ClaudeAdapter.
Import JsString Regex Errors ThinkingExtractors.

(** The [apiUrl] of [callClaudeAPI]: one slash at the end of the base URL
    and then one [/v1] are dropped before [/v1/messages] is added. *)
Definition apiUrl (config : ModelConfig.ModelConfig) : jsstring :=
  let baseUrl :=
    replaceFirst ModelConfig.pat_trailing_slash (fun _ => [])
                 (ModelConfig.baseUrl config) in
  let baseUrl :=
    if endsWith "/v1" baseUrl then firstn (length baseUrl - 3) baseUrl
    else baseUrl in
  baseUrl ++ "/v1/messages".





End ClaudeAdapter.

(* ================================================================== *)
(** * The Gemini adapter (adapters/gemini-adapter.ts) *)
(* ================================================================== *)

Module GeminiAdapter.
Import JsString Regex Errors BaseAdapter.

Inductive AuthMode : Type :=
| bearer
| x_goog
| query.

Record GeminiAdapterOptions : Type := {
  apiVersion : jsstring;
  authMode : AuthMode
}.

Definition buildApiUrl (config : ModelConfig.ModelConfig)
           (options : GeminiAdapterOptions) : jsstring :=
  let baseUrl :=
    replaceFirst ModelConfig.pat_trailing_slash (fun _ => [])
                 (ModelConfig.baseUrl config) in
  let url :=
    baseUrl ++ "/" ++ apiVersion options ++ "/models/" ++
    ModelConfig.name config ++ ":generateContent" in
  match authMode options with
  | query => url ++ "?key=" ++ ModelConfig.apiKey config
  | _ => url
  end.

Definition buildAuthHeaders (config : ModelConfig.ModelConfig)
           (options : GeminiAdapterOptions) : list (jsstring * jsstring) :=
  match authMode options with
  | bearer =>
      [("Authorization" : jsstring, "Bearer " ++ ModelConfig.apiKey config)]
  | x_goog => [("x-goog-api-key" : jsstring, ModelConfig.apiKey config)]
  | query => []
  end.

(** /\?key=([^&\s]+)/ *)
Definition pat_query_key : regex :=
  seqs [lit "?key="; plus isValueChar].

Definition sanitizeUrl (options : GeminiAdapterOptions) (url : jsstring)
  : jsstring :=
  match authMode options with
  | query => replaceFirst pat_query_key (fun _ => "?key=***" : jsstring) url
  | _ => url
  end.

(** [error instanceof ModelAPIError] *)
Definition isModelAPIError (error : JsError) : bool :=
  match error with
  | VisionMCPError ModelAPIErrorC _ _ _ _ => true
  | _ => false
  end.

(** The [catch] of [callGeminiAPI]. *)
Definition rethrown (config : ModelConfig.ModelConfig) (error : JsError)
  : JsError :=
  if isModelAPIError error then error
  else if isAbortError error then
    ModelAPIError "Request timed out"
      (Some [("timeout" : jsstring,
              JNumber (orDefault (ModelConfig.setting
                                    (ModelConfig.timeout config)) 60000));
             ("reason" : jsstring, JString "API request exceeded timeout")])
      None
  else error.

Section Analyze.
(** [buildRequest] runs before the [try] of [callGeminiAPI]; [exchange]
    is the body of the [try]: the request, the handling of an error
    status, the parsing and the normalising of the response. *)
Variable World Request : Type.
Variable buildRequest : World -> (Request + JsError) * World.
Variable exchange :
  Request -> World -> (VisionResponse.VisionModelResponse + JsError) * World.
Variable wait : Z -> World -> World.

Definition callGeminiAPI (config : ModelConfig.ModelConfig) (w : World)
  : (VisionResponse.VisionModelResponse + JsError) * World :=
  match buildRequest w with
  | (inl requestBody, w') =>
      match exchange requestBody w' with
      | (inl response, w'') => (inl response, w'')
      | (inr error, w'') => (inr (rethrown config error), w'')
      end
  | (inr error, w') => (inr error, w')
  end.

(** The operation given to [withRetry]: one call of the API, of which
    [analyze] keeps the content. *)
Definition operation (config : ModelConfig.ModelConfig) (w : World)
  : (jsstring + JsError) * World :=
  match callGeminiAPI config w with
  | (inl response, w') => (inl (VisionResponse.content response), w')
  | (inr error, w') => (inr error, w')
  end.

(** [analyze(imageData, prompt)]; the [catch] logs and throws the error
    again. *)
Definition analyze (config : ModelConfig.ModelConfig) (w : World)
  : Run jsstring World :=
  withRetry (operation config) wait (ModelConfig.retrySettings config)
            {| maxRetries := None; timeout := None |} w.

End Analyze.

End GeminiAdapter.

(* ================================================================== *)
(** * File names with code units beyond U+00FF *)
(* ================================================================== *)

(** [getMimeTypeFromFileName] cuts the lower-cased name at an index of the
    name as written.  Over the code units of [JsString] the two have the
    same length.  They have not when the name holds U+0130 (capital I with
    dot above), the one character whose lower-case form is longer than
    itself: the two code units U+0069 U+0307.  This module repeats the part
    of the normaliser which handles a local file over the code units of
    [JsString] together with these two. *)
Module WideNames.
Import JsString Errors Base64 ImageInput.

Inductive CodeUnit : Type :=
| Latin1 (c : ascii)
| U0130
| U0307.

Definition name : Type := list CodeUnit.

Definition widen (s : jsstring) : name := map Latin1 s.

(** The name as a [jsstring], when all its code units are below U+0100. *)
Fixpoint narrow (s : name) : option jsstring :=
  match s with
  | [] => Some []
  | Latin1 c :: s' =>
      match narrow s' with
      | Some r => Some (c :: r)
      | None => None
      end
  | _ :: _ => None
  end.

Definition lowerUnit (u : CodeUnit) : name :=
  match u with
  | Latin1 c => [Latin1 (lowerChar c)]
  | U0130 => [Latin1 "i"; U0307]
  | U0307 => [U0307]
  end.

(** [String.prototype.toLowerCase] *)
Definition toLowerCase (s : name) : name := flat_map lowerUnit s.

Definition unitEqb (a b : CodeUnit) : bool :=
  match a, b with
  | Latin1 x, Latin1 y => Ascii.eqb x y
  | U0130, U0130 => true
  | U0307, U0307 => true
  | _, _ => false
  end.

Fixpoint eqb (a b : name) : bool :=
  match a, b with
  | [], [] => true
  | x :: a', y :: b' => unitEqb x y && eqb a' b'
  | _, _ => false
  end.

Fixpoint lastIndexOfFrom (c : CodeUnit) (i : Z) (found : Z) (s : name) : Z :=
  match s with
  | [] => found
  | x :: s' =>
      lastIndexOfFrom c (i + 1) (if unitEqb x c then i else found) s'
  end.

Definition lastIndexOf (c : CodeUnit) (s : name) : Z :=
  lastIndexOfFrom c 0 (-1) s.

(** [s.substring(i)]: a negative index is clamped to 0. *)
Definition substringFrom (i : Z) (s : name) : name :=
  skipn (Z.to_nat i) s.

(** [EXT_TO_MIME_TYPE[key]]: the names of the table and of
    [Object.prototype] are made of code units below U+0100. *)
Definition lookup (key : name) : option MimeValue :=
  match narrow key with
  | Some k => ImageInput.lookup k EXT_TO_MIME_TYPE
  | None => None
  end.

(** The errors of this part of the normaliser, with the message, the
    details and the cause their constructors are called with: what
    [readFile] throws, the [InvalidInputError] of
    [getMimeTypeFromFileName] (details [filename] and
    [supportedExtensions]) and the [ImageLoadError]s of
    [normalizeLocalInput] (details [path]). *)
Inductive Thrown : Type :=
| FileSystem (e : JsError)
| InvalidInput (message : name) (filename : name)
               (supportedExtensions : list jsstring)
| ImageLoad (message : jsstring) (path : name) (cause : option Thrown).

Definition hasSystemCode (c : jsstring) (e : Thrown) : bool :=
  match e with
  | FileSystem e => ImageInput.hasSystemCode c e
  | _ => false
  end.

Record Normalized : Type := {
  type : ImageInputType;
  originalInput : name;
  dataUrl : jsstring;
  mimeType : MimeValue
}.

Definition getMimeTypeFromFileName (filename : name) : MimeValue + Thrown :=
  let ext :=
    substringFrom (lastIndexOf (Latin1 ".") filename)
                  (toLowerCase filename) in
  match lookup ext with
  | Some mimeType => inl mimeType
  | None =>
      inr (InvalidInput (widen "Unsupported file extension: " ++ ext)
                        filename extensions)
  end.

Section Normalize.
Variable readFile : name -> list Byte.byte + JsError.

Definition normalizeLocalInput (input : name) : Normalized + Thrown :=
  let body : Normalized + Thrown :=
    match readFile input with
    | inr e => inr (FileSystem e)
    | inl fileBuffer =>
        if (length fileBuffer =? 0)%nat then
          inr (ImageLoad "File is empty" input None)
        else
          match getMimeTypeFromFileName input with
          | inr e => inr e
          | inl mimeType =>
              let base64Data := Base64.encode fileBuffer in
              inl {| type := local;
                     originalInput := input;
                     dataUrl :=
                       "data:" ++ mimeText mimeType ++ ";base64," ++
                       base64Data;
                     mimeType := mimeType |}
          end
    end in
  match body with
  | inl r => inl r
  | inr error =>
      if hasSystemCode "ENOENT" error then
        inr (ImageLoad "File not found" input (Some error))
      else if hasSystemCode "EACCES" error then
        inr (ImageLoad "Permission denied reading file" input (Some error))
      else
        inr (ImageLoad "Failed to read local file" input (Some error))
  end.

End Normalize.

End WideNames.

(* ================================================================== *)
(** * Concrete inputs used by the examples *)
(* ================================================================== *)

Module Examples.
Import JsString Errors ThinkingFilter BaseAdapter ImageInput.

(** A response whose visible content repeats a sentence of its reasoning
    field, without any marker around it. *)
Definition echoedReasoning : ModelResponseEnvelope :=
  {| content := "I see two cats. The answer is two cats.";
     reasoning := Some ("I see two cats." : jsstring);
     thinking := None |}.

Definition taggedAnswer : ModelResponseEnvelope :=
  {| content := "<thinking>secret</thinking>visible answer";
     reasoning := Some ("secret" : jsstring);
     thinking := None |}.

Definition onlyThinking : ModelResponseEnvelope :=
  {| content := "<thinking>step 1, step 2</thinking>";
     reasoning := None;
     thinking := None |}.

Definition shortWithReasoning : ModelResponseEnvelope :=
  {| content := "<thinking>hidden</thinking>ok";
     reasoning := Some ("hidden" : jsstring);
     thinking := None |}.

Definition nestedDetails : Details :=
  [("endpoint" : jsstring, JString "https://x/y?api_key=SECRET123");
   ("status" : jsstring, JNumber 429);
   ("tried" : jsstring,
    JArray [JString "https://a/b?key=K1&alt=json";
            JObject [("url" : jsstring, JString "https://c/d?x=1&token=T2")];
            JArray [JString "https://e/f?access_token=T3"]])].

(** The outside world of these runs is the number of calls made so far;
    waiting changes nothing. *)
Definition noWait (ms : Z) (calls : nat) : nat := calls.

Definition serverError : JsError :=
  ModelAPIError "API request failed: 503 Service Unavailable"
                (Some [("status" : jsstring, JNumber 503)]) None.

Definition unauthorized : JsError :=
  ModelAPIError "API request failed: 401 Unauthorized"
                (Some [("status" : jsstring, JNumber 401)]) None.

(** Fails once with a 503, then answers. *)
Definition failsOnce (calls : nat) : (jsstring + JsError) * nat :=
  (match calls with
   | O => inr serverError
   | S _ => inl ("A cat" : jsstring)
   end, S calls).

(** Always rejected with a 401. *)
Definition rejectsKey (calls : nat) : (jsstring + JsError) * nat :=
  (inr unauthorized, S calls).

(** The connection drops on the first call; the second call runs into the
    deadline; a third call would answer. *)
Definition dropsThenTimesOut (calls : nat) : (jsstring + JsError) * nat :=
  (match calls with
   | O => inr (OtherError "Error" "socket hang up")
   | S O => inr (AbortError "This operation was aborted")
   | S (S _) => inl ("A cat" : jsstring)
   end, S calls).

(** The first call runs into the deadline; later calls would answer. *)
Definition timesOutFirst (calls : nat) : (jsstring + JsError) * nat :=
  (match calls with
   | O => inr (AbortError "This operation was aborted")
   | S _ => inl ("A cat" : jsstring)
   end, S calls).

Definition twoRetries : RetryConfig :=
  {| maxRetries := Some 2%Z; timeout := Some 60000%Z |}.

Definition noOverride : RetryConfig :=
  {| maxRetries := None; timeout := None |}.

(** A stand-in for [new URL] on inputs of the form scheme://host/path: the
    path starts at the first slash after the host. *)
Definition afterHost (rest : jsstring) : jsstring :=
  let i := indexOf "/" rest in
  if (i =? -1)%Z then "/" else substringFrom i rest.

Definition simpleURL (input : jsstring) : option URL :=
  if startsWith "https://" input then
    Some {| protocol := "https:";
            pathname := afterHost (substringFrom 8 input) |}
  else if startsWith "http://" input then
    Some {| protocol := "http:";
            pathname := afterHost (substringFrom 7 input) |}
  else None.

Definition fourBytes : list Byte.byte :=
  [Byte.x89; Byte.x50; Byte.x4e; Byte.x47].

(** A file system with two files. *)
Definition twoFiles (path : jsstring) : list Byte.byte + JsError :=
  if JsString.eqb path "/tmp/cat.png" then inl fourBytes
  else if JsString.eqb path "/tmp/cat.gif" then inl fourBytes
  else inr (SystemError "ENOENT" "no such file or directory").

(** A file system whose one file has a name without extension. *)
Definition oneFile (path : jsstring) : list Byte.byte + JsError :=
  if JsString.eqb path "Constructor" then inl fourBytes
  else inr (SystemError "ENOENT" "no such file or directory").

(** A name with U+0130 before its extension, and a file system whose one
    file has that name. *)
Definition dottedName : WideNames.name :=
  WideNames.U0130 :: WideNames.widen ".png".

Definition dottedFile (path : WideNames.name)
  : list Byte.byte + JsError :=
  if WideNames.eqb path dottedName then inl fourBytes
  else inr (SystemError "ENOENT" "no such file or directory").

Definition noEnv (key : jsstring) : option jsstring := None.

Definition lenientEnv (key : jsstring) : option jsstring :=
  if JsString.eqb key "VISION_STRICT_URL_VALIDATION"
  then Some ("false" : jsstring)
  else None.

(** GLM selected, with a key that has no dot. *)
Definition glmEnv (key : jsstring) : option jsstring :=
  if JsString.eqb key "VISION_MODEL_TYPE" then Some ("glm" : jsstring)
  else if JsString.eqb key "VISION_API_KEY" then Some ("keywithoutdot" : jsstring)
  else None.

(** OpenAI selected, with a time limit that is not a number. *)
Definition typoEnv (key : jsstring) : option jsstring :=
  if JsString.eqb key "VISION_MODEL_TYPE" then Some ("openai" : jsstring)
  else if JsString.eqb key "VISION_API_KEY"
       then Some ("sk-0123456789" : jsstring)
  else if JsString.eqb key "VISION_API_TIMEOUT" then Some ("soon" : jsstring)
  else None.

(** A configuration which asks for no retry at all. *)
Definition zeroRetries : ModelConfig.ModelConfig :=
  {| ModelConfig.type := "openai";
     ModelConfig.name := "gpt-4o";
     ModelConfig.baseUrl := "https://api.openai.com/v1";
     ModelConfig.apiKey := "sk-0123456789";
     ModelConfig.timeout := ModelConfig.Num 60000;
     ModelConfig.maxRetries := ModelConfig.Num 0;
     ModelConfig.thinking := None |}.

(** Every call is answered with a 503. *)
Definition alwaysUnavailable (calls : nat) : (jsstring + JsError) * nat :=
  (inr serverError, S calls).

Definition siliconflowConfig : ModelConfig.ModelConfig :=
  {| ModelConfig.type := "siliconflow";
     ModelConfig.name := "Qwen/Qwen2-VL-72B-Instruct";
     ModelConfig.baseUrl := "https://api.siliconflow.cn/v1";
     ModelConfig.apiKey := "sk-0123456789";
     ModelConfig.timeout := ModelConfig.Num 60000;
     ModelConfig.maxRetries := ModelConfig.Num 2;
     ModelConfig.thinking := None |}.

Definition geminiConfig : ModelConfig.ModelConfig :=
  {| ModelConfig.type := "gemini";
     ModelConfig.name := "gemini-2.0-flash-exp";
     ModelConfig.baseUrl := "https://generativelanguage.googleapis.com/";
     ModelConfig.apiKey := "AIza0123456789";
     ModelConfig.timeout := ModelConfig.Num 60000;
     ModelConfig.maxRetries := ModelConfig.Num 2;
     ModelConfig.thinking := None |}.

Definition claudeConfig : ModelConfig.ModelConfig :=
  {| ModelConfig.type := "claude";
     ModelConfig.name := "claude-3-5-sonnet-20241022";
     ModelConfig.baseUrl := "https://proxy.example/v1/";
     ModelConfig.apiKey := "sk-ant-0123456789";
     ModelConfig.timeout := ModelConfig.Num 60000;
     ModelConfig.maxRetries := ModelConfig.Num 2;
     ModelConfig.thinking := None |}.

(** A 503 answer, and a world in which every request gets the same
    answer. *)
Definition serviceUnavailable : SiliconFlowAdapter.HttpResponse :=
  {| SiliconFlowAdapter.status := 503;
     SiliconFlowAdapter.statusText := "Service Unavailable";
     SiliconFlowAdapter.text := Some ("upstream busy" : jsstring);
     SiliconFlowAdapter.retryAfter := None;
     SiliconFlowAdapter.json :=
       inr (OtherError "SyntaxError" "Unexpected end of JSON input") |}.

Definition answering (response : SiliconFlowAdapter.HttpResponse)
           (calls : nat)
  : (SiliconFlowAdapter.HttpResponse + JsError) * nat :=
  (inl response, S calls).

(** A request body is always built, and every exchange is cut off by the
    deadline. *)
Definition requestBuilt (calls : nat) : (unit + JsError) * nat :=
  (inl tt, calls).

Definition cutOff (request : unit) (calls : nat)
  : (VisionResponse.VisionModelResponse + JsError) * nat :=
  (inr (AbortError "This operation was aborted"), S calls).

End Examples.

(* ================================================================== *)
(** * Facts about strings and the matcher *)
(* ================================================================== *)

Module RegexFacts.
Import JsString Regex.

Lemma eqb_refl (s : jsstring) : JsString.eqb s s = true.
Proof.
  induction s as [|c s IH]; simpl; [reflexivity|].
  now rewrite Ascii.eqb_refl.
Qed.

Lemma eqb_eq (a b : jsstring) : JsString.eqb a b = true <-> a = b.
Proof.
  split.
  - revert b; induction a as [|x a IH]; intros [|y b]; simpl;
      try discriminate; [reflexivity|].
    intros H; apply andb_true_iff in H; destruct H as [Hx Hr].
    apply Ascii.eqb_eq in Hx; subst; f_equal; now apply IH.
  - intros ->; apply eqb_refl.
Qed.

Lemma last_default {A : Type} (l : list A) :
  forall (y a b : A), last (y :: l) a = last (y :: l) b.
Proof.
  induction l as [|z l IH]; intros y a b; [reflexivity|].
  change (last (y :: z :: l) a) with (last (z :: l) a).
  change (last (y :: z :: l) b) with (last (z :: l) b).
  apply IH.
Qed.

Lemma prevAfter_cons prev c m :
  prevAfter prev (c :: m) = prevAfter (Some c) m.
Proof.
  unfold prevAfter. destruct m as [|d m]; [reflexivity|].
  change (map Some (c :: d :: m)) with (Some c :: map Some (d :: m)).
  change (last (Some c :: map Some (d :: m)) prev)
    with (last (map Some (d :: m)) prev).
  apply (last_default (map Some m) (Some d)).
Qed.

(** A literal under the [i] flag consumes exactly a prefix which equals
    it up to case. *)
Lemma rmatch_litI (w : jsstring) :
  forall prev s k,
    rmatch (litI w) prev s k =
    if startsWithI w s
    then k (prevAfter prev (firstn (length w) s)) (skipn (length w) s)
    else None.
Proof.
  induction w as [|c w IH]; intros prev s k; [reflexivity|].
  destruct s as [|d s]; [reflexivity|].
  cbn [litI rmatch chrI startsWithI length firstn skipn].
  destruct (eqb_ci c d); [|reflexivity].
  rewrite IH, prevAfter_cons; reflexivity.
Qed.

(** The lazy [[\s\S]*?] stops at the first position where the rest of
    the pattern matches. *)
Lemma star_lazy_first (k : cont) (body tail : jsstring) (r : jsstring) :
  (forall q n, n < length body -> k q (skipn n (body ++ tail)) = None) ->
  (forall q, k q tail = Some r) ->
  forall prev, star false anyChar k prev (body ++ tail) = Some r.
Proof.
  induction body as [|c body IH]; intros Hnone Hhit prev.
  - destruct tail as [|c tail]; cbn; [apply Hhit|].
    now rewrite Hhit.
  - assert (H0 : k prev (c :: body ++ tail) = None)
      by (apply (Hnone prev 0); cbn; lia).
    cbn. rewrite H0.
    apply IH; [|exact Hhit].
    intros q n Hn. apply (Hnone q (S n)). cbn; lia.
Qed.

(** A greedy class repetition followed by nothing else takes the whole
    run of characters of the class. *)
Lemma star_greedy_run (p : ascii -> bool) (v rest : jsstring) :
  forallb p v = true ->
  match rest with [] => true | c :: _ => negb (p c) end = true ->
  forall prev, star true p accept prev (v ++ rest) = Some rest.
Proof.
  intros Hv Hrest; induction v as [|x v IH]; intros prev.
  - destruct rest as [|c rest]; cbn; [reflexivity|].
    apply negb_true_iff in Hrest; now rewrite Hrest.
  - cbn in Hv; apply andb_true_iff in Hv; destruct Hv as [Hx Hv].
    cbn. rewrite Hx, (IH Hv); reflexivity.
Qed.

(** Dropping the rest of a match. *)
Lemma replaceFrom_skip r f (m rest : jsstring) :
  forall prev,
    replaceFrom r f prev (length m) (m ++ rest) =
    replaceFrom r f (prevAfter prev m) 0 rest.
Proof.
  induction m as [|c m IH]; intros prev; [reflexivity|].
  cbn [length app replaceFrom]. rewrite IH, prevAfter_cons; reflexivity.
Qed.

Lemma replaceFrom_skip_all r f (s : jsstring) :
  forall prev n, length s <= n -> replaceFrom r f prev (S n) s = [].
Proof.
  induction s as [|c s IH]; intros prev n Hn; [reflexivity|].
  cbn [replaceFrom]. destruct n as [|n]; [cbn in Hn; lia|].
  apply IH. cbn in Hn; lia.
Qed.

Lemma star_prev g p (k1 k2 : cont) :
  (forall q1 q2 s, k1 q1 s = k2 q2 s) ->
  forall s p1 p2, star g p k1 p1 s = star g p k2 p2 s.
Proof.
  intros Hk; induction s as [|c s IH]; intros p1 p2; cbn; [apply Hk|].
  destruct (p c); [|apply Hk].
  destruct g.
  - rewrite (IH (Some c) (Some c)), (Hk p1 p2); reflexivity.
  - rewrite (IH (Some c) (Some c)), (Hk p1 p2); reflexivity.
Qed.

Lemma rmatch_prev (r : regex) :
  anchorFree r = true ->
  forall (k1 k2 : cont),
    (forall q1 q2 s, k1 q1 s = k2 q2 s) ->
    forall s p1 p2, rmatch r p1 s k1 = rmatch r p2 s k2.
Proof.
  induction r as [|p|r1 IH1 r2 IH2|r1 IH1 r2 IH2|g p| | | |];
    intros Hfree k1 k2 Hk s p1 p2; cbn in *; try discriminate.
  - apply Hk.
  - destruct s as [|c s]; [reflexivity|]. destruct (p c); [apply Hk|reflexivity].
  - apply andb_true_iff in Hfree; destruct Hfree as [H1 H2].
    apply IH1; [exact H1|]. intros q1 q2 s'. now apply IH2.
  - apply andb_true_iff in Hfree; destruct Hfree as [H1 H2].
    rewrite (IH1 H1 k1 k2 Hk s p1 p2), (IH2 H2 k1 k2 Hk s p1 p2); reflexivity.
  - now apply star_prev.
  - destruct s as [|c s]; [apply Hk|]. destruct (isLineTerminator c); [apply Hk|reflexivity].
  - destruct s as [|c s]; [apply Hk|reflexivity].
Qed.

Lemma matchHere_prev (r : regex) :
  anchorFree r = true ->
  forall s p1 p2, matchHere r p1 s = matchHere r p2 s.
Proof.
  intros Hfree s p1 p2; unfold matchHere.
  now rewrite (rmatch_prev r Hfree accept accept (fun _ _ _ => eq_refl) s p1 p2).
Qed.

Lemma replaceFrom_prev (r : regex) f :
  anchorFree r = true ->
  forall s n p1 p2, replaceFrom r f p1 n s = replaceFrom r f p2 n s.
Proof.
  intros Hfree; induction s as [|c s IH]; intros n p1 p2.
  - destruct n; cbn [replaceFrom]; [|reflexivity].
    now rewrite (matchHere_prev r Hfree [] p1 p2).
  - destruct n; cbn [replaceFrom]; [|apply IH].
    now rewrite (matchHere_prev r Hfree (c :: s) p1 p2).
Qed.

Lemma startsWithI_tail (h : ascii) (u : jsstring) :
  forallb (fun c => negb (eqb_ci c h)) u = true ->
  forall body t,
    startsWithI u body = false ->
    startsWithI u (body ++ h :: t) = false.
Proof.
  induction u as [|x u IH]; intros Hu body t Hb; [discriminate|].
  cbn in Hu; apply andb_true_iff in Hu; destruct Hu as [Hx Hu].
  destruct body as [|y body]; cbn in *.
  - apply negb_true_iff in Hx; now rewrite Hx.
  - destruct (eqb_ci x y); [|reflexivity].
    cbn in *. now apply IH.
Qed.

Lemma includesI_none (w body : jsstring) :
  selfFree w = true ->
  includesI w body = false ->
  forall n, n < length body -> startsWithI w (skipn n (body ++ w)) = false.
Proof.
  intros Hw; induction body as [|y body IH]; intros Hb n Hn;
    [cbn in Hn; lia|].
  cbn [includesI] in Hb. apply orb_false_iff in Hb; destruct Hb as [H0 Hb].
  destruct n as [|n].
  - destruct w as [|h t]; [discriminate|].
    cbn [skipn]. cbn in H0 |- *.
    destruct (eqb_ci h y); [|reflexivity].
    cbn in *. now apply startsWithI_tail.
  - cbn [skipn app]. apply IH; [exact Hb|]. cbn in Hn; lia.
Qed.

Lemma star_stopped g p (c : ascii) (b : jsstring) (k1 k2 : cont) :
  p c = false ->
  (forall q a, k1 q (a ++ c :: b) = beyond c b (k2 q a)) ->
  forall a prev,
    star g p k1 prev (a ++ c :: b) = beyond c b (star g p k2 prev a).
Proof.
  intros Hc Hk. induction a as [|x a IH]; intros prev.
  - cbn [app star]. rewrite Hc. apply (Hk prev []).
  - pose proof (Hk prev (x :: a)) as Hx. cbn [app] in Hx.
    cbn [app star]. destruct (p x); [|exact Hx].
    destruct g.
    + rewrite IH. destruct (star true p k2 (Some x) a); [reflexivity|].
      exact Hx.
    + rewrite Hx. destruct (k2 prev (x :: a)); [reflexivity|].
      apply IH.
Qed.

Lemma rmatch_stopped (c : ascii) (b : jsstring) (r : regex) :
  stoppedBy c r = true ->
  forall (k1 k2 : cont),
    (forall q a, k1 q (a ++ c :: b) = beyond c b (k2 q a)) ->
    forall a prev,
      rmatch r prev (a ++ c :: b) k1 = beyond c b (rmatch r prev a k2).
Proof.
  induction r as [|p|r1 IH1 r2 IH2|r1 IH1 r2 IH2|g p| | | |];
    intros Hr k1 k2 Hk a prev; cbn [stoppedBy] in Hr; try discriminate;
    cbn [rmatch].
  - apply Hk.
  - apply negb_true_iff in Hr. destruct a as [|x a]; cbn [app].
    + now rewrite Hr.
    + destruct (p x); [apply Hk|reflexivity].
  - apply andb_true_iff in Hr. destruct Hr as [H1 H2].
    apply IH1; [exact H1|]. intros q a'. now apply IH2.
  - apply andb_true_iff in Hr. destruct Hr as [H1 H2].
    rewrite (IH1 H1 k1 k2 Hk), (IH2 H2 k1 k2 Hk).
    now destruct (rmatch r1 prev a k2).
  - apply negb_true_iff in Hr. now apply star_stopped.
  - destruct prev; [reflexivity|apply Hk].
  - destruct prev as [d|]; [|apply Hk].
    destruct (isLineTerminator d); [apply Hk|reflexivity].
Qed.

(** A pattern which opens with a class and then cannot read [c]: a match
    that starts inside [a] stays inside [a]. *)
Lemma matchHere_stopped (c : ascii) (b : jsstring) (p0 : ascii -> bool)
      (r : regex) :
  stoppedBy c r = true ->
  forall x a prev,
    matchHere (Seq (Cls p0) r) prev (x :: a ++ c :: b) =
    matchHere (Seq (Cls p0) r) prev (x :: a) /\
    (forall len,
        matchHere (Seq (Cls p0) r) prev (x :: a) = Some len ->
        len <= S (length a)).
Proof.
  intros Hr x a prev. unfold matchHere. cbn [rmatch].
  destruct (p0 x); [|split; [reflexivity|discriminate]].
  rewrite (@rmatch_stopped c b r Hr accept accept (fun _ _ => eq_refl)).
  destruct (rmatch r (Some x) a accept) as [rest|]; cbn [beyond option_map].
  - split.
    + f_equal. cbn [length]. rewrite !length_app. cbn [length]. lia.
    + intros len H. injection H as <-.
      exact (Nat.le_sub_l (S (length a)) (length rest)).
  - split; [reflexivity|discriminate].
Qed.

(** The scan of [a ++ c :: b] is then the scan of [a] followed by the scan
    of [c :: b]. *)
Lemma replaceFrom_stopped (c : ascii) (b : jsstring) (p0 : ascii -> bool)
      (r : regex) f :
  stoppedBy c r = true ->
  forall a prev skip,
    skip <= length a ->
    replaceFrom (Seq (Cls p0) r) f prev skip (a ++ c :: b) =
    replaceFrom (Seq (Cls p0) r) f prev skip a ++
    replaceFrom (Seq (Cls p0) r) f (prevAfter prev a) 0 (c :: b).
Proof.
  intros Hr. induction a as [|x a IH]; intros prev skip Hskip.
  - cbn in Hskip. assert (skip = 0) by lia. subst skip. reflexivity.
  - destruct skip as [|n].
    + destruct (@matchHere_stopped c b p0 r Hr x a prev) as [E Hlen].
      change ((x :: a) ++ c :: b) with (x :: a ++ c :: b).
      cbn [replaceFrom]. rewrite E.
      destruct (matchHere (Seq (Cls p0) r) prev (x :: a)) as [len|].
      * specialize (Hlen len eq_refl).
        replace (firstn len (x :: a ++ c :: b)) with (firstn len (x :: a)).
        2:{ change (x :: a ++ c :: b) with ((x :: a) ++ c :: b).
            rewrite firstn_app.
            replace (len - length (x :: a)) with 0 by (cbn [length]; lia).
            cbn [firstn]. now rewrite app_nil_r. }
        rewrite <- app_assoc. f_equal.
        destruct len as [|n].
        -- cbn [app]. f_equal. rewrite IH by lia.
           now rewrite prevAfter_cons.
        -- rewrite IH by lia. now rewrite prevAfter_cons.
      * cbn [app]. f_equal. rewrite IH by lia. now rewrite prevAfter_cons.
    + cbn [app replaceFrom]. rewrite IH by (cbn in Hskip; lia).
      now rewrite prevAfter_cons.
Qed.

End RegexFacts.

(* ================================================================== *)
(** * Facts about the thinking filter *)
(* ================================================================== *)

Module FilterFacts.
Import JsString Regex Errors ThinkingFilter RegexFacts.

(** The loop of [applyPattern] never stops for lack of fuel: any two
    amounts above [beforeLength] give the same result. *)
Lemma stripLoop_fuel (pattern : regex) :
  forall f1 f2 cleaned beforeLength,
    beforeLength < f1 -> beforeLength < f2 ->
    stripLoop f1 pattern cleaned beforeLength =
    stripLoop f2 pattern cleaned beforeLength.
Proof.
  induction f1 as [|f1 IH]; intros f2 cleaned b H1 H2; [lia|].
  destruct f2 as [|f2]; [lia|].
  cbn [stripLoop].
  destruct (length cleaned <? b)%nat eqn:E; [|reflexivity].
  apply Nat.ltb_lt in E. apply IH; lia.
Qed.

Lemma rmatch_thinking_block (body : jsstring) :
  includesI "</thinking>" body = false ->
  forall prev,
    rmatch pat_thinking_tag prev ("<thinking>" ++ body ++ "</thinking>") accept
    = Some [].
Proof.
  intros Hb prev. unfold pat_thinking_tag. cbn [seqs rmatch].
  rewrite rmatch_litI.
  change (startsWithI "<thinking>" ("<thinking>" ++ body ++ "</thinking>"))
    with true.
  cbn [length list_ascii_of_string firstn skipn app].
  apply star_lazy_first.
  - intros q n Hn. rewrite rmatch_litI.
    match goal with
    | |- (if ?c then _ else _) = _ =>
        replace c with false
          by (symmetry; exact (includesI_none "</thinking>" body eq_refl Hb Hn))
    end.
    reflexivity.
  - intros q. rewrite rmatch_litI. reflexivity.
Qed.

Lemma removeAll_thinking_block (body : jsstring) :
  includesI "</thinking>" body = false ->
  removeAll pat_thinking_tag ("<thinking>" ++ body ++ "</thinking>") = [].
Proof.
  intros Hb. unfold removeAll, replaceAll.
  set (tail := (body ++ "</thinking>" : jsstring)).
  change (list_ascii_of_string "<thinking>" ++ tail)
    with ("<"%char :: ("thinking>" ++ tail)).
  cbn [replaceFrom]. unfold matchHere.
  change ("<"%char :: ("thinking>" ++ tail))
    with (list_ascii_of_string "<thinking>" ++ body ++ "</thinking>").
  rewrite (rmatch_thinking_block body Hb None).
  change (list_ascii_of_string "<thinking>" ++ body ++ "</thinking>")
    with ("<"%char :: ("thinking>" ++ tail)).
  cbn [length Nat.sub app].
  rewrite <- (app_nil_r (list_ascii_of_string "thinking>" ++ tail)) at 2.
  rewrite replaceFrom_skip. reflexivity.
Qed.

Lemma stripThinkingPatterns_block (body : jsstring) :
  includesI "</thinking>" body = false ->
  stripThinkingPatterns ("<thinking>" ++ body ++ "</thinking>") = [].
Proof.
  intros Hb. unfold stripThinkingPatterns.
  change (truthy (list_ascii_of_string "<thinking>" ++ body ++ "</thinking>"))
    with true.
  cbn [negb]. unfold THINKING_PATTERNS. cbn [fold_left].
  assert (E : applyPattern ("<thinking>" ++ body ++ "</thinking>")
                           pat_thinking_tag = []).
  { unfold applyPattern. rewrite (removeAll_thinking_block body Hb).
    change (length (list_ascii_of_string "<thinking>" ++ body ++ "</thinking>"))
      with (S (S (length (list_ascii_of_string "hinking>" ++ body ++ "</thinking>")))).
    reflexivity. }
  rewrite E. reflexivity.
Qed.

End FilterFacts.

(* ================================================================== *)
(** * Facts about the sanitiser *)
(* ================================================================== *)

Module SanitizeFacts.
Import JsString Regex Errors RegexFacts.

Lemma credential_anchorFree : anchorFree pat_credential = true.
Proof. reflexivity. Qed.

(** No match starts at a character other than [?] and [&]. *)
Lemma matchHere_credential_other (c : ascii) (s : jsstring) prev :
  isSeparator c = false -> matchHere pat_credential prev (c :: s) = None.
Proof.
  intros Hc. unfold matchHere, pat_credential. cbn [seqs rmatch].
  now rewrite Hc.
Qed.

Lemma sanitize_plain (pre rest : jsstring) :
  forallb (fun c => negb (isSeparator c)) pre = true ->
  forall prev,
    replaceFrom pat_credential maskMatch prev 0 (pre ++ rest) =
    pre ++ replaceFrom pat_credential maskMatch (prevAfter prev pre) 0 rest.
Proof.
  induction pre as [|c pre IH]; intros Hpre prev; [reflexivity|].
  cbn in Hpre. apply andb_true_iff in Hpre. destruct Hpre as [Hc Hpre].
  apply negb_true_iff in Hc.
  cbn [app replaceFrom]. rewrite (@matchHere_credential_other c (pre ++ rest) prev Hc).
  rewrite (IH Hpre), prevAfter_cons. reflexivity.
Qed.

Lemma eqb_ci_trans (x y z : ascii) :
  eqb_ci x y = true -> eqb_ci z y = eqb_ci z x.
Proof.
  unfold eqb_ci. intros H. apply Ascii.eqb_eq in H. now rewrite H.
Qed.

Lemma eqb_ci_exact (x y d : ascii) :
  eqb_ci x y = true -> eqb_ci x d = false -> Ascii.eqb y d = false.
Proof.
  intros Hxy Hxd. destruct (Ascii.eqb y d) eqn:E; [|reflexivity].
  apply Ascii.eqb_eq in E. subst d. congruence.
Qed.

Lemma eqbI_cons (x y : ascii) (n name : jsstring) :
  eqbI (x :: n) (y :: name) = true ->
  eqb_ci x y = true /\ eqbI n name = true.
Proof.
  unfold eqbI. cbn [length startsWithI Nat.eqb]. intros H.
  apply andb_true_iff in H. destruct H as [Hl H].
  apply andb_true_iff in H. destruct H as [Hc H].
  split; [exact Hc|]. now rewrite Hl, H.
Qed.

Lemma eqbI_length (n name : jsstring) :
  eqbI n name = true -> length name = length n.
Proof.
  unfold eqbI. intros H. apply andb_true_iff in H. destruct H as [Hl _].
  apply Nat.eqb_eq in Hl. now symmetry.
Qed.

(** Whether a literal starts a text depends on the text up to case only. *)
Lemma startsWithI_congr (n : jsstring) :
  forall name, eqbI n name = true ->
  forall m t, startsWithI m (name ++ t) = startsWithI m (n ++ t).
Proof.
  induction n as [|x n IH]; intros [|y name] H m t;
    try (unfold eqbI in H; cbn in H; discriminate); [reflexivity|].
  apply eqbI_cons in H. destruct H as [Hc H].
  destruct m as [|z m]; [reflexivity|].
  cbn [app startsWithI]. now rewrite (@eqb_ci_trans x y z Hc), (IH name H m t).
Qed.

Lemma name_without (d : ascii) (n : jsstring) :
  forall name,
    eqbI n name = true ->
    forallb (fun c => negb (eqb_ci c d)) n = true ->
    forallb (fun c => negb (Ascii.eqb c d)) name = true.
Proof.
  induction n as [|x n IH]; intros [|y name] H Hn;
    try (unfold eqbI in H; cbn in H; discriminate); [reflexivity|].
  apply eqbI_cons in H. destruct H as [Hc H].
  cbn [forallb] in Hn |- *. apply andb_true_iff in Hn. destruct Hn as [Hx Hn].
  apply negb_true_iff in Hx.
  now rewrite (@eqb_ci_exact x y d Hc Hx), (IH name H Hn).
Qed.

Lemma split_first (d : ascii) (name v : jsstring) :
  forallb (fun c => negb (Ascii.eqb c d)) name = true ->
  hd [] (split d (name ++ d :: v)) = name.
Proof.
  induction name as [|y name IH]; intros H.
  - cbn [app split]. now rewrite Ascii.eqb_refl.
  - cbn [forallb] in H. apply andb_true_iff in H. destruct H as [Hy H].
    apply negb_true_iff in Hy. cbn [app split]. rewrite Hy.
    specialize (IH H). destruct (split d (name ++ d :: v)); cbn in *;
      now subst.
Qed.

Lemma skipn_exact (A : Type) (l1 l2 l : list A) :
  length l1 = length l -> skipn (length l) (l1 ++ l2) = l2.
Proof.
  intros H. rewrite <- H, skipn_app, skipn_all, Nat.sub_diag. reflexivity.
Qed.

Lemma rmatch_credential (sep : ascii) (name v rest : jsstring) prev :
  isSeparator sep = true ->
  isCredentialName name = true ->
  v <> [] -> forallb isValueChar v = true -> valueEnds rest = true ->
  rmatch pat_credential prev (sep :: name ++ "=" ++ v ++ rest) accept = Some rest.
Proof.
  intros Hsep Hname Hv Hall Hrest.
  destruct v as [|x v]; [contradiction|].
  cbn in Hall. apply andb_true_iff in Hall. destruct Hall as [Hx Hall].
  unfold pat_credential. cbn [seqs alts rmatch]. rewrite Hsep.
  rewrite !rmatch_litI.
  unfold isCredentialName, CREDENTIAL_NAMES in Hname. cbn [existsb] in Hname.
  repeat (apply orb_true_iff in Hname; destruct Hname as [Hname | Hname]);
    try discriminate;
    rewrite !(@startsWithI_congr _ name Hname);
    cbn [list_ascii_of_string app startsWithI];
    [> rewrite ?(@skipn_exact _ name _ _ (@eqbI_length _ name Hname));
       cbn -[isValueChar star prevAfter];
       rewrite Hx, (@star_greedy_run isValueChar v rest Hall Hrest);
       reflexivity ..].
Qed.

Lemma maskMatch_credential (sep : ascii) (name v : jsstring) :
  isSeparator sep = true ->
  isCredentialName name = true ->
  maskMatch (sep :: name ++ "=" ++ v) = sep :: name ++ "=***".
Proof.
  intros Hsep Hname. unfold maskMatch.
  assert (E : (if Ascii.eqb sep "?" then ("?" : jsstring) else ("&" : jsstring))
              = [sep]).
  { unfold isSeparator in Hsep. destruct (Ascii.eqb sep "?") eqn:E1.
    - apply Ascii.eqb_eq in E1. now subst.
    - cbn in Hsep. apply Ascii.eqb_eq in Hsep. now subst. }
  rewrite E. cbn [skipn].
  assert (Hn : forallb (fun c => negb (Ascii.eqb c "=")) name = true).
  { unfold isCredentialName, CREDENTIAL_NAMES in Hname.
    cbn [existsb] in Hname.
    repeat (apply orb_true_iff in Hname; destruct Hname as [Hname | Hname]);
      try discriminate;
      exact (@name_without "="%char _ name Hname eq_refl). }
  change (list_ascii_of_string "=" ++ v) with ("="%char :: v).
  now rewrite (@split_first "="%char name v Hn).
Qed.

Lemma sanitize_at_credential (sep : ascii) (name v rest : jsstring) prev :
  isSeparator sep = true ->
  isCredentialName name = true ->
  v <> [] -> forallb isValueChar v = true -> valueEnds rest = true ->
  replaceFrom pat_credential maskMatch prev 0
              (sep :: name ++ "=" ++ v ++ rest) =
  sep :: name ++ "=***" ++ replaceFrom pat_credential maskMatch None 0 rest.
Proof.
  intros Hsep Hname Hv Hall Hrest.
  cbn [replaceFrom]. unfold matchHere.
  rewrite (@rmatch_credential sep name v rest prev Hsep Hname Hv Hall Hrest).
  assert (Hs : name ++ "=" ++ v ++ rest = (name ++ "=" ++ v) ++ rest)
    by now rewrite !app_assoc.
  rewrite Hs.
  assert (Hlen : length (sep :: (name ++ "=" ++ v) ++ rest) - length rest
                 = S (length (name ++ "=" ++ v)))
    by (cbn [length]; rewrite length_app; lia).
  rewrite Hlen.
  cbn [firstn]. rewrite firstn_app, firstn_all, Nat.sub_diag. cbn [firstn].
  rewrite app_nil_r, (@maskMatch_credential sep name v Hsep Hname).
  rewrite replaceFrom_skip.
  rewrite (@replaceFrom_prev pat_credential maskMatch credential_anchorFree
             rest 0 _ None).
  cbn [app]. now rewrite <- app_assoc.
Qed.

(** A credential parameter met after text without [?] or [&] is masked:
    its name stays as it is written, its value becomes the mask, and the
    scan goes on with what follows. *)
Lemma sanitizeUrlInString_masks (pre name v rest : jsstring) (sep : ascii) :
  forallb (fun c => negb (isSeparator c)) pre = true ->
  isSeparator sep = true ->
  isCredentialName name = true ->
  v <> [] -> forallb isValueChar v = true -> valueEnds rest = true ->
  sanitizeUrlInString (pre ++ sep :: name ++ "=" ++ v ++ rest) =
  pre ++ sep :: name ++ "=***" ++ sanitizeUrlInString rest.
Proof.
  intros Hpre Hsep Hname Hv Hall Hrest.
  unfold sanitizeUrlInString, replaceAll.
  rewrite (@sanitize_plain pre _ Hpre).
  now rewrite (@sanitize_at_credential sep name v rest _ Hsep Hname Hv Hall Hrest).
Qed.

Lemma credential_stopped (c : ascii) :
  isValueChar c = false ->
  stoppedBy c
    (seqs [alts (litI "key")
                [litI "api_key"; litI "apikey"; litI "token";
                 litI "access_token"; litI "api-key"; litI "apikey"];
           litI "=";
           plus isValueChar]) = true.
Proof.
  intros H.
  destruct c as [b0 b1 b2 b3 b4 b5 b6 b7];
    destruct b0, b1, b2, b3, b4, b5, b6, b7;
    first [discriminate H | reflexivity].
Qed.

(** No match runs over a character which cannot belong to a value ([&] or
    white space): the text before it and the text from it on are sanitised
    independently. *)
Lemma sanitizeUrlInString_splits (a b : jsstring) (c : ascii) :
  isValueChar c = false ->
  sanitizeUrlInString (a ++ c :: b) =
  sanitizeUrlInString a ++ sanitizeUrlInString (c :: b).
Proof.
  intros Hc. unfold sanitizeUrlInString, replaceAll.
  change pat_credential
    with (Seq (Cls isSeparator)
              (seqs [alts (litI "key")
                          [litI "api_key"; litI "apikey"; litI "token";
                           litI "access_token"; litI "api-key"; litI "apikey"];
                     litI "=";
                     plus isValueChar])).
  rewrite (@replaceFrom_stopped c b isSeparator _ maskMatch
             (credential_stopped c Hc) a None 0 (Nat.le_0_l _)).
  reflexivity.
Qed.

Lemma stringsOf_indexedFrom (l : list JsValue) :
  forall i, flat_map (fun kv => stringsOf (snd kv)) (indexedFrom i l) =
            flat_map stringsOf l.
Proof.
  induction l as [|v l IH]; intros i; [reflexivity|].
  cbn. now rewrite IH.
Qed.

Lemma stringsOf_sanitize (v : JsValue) :
  stringsOf (sanitizeProperty v) = map sanitizeUrlInString (stringsOf v) /\
  stringsOf (sanitizeItem v) = map sanitizeUrlInString (stringsOf v).
Proof.
  induction v as [| | | | |items IH|fields IH] using JsValue_nested_ind;
    try (split; reflexivity).
  - assert (H : flat_map stringsOf (map sanitizeProperty items) =
                map sanitizeUrlInString (flat_map stringsOf items) /\
                flat_map stringsOf (map sanitizeItem items) =
                map sanitizeUrlInString (flat_map stringsOf items)).
    { induction IH as [|x l [Hx1 Hx2] _ [IH1 IH2]]; [split; reflexivity|].
      cbn [map flat_map]. rewrite map_app, Hx1, Hx2, IH1, IH2.
      split; reflexivity. }
    destruct H as [Hp Hi].
    split; cbn [sanitizeProperty sanitizeItem stringsOf].
    + exact Hi.
    + now rewrite stringsOf_indexedFrom.
  - assert (Hp : flat_map (fun kv => stringsOf (snd kv))
                   (map (fun kv => (fst kv, sanitizeProperty (snd kv))) fields) =
                 map sanitizeUrlInString
                     (flat_map (fun kv => stringsOf (snd kv)) fields)).
    { induction IH as [|x l [Hx _] _ IHl]; [reflexivity|].
      cbn [map flat_map snd fst]. now rewrite map_app, Hx, IHl. }
    split; cbn [sanitizeProperty sanitizeItem stringsOf]; exact Hp.
Qed.

Lemma stringsOf_sanitizeDetails (details : Details) :
  stringsOfDetails (sanitizeDetails details) =
  map sanitizeUrlInString (stringsOfDetails details).
Proof.
  unfold stringsOfDetails, sanitizeDetails.
  induction details as [|[k v] d IH]; [reflexivity|].
  cbn. rewrite map_app, IH. now rewrite (proj1 (stringsOf_sanitize v)).
Qed.

End SanitizeFacts.

(* ================================================================== *)
(** * Facts about the retry engine *)
(* ================================================================== *)

Module RetryFacts.
Import JsString Errors BaseAdapter.

Section Loop.
Variable T World : Type.
Variable operation : World -> (T + JsError) * World.
Variable wait : Z -> World -> World.

Lemma attempts_later_attempt a (r : Run T World) :
  attempts (runTrace (later (Attempt a) r)) = S (attempts (runTrace r)).
Proof. reflexivity. Qed.

Lemma attempts_later_backoff ms (r : Run T World) :
  attempts (runTrace (later (Backoff ms) r)) = attempts (runTrace r).
Proof. reflexivity. Qed.

Lemma retryLoop_attempts :
  forall turns maxRetries timeout attempt lastError w,
    attempts (runTrace (retryLoop operation wait turns maxRetries timeout attempt lastError w))
    <= turns.
Proof.
  induction turns as [|turns IH]; intros mr to a le w; [cbn; lia|].
  cbn [retryLoop]. rewrite attempts_later_attempt.
  destruct (operation w) as [[v|e] w']; [cbn; lia|].
  destruct (isAbortError e); [cbn; lia|].
  destruct (isNonRetryable e); [cbn; lia|].
  destruct (a =? mr)%Z; [cbn; lia|].
  rewrite attempts_later_backoff.
  specialize (IH mr to (a + 1)%Z (Some e) (wait (backoffTime a) w')). lia.
Qed.

Lemma retried_snoc (n : nat) :
  forall from,
    retried from (S n) =
    retried from n ++
    [Attempt (from + Z.of_nat n); Backoff (backoffTime (from + Z.of_nat n))].
Proof.
  induction n as [|n IH]; intros from.
  - cbn. now rewrite Z.add_0_r.
  - change (retried from (S (S n)))
      with (Attempt from :: Backoff (backoffTime from)
              :: retried (from + 1) (S n)).
    rewrite IH. cbn [retried app].
    replace (from + 1 + Z.of_nat n)%Z with (from + Z.of_nat (S n))%Z by lia.
    reflexivity.
Qed.

Lemma prepend_app (l1 l2 : list Event) (r : Run T World) :
  prepend l1 (prepend l2 r) = prepend (l1 ++ l2) r.
Proof. unfold prepend; cbn. now rewrite app_assoc. Qed.

(** After [k] retried failures the loop stands at attempt [k] with
    [turns - k] turns left, in the world [worldAt w k]. *)
Lemma retryLoop_retried (maxRetries timeout : Z) (w : World) :
  forall k,
    (Z.of_nat k <= maxRetries)%Z ->
    (forall i, i < k -> failsRetryably operation wait w i) ->
    exists lastError,
      retryLoop operation wait (Z.to_nat (maxRetries + 1)) maxRetries timeout 0 None w =
      prepend (retried 0 k)
              (retryLoop operation wait (Z.to_nat (maxRetries + 1) - k) maxRetries timeout
                    (Z.of_nat k) lastError
                    (worldAt operation wait w k)).
Proof.
  induction k as [|k IH]; intros Hk Hfail.
  - exists None. rewrite Nat.sub_0_r. unfold prepend.
    now destruct (retryLoop operation wait _ _ _ _ _ _) as [[r w'] t].
  - destruct IH as [le IH]; [lia|intros i Hi; apply Hfail; lia|].
    destruct (Hfail k) as [e [He Hr]]; [lia|].
    rewrite IH.
    replace (Z.to_nat (maxRetries + 1) - k)
      with (S (Z.to_nat (maxRetries + 1) - S k)) by lia.
    cbn [retryLoop].
    destruct (operation (worldAt operation wait w k)) as [o w'] eqn:Eo.
    cbn in He. subst o.
    unfold retryable in Hr. apply andb_true_iff in Hr.
    destruct Hr as [Ha Hn]. apply negb_true_iff in Ha, Hn.
    rewrite Ha, Hn.
    replace (Z.of_nat k =? maxRetries)%Z with false
      by (symmetry; apply Z.eqb_neq; lia).
    exists (Some e).
    rewrite retried_snoc.
    cbn [worldAt]. rewrite Eo. cbn [snd].
    replace (Z.of_nat k + 1)%Z with (Z.of_nat (S k)) by lia.
    rewrite Z.add_0_l.
    unfold prepend, later. cbn [fst snd].
    now rewrite <- app_assoc.
Qed.
End Loop.

End RetryFacts.

(* ================================================================== *)
(** * Facts about base64 *)
(* ================================================================== *)

Module Base64Facts.
Import JsString Base64.

Lemma sextets_check :
  forallb (fun i => match charSextet (sextetChar (N.of_nat i)) with
                    | Some n => N.eqb n (N.of_nat i)
                    | None => false
                    end && negb (Ascii.eqb (sextetChar (N.of_nat i)) pad))
          (seq 0 64) = true.
Proof. vm_compute. reflexivity. Qed.

Lemma sextet_roundtrip (n : N) :
  (n < 64)%N ->
  charSextet (sextetChar n) = Some n /\ Ascii.eqb (sextetChar n) pad = false.
Proof.
  intros Hn.
  pose proof (proj1 (forallb_forall _ _) sextets_check (N.to_nat n)) as H.
  cbv beta in H. rewrite N2Nat.id in H.
  assert (Hin : In (N.to_nat n) (seq 0 64)) by (apply in_seq; lia).
  specialize (H Hin). apply andb_true_iff in H. destruct H as [H1 H2].
  destruct (charSextet (sextetChar n)) as [m|]; [|discriminate].
  apply N.eqb_eq in H1. subst m. split; [reflexivity|].
  now apply negb_true_iff in H2.
Qed.

Lemma byte_bound (b : Byte.byte) : (Byte.to_N b < 256)%N.
Proof. pose proof (Byte.to_N_bounded b). lia. Qed.


Ltac euclid := zify; Z.to_euclidean_division_equations; lia.

Lemma group_bounds (n : N) :
    (n < 16777216 ->
     n / 262144 < 64 /\ (n / 4096) mod 64 < 64 /\
     (n / 64) mod 64 < 64 /\ n mod 64 < 64)%N.
  Proof. intros Hn. repeat split; euclid. Qed.

Lemma group_lt (a b c : Byte.byte) : (group a b c < 16777216)%N.
  Proof.
    unfold group. pose proof (byte_bound a). pose proof (byte_bound b).
    pose proof (byte_bound c). lia.
  Qed.

Lemma ungroup_group (n : N) :
    ungroup (n / 262144) ((n / 4096) mod 64) ((n / 64) mod 64) (n mod 64) = n.
  Proof. unfold ungroup. euclid. Qed.

Lemma group_bytes (a b c : Byte.byte) :
    Byte.of_N (group a b c / 65536) = Some a /\
    Byte.of_N ((group a b c / 256) mod 256) = Some b /\
    Byte.of_N (group a b c mod 256) = Some c.
  Proof.
    pose proof (byte_bound a). pose proof (byte_bound b).
    pose proof (byte_bound c).
    replace (group a b c / 65536)%N with (Byte.to_N a) by (unfold group; euclid).
    replace ((group a b c / 256) mod 256)%N with (Byte.to_N b)
      by (unfold group; euclid).
    replace (group a b c mod 256)%N with (Byte.to_N c) by (unfold group; euclid).
    rewrite !Byte.of_to_N. repeat split.
  Qed.

Lemma zero_to_N : Byte.to_N zero = 0%N.
Proof. reflexivity. Qed.

Lemma decode_three (a b c : Byte.byte) (rest : jsstring) :
  decode (encode [a; b; c] ++ rest) =
  obind (decode rest) (fun bytes => Some (a :: b :: c :: bytes)).
Proof.
  destruct (group_bounds (group_lt a b c)) as (H1 & H2 & H3 & H4).
  destruct (sextet_roundtrip H1) as [E1 _].
  destruct (sextet_roundtrip H2) as [E2 _].
  destruct (sextet_roundtrip H3) as [E3 _].
  destruct (sextet_roundtrip H4) as [E4 P4].
  destruct (group_bytes a b c) as (Ba & Bb & Bc).
  cbn [encode app decode].
  rewrite E1, E2, P4, E3, E4. cbn [obind].
  rewrite ungroup_group, Ba, Bb, Bc. reflexivity.
Qed.

Lemma decode_one (a : Byte.byte) : decode (encode [a]) = Some [a].
Proof.
  destruct (group_bounds (group_lt a zero zero)) as (H1 & H2 & _ & _).
  destruct (sextet_roundtrip H1) as [E1 _].
  destruct (sextet_roundtrip H2) as [E2 _].
  cbn [encode decode].
  rewrite E1, E2. cbn [obind]. rewrite Ascii.eqb_refl.
  replace (ungroup (group a zero zero / 262144)
                   ((group a zero zero / 4096) mod 64) 0 0 / 65536)%N
    with (Byte.to_N a).
  - now rewrite Byte.of_to_N.
  - pose proof (byte_bound a). unfold ungroup, group. rewrite zero_to_N. euclid.
Qed.

Lemma decode_two (a b : Byte.byte) : decode (encode [a; b]) = Some [a; b].
Proof.
  destruct (group_bounds (group_lt a b zero)) as (H1 & H2 & H3 & _).
  destruct (sextet_roundtrip H1) as [E1 _].
  destruct (sextet_roundtrip H2) as [E2 _].
  destruct (sextet_roundtrip H3) as [E3 P3].
  cbn [encode decode].
  rewrite E1, E2. cbn [obind]. rewrite Ascii.eqb_refl, P3, E3. cbn [obind].
  pose proof (byte_bound a). pose proof (byte_bound b).
  set (n := ungroup _ _ _ 0).
  replace (n / 65536)%N with (Byte.to_N a)
    by (subst n; unfold ungroup, group; rewrite zero_to_N; euclid).
  replace ((n / 256) mod 256)%N with (Byte.to_N b)
    by (subst n; unfold ungroup, group; rewrite zero_to_N; euclid).
  now rewrite !Byte.of_to_N.
Qed.

Lemma list_ind3 (A : Type) (P : list A -> Prop) :
  P [] -> (forall a, P [a]) -> (forall a b, P [a; b]) ->
  (forall a b c l, P l -> P (a :: b :: c :: l)) ->
  forall l, P l.
Proof.
  intros H0 H1 H2 H3.
  fix IH 1. intros [|a [|b [|c l]]].
  - exact H0.
  - apply H1.
  - apply H2.
  - apply H3, IH.
Qed.

Lemma encode_cons3 (a b c : Byte.byte) (rest : list Byte.byte) :
  encode (a :: b :: c :: rest) = encode [a; b; c] ++ encode rest.
Proof. cbn [encode app]. reflexivity. Qed.

(** Decoding what [encode] produced gives the bytes back. *)
Lemma decode_encode (bytes : list Byte.byte) :
  decode (encode bytes) = Some bytes.
Proof.
  induction bytes as [|a|a b|a b c rest IH] using list_ind3.
  - reflexivity.
  - apply decode_one.
  - apply decode_two.
  - rewrite encode_cons3, decode_three, IH. reflexivity.
Qed.

Lemma encode_nonempty (bytes : list Byte.byte) :
  bytes <> [] -> encode bytes <> [].
Proof.
  destruct bytes as [|a [|b [|c rest]]]; intros H; [contradiction| | |];
    cbn [encode app]; discriminate.
Qed.

End Base64Facts.

(* ================================================================== *)
(** * Facts about the image input normaliser *)
(* ================================================================== *)

Module ImageInputFacts.
Import JsString Regex Errors Base64 Logger ImageInput DataUrl.

Lemma lastIndexOfFrom_absent (c : ascii) (s : jsstring) :
  forallb (fun x => negb (Ascii.eqb x c)) s = true ->
  forall i found, lastIndexOfFrom c i found s = found.
Proof.
  induction s as [|x s IH]; intros Hs i found; [reflexivity|].
  cbn in Hs. apply andb_true_iff in Hs. destruct Hs as [Hx Hs].
  apply negb_true_iff in Hx. cbn [lastIndexOfFrom]. rewrite Hx.
  now apply IH.
Qed.

Lemma lastIndexOfFrom_last (c : ascii) (base rest : jsstring) :
  forallb (fun x => negb (Ascii.eqb x c)) rest = true ->
  forall i found,
    lastIndexOfFrom c i found (base ++ c :: rest) =
    (i + Z.of_nat (length base))%Z.
Proof.
  intros Hrest. induction base as [|x base IH]; intros i found.
  - cbn [app lastIndexOfFrom length]. rewrite Ascii.eqb_refl.
    rewrite (lastIndexOfFrom_absent c rest Hrest). cbn. lia.
  - cbn [app lastIndexOfFrom length]. rewrite IH. lia.
Qed.

Lemma lowerChar_dot (c : ascii) : lowerChar c = "."%char -> c = "."%char.
Proof.
  destruct c as [b0 b1 b2 b3 b4 b5 b6 b7];
    destruct b0, b1, b2, b3, b4, b5, b6, b7; intros H;
    first [reflexivity | discriminate H].
Qed.

Lemma lowered_without_dot (written : jsstring) :
  forallb (fun x => negb (Ascii.eqb x ".")) (toLowerCase written) = true ->
  forallb (fun x => negb (Ascii.eqb x ".")) written = true.
Proof.
  induction written as [|x written IH]; [reflexivity|].
  cbn [toLowerCase map forallb]. intros H.
  apply andb_true_iff in H. destruct H as [Hx H].
  rewrite (IH H), andb_true_r.
  destruct (Ascii.eqb x ".") eqn:E; [|reflexivity].
  apply Ascii.eqb_eq in E. subst x. exact Hx.
Qed.

Lemma extension_written (base written rest : jsstring) :
  toLowerCase written = "."%char :: rest ->
  forallb (fun x => negb (Ascii.eqb x ".")) rest = true ->
  substringFrom (lastIndexOf "." (base ++ written))
                (toLowerCase (base ++ written)) = "."%char :: rest.
Proof.
  intros Hlow Hrest.
  destruct written as [|d written]; [discriminate|].
  cbn [toLowerCase map] in Hlow. injection Hlow as Hd Hw.
  apply lowerChar_dot in Hd. subst d.
  assert (Hnd : forallb (fun x => negb (Ascii.eqb x ".")) written = true).
  { apply lowered_without_dot. unfold toLowerCase. now rewrite Hw. }
  unfold substringFrom, lastIndexOf, toLowerCase.
  rewrite (@lastIndexOfFrom_last "."%char base written Hnd 0%Z (-1)%Z).
  rewrite Z.add_0_l, Nat2Z.id, map_app.
  rewrite <- (length_map lowerChar base), skipn_app, skipn_all, Nat.sub_diag.
  cbn [app skipn map]. now rewrite Hw.
Qed.

Lemma getMimeTypeFromFileName_written (base written ext mime : jsstring) :
  toLowerCase written = ext ->
  In (ext, mime) EXT_TO_MIME_TYPE ->
  getMimeTypeFromFileName (base ++ written) = inl (MimeString mime).
Proof.
  intros Hlow Hin. revert Hlow. unfold getMimeTypeFromFileName.
  unfold EXT_TO_MIME_TYPE in Hin. cbn [In] in Hin.
  repeat (destruct Hin as [Hin | Hin]; [inversion Hin; subst ext mime; clear Hin|]);
    try contradiction; intros Hlow;
    (rewrite (@extension_written base written _ Hlow eq_refl); reflexivity).
Qed.

Lemma parseDataUrl_built (mime ext payload : jsstring) :
  In (ext, mime) EXT_TO_MIME_TYPE ->
  payload <> [] ->
  parseDataUrl ("data:" ++ mime ++ ";base64," ++ payload) =
  inl {| DataUrl.mimeType := mime; data := payload |}.
Proof.
  intros Hin Hp. destruct payload as [|p payload]; [contradiction|].
  unfold EXT_TO_MIME_TYPE in Hin. cbn [In] in Hin.
  repeat (destruct Hin as [Hin | Hin]; [inversion Hin; subst; clear Hin|]);
    try contradiction; vm_compute; reflexivity.
Qed.

Lemma split_without_separator (s : jsstring) :
  includes "," s = false -> length (split "," s) = 1.
Proof.
  induction s as [|c s IH]; intros H; [reflexivity|].
  change (includes "," (c :: s))
    with ((Ascii.eqb "," c && true) || includes "," s) in H.
  apply orb_false_iff in H. destruct H as [Hc Hs].
  rewrite andb_true_r, Ascii.eqb_sym in Hc.
  cbn [split]. rewrite Hc. specialize (IH Hs).
  destruct (split "," s) as [|x l]; [discriminate|exact IH].
Qed.

Section NormalizeFacts.
Variable parseURL : jsstring -> option URL.
Variable readFile : jsstring -> list Byte.byte + JsError.
Variable env : jsstring -> option jsstring.

Lemma normalizeLocalInput_supported (base written ext mime : jsstring)
      (bytes : list Byte.byte) :
  toLowerCase written = ext ->
  In (ext, mime) EXT_TO_MIME_TYPE ->
  readFile (base ++ written) = inl bytes ->
  bytes <> [] ->
  normalizeLocalInput readFile (base ++ written) =
  inl {| ImageInput.type := local;
         originalInput := base ++ written;
         dataUrl := "data:" ++ mime ++ ";base64," ++ Base64.encode bytes;
         ImageInput.mimeType := mime |}.
Proof.
  intros Hlow Hin Hread Hne. unfold normalizeLocalInput.
  rewrite Hread, (@getMimeTypeFromFileName_written base written ext mime
                    Hlow Hin).
  destruct bytes as [|b bytes]; [contradiction|]. reflexivity.
Qed.

Lemma getMimeTypeFromFileName_error (path : jsstring) (e : JsError) :
  getMimeTypeFromFileName path = inr e ->
  errorCode e = Some INVALID_INPUT /\
  hasSystemCode "ENOENT" e = false /\ hasSystemCode "EACCES" e = false /\
  exists ext,
    errorDetails e =
    Some [("filename" : jsstring, JString path);
          ("supportedExtensions" : jsstring, strings extensions)] /\
    errorMessage e = "Invalid input: Unsupported file extension: " ++ ext.
Proof.
  unfold getMimeTypeFromFileName.
  destruct (lookup _ EXT_TO_MIME_TYPE); [discriminate|].
  intros H; inversion H; subst; clear H.
  repeat split. eexists; split; reflexivity.
Qed.

Lemma normalizeLocalInput_unsupported (path : jsstring)
      (bytes : list Byte.byte) (e : JsError) :
  readFile path = inl bytes ->
  bytes <> [] ->
  getMimeTypeFromFileName path = inr e ->
  normalizeLocalInput readFile path =
  inr (ImageLoadError "Failed to read local file"
                      (Some [("path" : jsstring, JString path)]) (Some e)).
Proof.
  intros Hread Hne He. unfold normalizeLocalInput.
  destruct (getMimeTypeFromFileName_error path He) as (_ & H1 & H2 & _).
  rewrite Hread, He. destruct bytes as [|b bytes]; [contradiction|].
  cbn [length Nat.eqb]. now rewrite H1, H2.
Qed.

Lemma normalizeBase64Input_unsupported (input : jsstring) (e : JsError) :
  includes "," input = true ->
  length (split "," input) = 2 ->
  getMimeTypeFromDataUrl input = inr e ->
  normalizeBase64Input input =
  inr (ImageLoadError "Invalid base64 data URL"
                      (Some [("input" : jsstring, JString input)]) (Some e)).
Proof.
  intros Hc Hs He. unfold normalizeBase64Input.
  now rewrite Hc, Hs, He.
Qed.

Lemma normalizeUrlInput_no_extension (input : jsstring) (u : URL) :
  parseURL input = Some u ->
  startsWith "http" (protocol u) = true ->
  existsb (fun ext => endsWith ext (toLowerCase (pathname u))) extensions
  = false ->
  normalizeUrlInput parseURL input true =
  (inr (ImageLoadError
          "Failed to process URL input"
          (Some [("input" : jsstring, JString input)])
          (Some (InvalidInputError
                   ("URL does not have a supported image extension (allowed: "
                      ++ join ", " extensions ++ ")")
                   (Some [("url" : jsstring, JString input)]) None))), [])
  /\
  normalizeUrlInput parseURL input false =
  (inl {| ImageInput.type := url;
          originalInput := input;
          dataUrl := input;
          ImageInput.mimeType := "image/*" |},
   [ {| level := WARN;
        message := "URL does not appear to point to an image file" |};
     {| level := WARN;
        message :=
          "Set VISION_STRICT_URL_VALIDATION=true to enforce strict validation" |} ]).
Proof.
  intros Hu Hp He. unfold normalizeUrlInput, isImageUrl.
  rewrite Hu, Hp, He. split; reflexivity.
Qed.

End NormalizeFacts.

End ImageInputFacts.

(* ================================================================== *)
(** * The properties *)
(* ================================================================== *)

Import JsString Regex Errors ThinkingFilter BaseAdapter Logger.
Import RegexFacts FilterFacts SanitizeFacts RetryFacts Base64Facts.
Import ImageInputFacts Examples.

(** ** Thinking-content filter *)

(** The entry point runs [stripThinking] on what the extractor of the model
    type returns. *)
Lemma filterThinkingContent_stripThinking
      (Raw : Type)
      (extractors : jsstring -> option (Raw -> ModelResponseEnvelope))
      (fallback : Raw -> ModelResponseEnvelope)
      (rawResponse : Raw) (modelType : jsstring) :
  truthy modelType = true ->
  filterThinkingContent extractors fallback rawResponse modelType =
  inl (stripThinking (extractorFor extractors fallback modelType rawResponse)).
Proof.
  intros H. unfold filterThinkingContent. now rewrite H.
Qed.

(** The result is the stripped content or nothing; the text of the
    reasoning and thinking fields is never read. *)
Lemma stripThinking_cases (envelope : ModelResponseEnvelope) :
  stripThinking envelope = [] \/
  stripThinking envelope = stripThinkingPatterns (content envelope).
Proof.
  unfold stripThinking.
  destruct ((length (stripThinkingPatterns (content envelope)) <? 10)%nat &&
            (truthyOpt (reasoning envelope) || truthyOpt (thinking envelope)));
    [left | right]; reflexivity.
Qed.

Example strip_other_blocks :
  stripThinkingPatterns "<THINKING>plan</Thinking>" = [] /\
  stripThinkingPatterns "<<analysis>>plan<<analysis>>" = [] /\
  stripThinkingPatterns "```reasoning plan```" = [] /\
  stripThinkingPatterns "[thinking]plan[/thinking]" = [] /\
  stripThinkingPatterns "Reasoning: the sky is blue" = [].
Proof. repeat split; vm_compute; reflexivity. Qed.

(** Nested markers.  The lazy match ends at the first closing tag, and what
    stands between that tag and the outer one stays; a block which only
    appears once an inner block is gone is taken by the next turn of the
    loop on the same pattern. *)
Example strip_nested_blocks :
  stripThinkingPatterns
    "<thinking>a<thinking>b</thinking>c</thinking>A cat on a mat" =
  "cA cat on a mat" /\
  stripThinkingPatterns
    "<thin<thinking>x</thinking>king>hidden</thinking>A cat on a mat" =
  "A cat on a mat".
Proof. split; vm_compute; reflexivity. Qed.

(** C1, as stated, fails: a reasoning field does occur in the returned text
    when the visible content repeats it outside any marker.  Here the
    reasoning field is "I see two cats." and the returned text is the whole
    content, which contains it. *)
Lemma C1_reasoning_repeated_in_content :
  reasoning echoedReasoning = Some ("I see two cats." : jsstring) /\
  stripThinking echoedReasoning = "I see two cats. The answer is two cats." /\
  includes "I see two cats." (stripThinking echoedReasoning) = true.
Proof. repeat split; vm_compute; reflexivity. Qed.

(** C2.  When fewer than 10 characters are left after stripping and the
    envelope has a non-empty reasoning or thinking field, the result is the
    empty string. *)
Theorem C2_fail_closed :
  forall envelope : ModelResponseEnvelope,
    length (stripThinkingPatterns (content envelope)) < 10 ->
    truthyOpt (reasoning envelope) = true \/
    truthyOpt (thinking envelope) = true ->
    stripThinking envelope = [].
Proof.
  intros envelope Hshort Hfield. unfold stripThinking.
  apply Nat.ltb_lt in Hshort. rewrite Hshort.
  destruct Hfield as [H | H]; rewrite H; [reflexivity|].
  now rewrite orb_true_r.
Qed.

Lemma C2_fail_closed_witness : stripThinking shortWithReasoning = [].
Proof.
  apply C2_fail_closed.
  - vm_compute. repeat constructor.
  - left. reflexivity.
Defined.

(** ** Sanitisation of error details *)

Example sanitize_mixed_case :
  sanitizeUrlInString "GET https://h/p?x=1&API_KEY=abc&Token=t-1 failed" =
  "GET https://h/p?x=1&API_KEY=***&Token=*** failed".
Proof. vm_compute. reflexivity. Qed.

Example sanitize_nested :
  stringsOfDetails (sanitizeDetails nestedDetails) =
  [("https://x/y?api_key=***" : jsstring);
   ("https://a/b?key=***&alt=json" : jsstring);
   ("https://c/d?x=1&token=***" : jsstring);
   ("https://e/f?access_token=***" : jsstring)].
Proof. vm_compute. reflexivity. Qed.

(** C3.  The details given to an upstream-API error are stored sanitised:
    every string of the record, at any depth of nested records and arrays,
    goes through [sanitizeUrlInString].  There, a credential parameter (a
    name of the pattern's list in any case, after [?] or [&], with a
    non-empty value) met after text without [?] and [&] keeps its separator
    and its name as written and has its value replaced by the mask; text is
    sanitised independently on either side of a character that cannot
    belong to a value ([&] or white space), so this holds for each
    parameter of a query string; and "https://x/y?api_key=SECRET123"
    becomes "https://x/y?api_key=***". *)
Theorem C3_details_sanitized :
  forall (message : jsstring) (details : Details) (cause : option JsError)
         (pre name value rest before after : jsstring) (sep stop : ascii),
    forallb (fun c => negb (isSeparator c)) pre = true ->
    isSeparator sep = true ->
    isCredentialName name = true ->
    value <> [] ->
    forallb isValueChar value = true ->
    valueEnds rest = true ->
    isValueChar stop = false ->
    errorDetails (ModelAPIError message (Some details) cause) =
    Some (sanitizeDetails details) /\
    stringsOfDetails (sanitizeDetails details) =
    map sanitizeUrlInString (stringsOfDetails details) /\
    sanitizeUrlInString (pre ++ sep :: name ++ "=" ++ value ++ rest) =
    pre ++ sep :: name ++ "=***" ++ sanitizeUrlInString rest /\
    sanitizeUrlInString (before ++ stop :: after) =
    sanitizeUrlInString before ++ sanitizeUrlInString (stop :: after) /\
    sanitizeUrlInString "https://x/y?api_key=SECRET123" =
    "https://x/y?api_key=***".
Proof.
  intros message details cause pre name value rest before after sep stop
         Hpre Hsep Hname Hvalue Hchars Hrest Hstop.
  split; [reflexivity|]. split; [apply stringsOf_sanitizeDetails|].
  split; [now apply sanitizeUrlInString_masks|].
  split; [now apply sanitizeUrlInString_splits|].
  vm_compute. reflexivity.
Qed.

Lemma C3_details_sanitized_witness :
  stringsOfDetails (sanitizeDetails nestedDetails) =
  map sanitizeUrlInString (stringsOfDetails nestedDetails) /\
  sanitizeUrlInString
    ("https://x/y" ++ "?"%char :: "API_Key" ++ "=" ++ "SECRET123" ++ "&v=1") =
  "https://x/y" ++ "?"%char :: "API_Key" ++ "=***" ++
  sanitizeUrlInString "&v=1" /\
  sanitizeUrlInString ("https://x/y?token=T1" ++ "&"%char :: "v=1") =
  sanitizeUrlInString "https://x/y?token=T1" ++
  sanitizeUrlInString ("&"%char :: "v=1").
Proof.
  assert (Hvalue : ("SECRET123" : jsstring) <> []) by discriminate.
  pose proof (@C3_details_sanitized
                "Rate limit exceeded" nestedDetails None
                "https://x/y" "API_Key" "SECRET123" "&v=1"
                "https://x/y?token=T1" "v=1" "?"%char "&"%char
                eq_refl eq_refl eq_refl Hvalue eq_refl eq_refl eq_refl) as H.
  exact (conj (proj1 (proj2 H))
              (conj (proj1 (proj2 (proj2 H)))
                    (proj1 (proj2 (proj2 (proj2 H)))))).
Defined.

(** ** Retry engine *)

Section RetryContract.
Variable T World : Type.
Variable operation : World -> (T + JsError) * World.
Variable wait : Z -> World -> World.
Variable adapter config : RetryConfig.
Variable w : World.

Lemma withRetry_retried (k : nat) :
  (Z.of_nat k <= effectiveMaxRetries adapter config)%Z ->
  (forall i, i < k -> failsRetryably operation wait w i) ->
  exists lastError turns,
    withRetry operation wait adapter config w =
    prepend (retried 0 k)
            (retryLoop operation wait (S turns)
                       (effectiveMaxRetries adapter config)
                       (effectiveTimeout adapter config)
                       (Z.of_nat k) lastError
                       (worldAt operation wait w k)).
Proof.
  intros Hk Hfail. unfold withRetry.
  destruct (@retryLoop_retried T World operation wait
              (effectiveMaxRetries adapter config)
              (effectiveTimeout adapter config) w k Hk Hfail) as [le H].
  exists le, (Z.to_nat (effectiveMaxRetries adapter config + 1) - S k).
  rewrite H. f_equal. f_equal. lia.
Qed.

Lemma nonRetryable_status (code : VisionMCPErrorCode) (message : jsstring)
      (details : Details) (cause : option JsError) (status : Z) :
  getField "status" details = JNumber status ->
  In status NON_RETRYABLE_STATUS_CODES ->
  isNonRetryable
    (VisionMCPError ModelAPIErrorC code message (Some details) cause) = true.
Proof.
  intros Hs Hin. cbn [isNonRetryable]. rewrite Hs.
  unfold NON_RETRYABLE_STATUS_CODES in *. cbn [In] in Hin.
  repeat (destruct Hin as [<- | Hin]); try contradiction; reflexivity.
Qed.

Lemma specified_retries :
  (maxRetries config = None -> maxRetries adapter <> Some 0%Z) ->
  effectiveMaxRetries adapter config = specifiedMaxRetries adapter config.
Proof.
  unfold effectiveMaxRetries, specifiedMaxRetries, destructured, orDefault.
  destruct (maxRetries config) as [perCall|]; [reflexivity|].
  destruct (maxRetries adapter) as [setting|]; [|reflexivity].
  intros H. destruct (Z.eqb_spec setting 0) as [->|]; [|reflexivity].
  now destruct (H eq_refl).
Qed.

End RetryContract.

(** The [maxRetries] of the engine is the per-call override, else the
    setting of the adapter, else 2; [||] also replaces a setting of 0. *)
Example effective_settings :
  effectiveMaxRetries noOverride noOverride = 2%Z /\
  effectiveMaxRetries
    {| maxRetries := Some 5%Z; timeout := None |} noOverride = 5%Z /\
  effectiveMaxRetries
    twoRetries {| maxRetries := Some 0%Z; timeout := None |} = 0%Z /\
  effectiveMaxRetries
    {| maxRetries := Some 0%Z; timeout := None |} noOverride = 2%Z /\
  effectiveTimeout noOverride noOverride = 60000%Z.
Proof. repeat split. Qed.

Example backoff_schedule :
  map backoffTime [0; 1; 2; 3; 4]%Z = [1000; 2000; 4000; 5000; 5000]%Z.
Proof. reflexivity. Qed.

(** Three failed attempts with two retries allowed: two waits, then the
    aggregated upstream-API error with the details of the last failure. *)
Example retries_exhausted :
  withRetry (fun calls : nat => (inr serverError : jsstring + JsError, S calls))
            noWait twoRetries noOverride 0 =
  (inr (ModelAPIError
          "Failed after 3 attempts"
          (Some [("status" : jsstring, JNumber 503);
                 ("lastError" : jsstring,
                  JString
                    "Model API error: API request failed: 503 Service Unavailable")])
          None),
   3, [Attempt 0; Backoff 1000; Attempt 1; Backoff 2000; Attempt 2]).
Proof. vm_compute. reflexivity. Qed.

(** C4, as stated, fails: a timeout is a failure other than a 400, 401, 403
    or 404, and it is not followed by a wait and another attempt.  With two
    retries allowed, the first attempt fails on a dropped connection and is
    retried after 1000 ms; the second attempt (not the final one) runs into
    its deadline, and the engine stops there, although a third attempt
    would have answered. *)
Lemma C4_timeout_not_retried :
  withRetry dropsThenTimesOut noWait twoRetries noOverride 0 =
  (inr (TimeoutError "Request timed out after 60000ms" None None), 2,
   [Attempt 0; Backoff 1000; Attempt 1]) /\
  fst (dropsThenTimesOut 2) = inl ("A cat" : jsstring).
Proof. split; vm_compute; reflexivity. Qed.

(** C4, amended.  With [maxRetries] the number of retries asked for (the
    setting given with the call, else the setting of the adapter, else 2),
    and unless that number is a 0 set on the adapter without a setting for
    the call: the engine makes at most [maxRetries + 1] attempts; an
    upstream-API error with status 400, 401, 403 or 404 on the first
    attempt is rethrown after that one attempt; while the attempts fail
    with errors which are neither such an error nor a timeout, each failure
    before the final attempt is followed by a wait of
    [min(1000 * 2^attempt, 5000)] ms ([attempt] counted from 0) and by the
    next attempt; and when the attempt after [k <= maxRetries] such
    failures succeeds, its value is returned. *)
Theorem C4_retry_contract :
  forall (T World : Type) (operation : World -> (T + JsError) * World)
         (wait : Z -> World -> World) (adapter config : RetryConfig)
         (w : World),
    let maxRetries := specifiedMaxRetries adapter config in
    let run := withRetry operation wait adapter config w in
    (BaseAdapter.maxRetries config = None ->
     BaseAdapter.maxRetries adapter <> Some 0%Z) ->
    attempts (runTrace run) <= Z.to_nat (maxRetries + 1) /\
    (forall code message details cause status w',
        (0 <= maxRetries)%Z ->
        operation w =
        (inr (VisionMCPError ModelAPIErrorC code message (Some details) cause),
         w') ->
        getField "status" details = JNumber status ->
        In status NON_RETRYABLE_STATUS_CODES ->
        run =
        (inr (VisionMCPError ModelAPIErrorC code message (Some details) cause),
         w', [Attempt 0])) /\
    (forall k : nat,
        (Z.of_nat k <= maxRetries)%Z ->
        (forall i, i < k -> failsRetryably operation wait w i) ->
        (exists rest,
            runTrace run = retried 0 k ++ Attempt (Z.of_nat k) :: rest) /\
        (forall value,
            fst (operation (worldAt operation wait w k)) = inl value ->
            runResult run = inl value /\
            runTrace run = retried 0 k ++ [Attempt (Z.of_nat k)])).
Proof.
  intros T World operation wait adapter config w maxRetries run Hset.
  pose proof (@specified_retries adapter config Hset) as Hsame.
  fold maxRetries in Hsame. clearbody maxRetries.
  split; [|split].
  - rewrite <- Hsame. apply retryLoop_attempts.
  - intros code message details cause status w' Hmax Hop Hs Hin.
    subst run. unfold withRetry. rewrite Hsame.
    replace (Z.to_nat (maxRetries + 1)) with (S (Z.to_nat maxRetries)) by lia.
    cbn [retryLoop]. rewrite Hop.
    rewrite (nonRetryable_status code message details cause Hs Hin).
    reflexivity.
  - intros k Hk Hfail. rewrite <- Hsame in Hk.
    destruct (@withRetry_retried T World operation wait adapter config w k
                Hk Hfail) as (le & turns & H).
    subst run. rewrite H. cbn [retryLoop]. split.
    + eexists. unfold runTrace, prepend, later. cbn [snd]. reflexivity.
    + intros value Hv.
      destruct (operation (worldAt operation wait w k)) as [o w'].
      cbn in Hv. subst o. split; reflexivity.
Qed.

Lemma C4_retry_contract_witness :
  runResult (withRetry failsOnce noWait twoRetries noOverride 0)
  = inl ("A cat" : jsstring) /\
  runTrace (withRetry failsOnce noWait twoRetries noOverride 0)
  = retried 0 1 ++ [Attempt 1] /\
  withRetry rejectsKey noWait twoRetries noOverride 0
  = (inr unauthorized, 1, [Attempt 0]).
Proof.
  assert (Hk : (Z.of_nat 1 <= specifiedMaxRetries twoRetries noOverride)%Z)
    by (vm_compute; discriminate).
  assert (Hfail : forall i, i < 1 -> failsRetryably failsOnce noWait 0 i).
  { intros i Hi. assert (i = 0) by lia. subst i.
    exists serverError. split; reflexivity. }
  assert (Hmax : (0 <= specifiedMaxRetries twoRetries noOverride)%Z)
    by (vm_compute; discriminate).
  assert (Hin : In 401%Z NON_RETRYABLE_STATUS_CODES)
    by (right; left; reflexivity).
  assert (Hset : BaseAdapter.maxRetries noOverride = None ->
                 BaseAdapter.maxRetries twoRetries <> Some 0%Z)
    by (intros _; discriminate).
  pose proof (proj2 (proj2 (proj2
                (@C4_retry_contract jsstring nat failsOnce noWait
                                    twoRetries noOverride 0 Hset)) 1 Hk Hfail)
                "A cat" eq_refl) as Hok.
  pose proof (proj1 (proj2
                (@C4_retry_contract jsstring nat rejectsKey noWait
                                    twoRetries noOverride 0 Hset))
                MODEL_API_ERROR
                ("Model API error: API request failed: 401 Unauthorized"
                 : jsstring)
                [("status" : jsstring, JNumber 401)] None 401%Z 1
                Hmax eq_refl eq_refl Hin) as Hrejected.
  exact (conj (proj1 Hok) (conj (proj2 Hok) Hrejected)).
Defined.

(** C5, as stated, fails: with two retries allowed, a timeout on the first
    attempt ends the run with a Timeout failure; the two remaining attempts
    are not made, although the second one would have answered. *)
Lemma C5_timeout_on_first_attempt :
  withRetry timesOutFirst noWait twoRetries noOverride 0 =
  (inr (TimeoutError "Request timed out after 60000ms" None None), 1,
   [Attempt 0]) /\
  fst (timesOutFirst 1) = inl ("A cat" : jsstring).
Proof. split; vm_compute; reflexivity. Qed.

(** C5, amended.  A timeout is never retried: when an attempt, final or
    not, is cancelled by its deadline (after [k <= maxRetries] retried
    failures), the engine fails at once with a Timeout failure and makes no
    further attempt. *)
Theorem C5_timeout_ends_run :
  forall (T World : Type) (operation : World -> (T + JsError) * World)
         (wait : Z -> World -> World) (adapter config : RetryConfig)
         (w : World) (k : nat) (error : JsError),
    let run := withRetry operation wait adapter config w in
    (Z.of_nat k <= effectiveMaxRetries adapter config)%Z ->
    (forall i, i < k -> failsRetryably operation wait w i) ->
    fst (operation (worldAt operation wait w k)) = inr error ->
    isAbortError error = true ->
    runResult run =
    inr (TimeoutError
           ("Request timed out after " ++
            numberToString (effectiveTimeout adapter config) ++ "ms")
           None None) /\
    runTrace run = retried 0 k ++ [Attempt (Z.of_nat k)].
Proof.
  intros T World operation wait adapter config w k error run
         Hk Hfail Herr Habort.
  destruct (@withRetry_retried T World operation wait adapter config w k
              Hk Hfail) as (le & turns & H).
  subst run. rewrite H. cbn [retryLoop].
  destruct (operation (worldAt operation wait w k)) as [o w'].
  cbn in Herr. subst o. rewrite Habort. split; reflexivity.
Qed.

Lemma C5_timeout_ends_run_witness :
  runResult (withRetry dropsThenTimesOut noWait twoRetries noOverride 0) =
  inr (TimeoutError
         ("Request timed out after " ++
          numberToString (effectiveTimeout twoRetries noOverride) ++ "ms")
         None None) /\
  runTrace (withRetry dropsThenTimesOut noWait twoRetries noOverride 0) =
  retried 0 1 ++ [Attempt 1].
Proof.
  assert (Hk : (Z.of_nat 1 <= effectiveMaxRetries twoRetries noOverride)%Z)
    by (vm_compute; discriminate).
  assert (Hfail : forall i,
             i < 1 -> failsRetryably dropsThenTimesOut noWait 0 i).
  { intros i Hi. assert (i = 0) by lia. subst i.
    exists (OtherError "Error" "socket hang up"). split; reflexivity. }
  exact (@C5_timeout_ends_run jsstring nat dropsThenTimesOut noWait
           twoRetries noOverride 0 1 (AbortError "This operation was aborted")
           Hk Hfail eq_refl eq_refl).
Defined.

(** ** Image input normalisation *)

Import ImageInput.

(** C6, what the sources do.  For an http(s) URL whose path has none of the
    allowed extensions: without strict validation the URL is returned as
    the canonical form, with two warnings; with strict validation (the
    default) [normalizeUrlInput] throws its [InvalidInputError] inside its
    own [try] block, whose [catch] wraps every error but a [TypeError] in an
    [ImageLoadError]: the caller sees the kind IMAGE_LOAD_ERROR, and the
    invalid-input error only as its cause. *)
Theorem C6_url_without_extension :
  forall (parseURL : jsstring -> option URL)
         (readFile : jsstring -> list Byte.byte + JsError)
         (env : jsstring -> option jsstring)
         (input : jsstring) (u : URL),
    detectInputType input = url ->
    parseURL input = Some u ->
    startsWith "http" (protocol u) = true ->
    existsb (fun ext => endsWith ext (toLowerCase (pathname u))) extensions
    = false ->
    (strictValidation env = false ->
     normalizeImageInput parseURL readFile env input =
     (inl {| ImageInput.type := url;
             originalInput := input;
             dataUrl := input;
             mimeType := "image/*" |},
      [ {| level := WARN;
           message := "URL does not appear to point to an image file" |};
        {| level := WARN;
           message :=
             "Set VISION_STRICT_URL_VALIDATION=true to enforce strict validation" |} ])) /\
    (strictValidation env = true ->
     exists thrown,
       normalizeImageInput parseURL readFile env input = (inr thrown, []) /\
       errorCode thrown = Some IMAGE_LOAD_ERROR /\
       thrown =
       ImageLoadError
         "Failed to process URL input"
         (Some [("input" : jsstring, JString input)])
         (Some (InvalidInputError
                  ("URL does not have a supported image extension (allowed: "
                     ++ join ", " extensions ++ ")")
                  (Some [("url" : jsstring, JString input)]) None))).
Proof.
  intros parseURL readFile env input u Htype Hu Hp He.
  destruct (@normalizeUrlInput_no_extension parseURL input u Hu Hp He)
    as [Hstrict Hlenient].
  split; intros Hs; unfold normalizeImageInput; rewrite Htype, Hs.
  - rewrite Hlenient. reflexivity.
  - rewrite Hstrict. eexists. repeat split.
Qed.

Lemma C6_url_without_extension_witness :
  normalizeImageInput simpleURL twoFiles lenientEnv "https://example.com/photo"
  = (inl {| ImageInput.type := url;
            originalInput := "https://example.com/photo";
            dataUrl := "https://example.com/photo";
            mimeType := "image/*" |},
     [ {| level := WARN;
          message := "URL does not appear to point to an image file" |};
       {| level := WARN;
          message :=
            "Set VISION_STRICT_URL_VALIDATION=true to enforce strict validation" |} ])
  /\
  exists thrown,
    normalizeImageInput simpleURL twoFiles noEnv "https://example.com/photo"
    = (inr thrown, []) /\
    errorCode thrown = Some IMAGE_LOAD_ERROR.
Proof.
  split.
  - exact (proj1 (@C6_url_without_extension
                    simpleURL twoFiles lenientEnv "https://example.com/photo"
                    {| protocol := "https:"; pathname := "/photo" |}
                    eq_refl eq_refl eq_refl eq_refl) eq_refl).
  - destruct (proj2 (@C6_url_without_extension
                       simpleURL twoFiles noEnv "https://example.com/photo"
                       {| protocol := "https:"; pathname := "/photo" |}
                       eq_refl eq_refl eq_refl eq_refl) eq_refl)
      as (thrown & H1 & H2 & _).
    exists thrown. split; assumption.
Defined.

(** C7, what the sources do.  A local file (readable, not empty) for whose
    extension the lookup in the table gives [undefined], and a data URL
    (one comma) whose MIME type is outside the list, do not fail with the
    [InvalidInputError] which names the allowed set: that error is thrown
    inside a [try] block whose [catch] wraps it in an [ImageLoadError] with
    the path or the input as its only detail.  And a local file whose name
    is, in lower case, [constructor] or [__proto__] does not fail at all:
    the table is a plain object, the lookup finds the value inherited from
    [Object.prototype], and the result carries that value as its MIME
    type. *)
Theorem C7_unsupported_type_is_wrapped :
  forall (parseURL : jsstring -> option URL)
         (readFile : jsstring -> list Byte.byte + JsError)
         (env : jsstring -> option jsstring)
         (path : jsstring) (bytes : list Byte.byte)
         (input : jsstring) (unsupported : JsError)
         (inherited : MimeValue),
    (detectInputType path = local ->
     readFile path = inl bytes ->
     bytes <> [] ->
     lookup (substringFrom (lastIndexOf "." path) (toLowerCase path))
            EXT_TO_MIME_TYPE = None ->
     normalizeImageInput parseURL readFile env path =
     (inr (ImageLoadError
             "Failed to read local file"
             (Some [("path" : jsstring, JString path)])
             (Some (InvalidInputError
                      ("Unsupported file extension: " ++
                       substringFrom (lastIndexOf "." path) (toLowerCase path))
                      (Some [("filename" : jsstring, JString path);
                             ("supportedExtensions" : jsstring,
                              strings extensions)])
                      None))), [])) /\
    (detectInputType input = base64 ->
     length (split "," input) = 2 ->
     getMimeTypeFromDataUrl input = inr unsupported ->
     normalizeImageInput parseURL readFile env input =
     (inr (ImageLoadError
             "Invalid base64 data URL"
             (Some [("input" : jsstring, JString input)])
             (Some unsupported)), [])) /\
    (detectInputType path = local ->
     readFile path = inl bytes ->
     bytes <> [] ->
     In (toLowerCase path, inherited)
        [("constructor" : jsstring, ObjectFunction);
         ("__proto__" : jsstring, ObjectPrototype)] ->
     normalizeImageInput parseURL readFile env path =
     (inl {| ImageInput.type := local;
             originalInput := path;
             dataUrl := "data:" ++ mimeText inherited ++ ";base64," ++
                        Base64.encode bytes;
             mimeType := inherited |}, [])).
Proof.
  intros parseURL readFile env path bytes input unsupported inherited.
  split; [|split].
  - intros Htype Hread Hne Hext. unfold normalizeImageInput. rewrite Htype.
    rewrite (@normalizeLocalInput_unsupported readFile path bytes
               (InvalidInputError
                  ("Unsupported file extension: " ++
                   substringFrom (lastIndexOf "." path) (toLowerCase path))
                  (Some [("filename" : jsstring, JString path);
                         ("supportedExtensions" : jsstring,
                          strings extensions)])
                  None) Hread Hne).
    + reflexivity.
    + unfold getMimeTypeFromFileName. now rewrite Hext.
  - intros Htype Hsplit Hmime. unfold normalizeImageInput. rewrite Htype.
    assert (Hcomma : includes "," input = true).
    { destruct (includes "," input) eqn:E; [reflexivity|].
      rewrite (split_without_separator input E) in Hsplit. discriminate. }
    rewrite (@normalizeBase64Input_unsupported input unsupported
               Hcomma Hsplit Hmime).
    reflexivity.
  - intros Htype Hread Hne Hin. unfold normalizeImageInput. rewrite Htype.
    unfold silent, normalizeLocalInput. rewrite Hread.
    destruct bytes as [|b bytes]; [contradiction|]. cbn [length Nat.eqb].
    assert (Hm : getMimeTypeFromFileName path = inl inherited).
    { assert (Hdot : forallb (fun x => negb (Ascii.eqb x ".")) path = true).
      { apply lowered_without_dot. cbn [In] in Hin.
        destruct Hin as [H|[H|[]]]; injection H as <- _; reflexivity. }
      unfold getMimeTypeFromFileName, lastIndexOf.
      rewrite (@lastIndexOfFrom_absent "."%char path Hdot 0%Z (-1)%Z).
      change (substringFrom (-1) (toLowerCase path))
        with (toLowerCase path).
      cbn [In] in Hin.
      destruct Hin as [H|[H|[]]]; injection H as <- <-; reflexivity. }
    now rewrite Hm.
Qed.

Lemma C7_unsupported_type_is_wrapped_witness :
  (exists thrown,
      normalizeImageInput simpleURL twoFiles noEnv "/tmp/cat.gif"
      = (inr thrown, []) /\
      errorCode thrown = Some IMAGE_LOAD_ERROR /\
      errorDetails thrown = Some [("path" : jsstring, JString "/tmp/cat.gif")]) /\
  (exists thrown,
      normalizeImageInput simpleURL twoFiles noEnv "data:image/gif;base64,AAAA"
      = (inr thrown, []) /\
      errorCode thrown = Some IMAGE_LOAD_ERROR /\
      errorDetails thrown =
      Some [("input" : jsstring, JString "data:image/gif;base64,AAAA")]) /\
  normalizeImageInput simpleURL oneFile noEnv "Constructor" =
  (inl {| ImageInput.type := local;
          originalInput := "Constructor";
          dataUrl := "data:" ++ mimeText ObjectFunction ++ ";base64," ++
                     Base64.encode fourBytes;
          mimeType := ObjectFunction |}, []).
Proof.
  split; [|split].
  - eexists. split; [|split].
    + exact (proj1 (@C7_unsupported_type_is_wrapped
                      simpleURL twoFiles noEnv "/tmp/cat.gif" fourBytes
                      [] (TypeError []) ObjectFunction)
                   eq_refl eq_refl ltac:(discriminate) eq_refl).
    + reflexivity.
    + reflexivity.
  - eexists. split; [|split].
    + exact (proj1 (proj2 (@C7_unsupported_type_is_wrapped
                             simpleURL twoFiles noEnv [] []
                             "data:image/gif;base64,AAAA"
                             (InvalidInputError
                                "Unsupported image MIME type: image/gif"
                                (Some [("supportedTypes" : jsstring,
                                        strings SUPPORTED_MIME_TYPES)])
                                None) ObjectFunction))
                   eq_refl eq_refl eq_refl).
    + reflexivity.
    + reflexivity.
  - exact (proj2 (proj2 (@C7_unsupported_type_is_wrapped
                           simpleURL oneFile noEnv "Constructor" fourBytes
                           [] (TypeError []) ObjectFunction))
                 eq_refl eq_refl ltac:(discriminate)
                 (or_introl eq_refl)).
Defined.

(** C9.  An input which starts with neither http:// nor https:// and is not
    a data URL (starting with data:image/ and containing ;base64,) is
    classified as a local path. *)
Theorem C9_other_inputs_are_local :
  forall input : jsstring,
    startsWith "http://" input = false ->
    startsWith "https://" input = false ->
    startsWith "data:image/" input && includes ";base64," input = false ->
    detectInputType input = local.
Proof.
  intros input Hhttp Hhttps Hdata. unfold detectInputType.
  now rewrite Hdata, Hhttp, Hhttps.
Qed.

Lemma C9_other_inputs_are_local_witness :
  detectInputType "/tmp/cat.png" = local /\
  detectInputType "data:image/png,AAAA" = local.
Proof.
  split; apply C9_other_inputs_are_local; reflexivity.
Defined.

(** ** Configuration loader *)

Import ModelConfig.



(* ================================================================== *)
(** * Further facts about the retry engine *)
(* ================================================================== *)

Module RetryTraceFacts.
Import JsString Errors BaseAdapter RegexFacts.

Lemma backoffTime_bounds (attempt : Z) :
  (0 <= attempt -> 1000 <= backoffTime attempt <= 5000)%Z.
Proof.
  intros H. unfold backoffTime.
  assert (1 <= 2 ^ attempt)%Z
    by (apply Z.pow_le_mono_r with (b := 0%Z) (c := attempt) (a := 2%Z); lia).
  lia.
Qed.

Lemma retried_backoffs (n : nat) :
  forall from ms,
    (0 <= from)%Z ->
    In (Backoff ms) (retried from n) -> (1000 <= ms <= 5000)%Z.
Proof.
  induction n as [|n IH]; intros from ms Hf Hin; [contradiction|].
  cbn [retried In] in Hin.
  destruct Hin as [H|[H|H]]; [discriminate| |].
  - injection H as <-. now apply backoffTime_bounds.
  - apply (IH (from + 1)%Z); [lia|exact H].
Qed.

Lemma attempts_retried (k : nat) :
  forall from a, attempts (retried from k ++ [Attempt a]) = S k.
Proof.
  induction k as [|k IH]; intros from a; [reflexivity|].
  cbn [retried app]. unfold attempts in *. cbn [filter length].
  now rewrite IH.
Qed.

Section Shape.
Variable T World : Type.
Variable operation : World -> (T + JsError) * World.
Variable wait : Z -> World -> World.

(** While the loop has exactly the turns left which its counter allows,
    a run is a series of retried attempts closed by one last attempt. *)
Lemma retryLoop_shape (maxRetries timeout : Z) :
  forall turns attempt lastError w,
    Z.of_nat (S turns) = (maxRetries - attempt + 1)%Z ->
    exists k,
      k <= turns /\
      runTrace (retryLoop operation wait (S turns) maxRetries timeout attempt
                          lastError w) =
      retried attempt k ++ [Attempt (attempt + Z.of_nat k)].
Proof.
  induction turns as [|turns IH]; intros a le w Ht.
  - exists 0. split; [lia|]. cbn [retryLoop].
    destruct (operation w) as [[v|e] w']; [now rewrite Z.add_0_r|].
    destruct (isAbortError e); [now rewrite Z.add_0_r|].
    destruct (isNonRetryable e); [now rewrite Z.add_0_r|].
    replace (a =? maxRetries)%Z with true by (symmetry; apply Z.eqb_eq; lia).
    now rewrite Z.add_0_r.
  - remember (S turns) as n. cbn [retryLoop].
    destruct (operation w) as [[v|e] w'];
      [exists 0; split; [lia|now rewrite Z.add_0_r]|].
    destruct (isAbortError e);
      [exists 0; split; [lia|now rewrite Z.add_0_r]|].
    destruct (isNonRetryable e);
      [exists 0; split; [lia|now rewrite Z.add_0_r]|].
    destruct (a =? maxRetries)%Z;
      [exists 0; split; [lia|now rewrite Z.add_0_r]|].
    subst n.
    destruct (IH (a + 1)%Z (Some e) (wait (backoffTime a) w'))
      as (k & Hk & H); [lia|].
    exists (S k). split; [lia|].
    unfold runTrace, later in *. cbn [snd fst] in *. rewrite H.
    cbn [retried app].
    replace (a + 1 + Z.of_nat k)%Z with (a + Z.of_nat (S k))%Z by lia.
    reflexivity.
Qed.

End Shape.

(** The error thrown after the loop, whatever the last failure was. *)
Lemma failedAfter_details (maxRetries : Z) (error : JsError) :
  failedAfter maxRetries (Some error) =
  ModelAPIError
    ("Failed after " ++ numberToString (maxRetries + 1) ++ " attempts")
    (Some (setField "lastError" (JString (errorMessage error))
                    (match errorDetails error with
                     | Some d => d
                     | None => []
                     end)))
    None.
Proof. destruct error as [cls code m [d|] c| | |]; reflexivity. Qed.

Lemma getField_sanitizeDetails (key : jsstring) (d : Details) :
  getField key (sanitizeDetails d) = sanitizeProperty (getField key d).
Proof.
  induction d as [|[k v] d IH]; [reflexivity|].
  cbn [sanitizeDetails map getField fst snd].
  destruct (JsString.eqb k key); [reflexivity|exact IH].
Qed.

End RetryTraceFacts.

(* ================================================================== *)
(** * Further properties of the retry engine *)
(* ================================================================== *)

Import RetryTraceFacts.

(** X1.  The shape of every run of the retry engine.  With a negative
    [maxRetries] the operation is never called and the engine fails at
    once, with no last error to report.  Otherwise the
    trace is [k <= maxRetries] attempts, each followed by its wait, and one
    last attempt: the engine never waits after the attempt which ends the
    run, so there is one wait less than there are attempts, and every wait
    lasts between 1000 and 5000 ms. *)
Theorem withRetry_trace_shape :
  forall (T World : Type) (operation : World -> (T + JsError) * World)
         (wait : Z -> World -> World) (adapter config : RetryConfig)
         (w : World),
    let maxRetries := effectiveMaxRetries adapter config in
    let run := withRetry operation wait adapter config w in
    ((maxRetries < 0)%Z ->
     run = (inr (failedAfter maxRetries None), w, [])) /\
    ((0 <= maxRetries)%Z ->
     exists k : nat,
       (Z.of_nat k <= maxRetries)%Z /\
       runTrace run = retried 0 k ++ [Attempt (Z.of_nat k)] /\
       attempts (runTrace run) = S k /\
       (forall ms, In (Backoff ms) (runTrace run) ->
                   (1000 <= ms <= 5000)%Z)).
Proof.
  intros T World operation wait adapter config w maxRetries run. split.
  - intros Hneg. subst run. unfold withRetry. fold maxRetries.
    replace (Z.to_nat (maxRetries + 1)) with 0 by lia. reflexivity.
  - intros Hpos. subst run. unfold withRetry. fold maxRetries.
    replace (Z.to_nat (maxRetries + 1)) with (S (Z.to_nat maxRetries)) by lia.
    destruct (@retryLoop_shape T World operation wait maxRetries
                (effectiveTimeout adapter config) (Z.to_nat maxRetries)
                0%Z None w) as (k & Hk & H); [lia|].
    exists k. rewrite H, Z.add_0_l. split; [lia|]. split; [reflexivity|].
    split; [apply attempts_retried|].
    intros ms Hin. apply in_app_or in Hin. destruct Hin as [Hin|Hin].
    + apply (@retried_backoffs k 0%Z ms); [lia|exact Hin].
    + cbn in Hin. destruct Hin as [Hin|[]]. discriminate.
Qed.

Lemma withRetry_trace_shape_witness :
  exists k : nat,
    (Z.of_nat k <= 2)%Z /\
    runTrace (withRetry failsOnce noWait twoRetries noOverride 0) =
    retried 0 k ++ [Attempt (Z.of_nat k)] /\
    attempts (runTrace (withRetry failsOnce noWait twoRetries noOverride 0))
    = S k /\
    (forall ms,
        In (Backoff ms)
           (runTrace (withRetry failsOnce noWait twoRetries noOverride 0)) ->
        (1000 <= ms <= 5000)%Z).
Proof.
  apply (proj2 (@withRetry_trace_shape jsstring nat failsOnce noWait
                  twoRetries noOverride 0)).
  vm_compute. discriminate.
Defined.

(** X2.  Retries exhausted.  When every one of the [maxRetries + 1]
    attempts fails with an error the engine retries, the run makes exactly
    these attempts, with a wait after each but the last, and throws a
    [ModelAPIError] "Failed after N attempts" whose details are those of
    the last failure (none for a foreign error) with the message of that
    failure added under [lastError]. *)
Theorem withRetry_exhausted :
  forall (T World : Type) (operation : World -> (T + JsError) * World)
         (wait : Z -> World -> World) (adapter config : RetryConfig)
         (w : World),
    let maxRetries := effectiveMaxRetries adapter config in
    let run := withRetry operation wait adapter config w in
    (0 <= maxRetries)%Z ->
    (forall i, i <= Z.to_nat maxRetries ->
               failsRetryably operation wait w i) ->
    exists error,
      fst (operation (worldAt operation wait w (Z.to_nat maxRetries)))
      = inr error /\
      runResult run =
      inr (ModelAPIError
             ("Failed after " ++ numberToString (maxRetries + 1) ++ " attempts")
             (Some (setField "lastError" (JString (errorMessage error))
                             (match errorDetails error with
                              | Some d => d
                              | None => []
                              end)))
             None) /\
      runTrace run =
      retried 0 (Z.to_nat maxRetries) ++ [Attempt maxRetries] /\
      attempts (runTrace run) = Z.to_nat (maxRetries + 1).
Proof.
  intros T World operation wait adapter config w maxRetries run Hpos Hfail.
  destruct (@withRetry_retried T World operation wait adapter config w
              (Z.to_nat maxRetries)) as (le & turns & H).
  { fold maxRetries. lia. }
  { intros i Hi. apply Hfail. lia. }
  destruct (Hfail (Z.to_nat maxRetries) (le_n _)) as (error & He & Hr).
  exists error. split; [exact He|].
  subst run. rewrite H. fold maxRetries. cbn [retryLoop].
  destruct (operation (worldAt operation wait w (Z.to_nat maxRetries)))
    as [o w'].
  cbn in He. subst o.
  unfold retryable in Hr. apply andb_true_iff in Hr. destruct Hr as [Ha Hn].
  apply negb_true_iff in Ha, Hn. rewrite Ha, Hn.
  replace (Z.of_nat (Z.to_nat maxRetries) =? maxRetries)%Z with true
    by (symmetry; apply Z.eqb_eq; lia).
  rewrite failedAfter_details.
  replace (Z.of_nat (Z.to_nat maxRetries)) with maxRetries by lia.
  split; [reflexivity|]. split; [reflexivity|].
  unfold runTrace, prepend, later. cbn [snd fst].
  change (attempts (retried 0 (Z.to_nat maxRetries) ++ [Attempt maxRetries]) =
          Z.to_nat (maxRetries + 1)).
  rewrite attempts_retried. lia.
Qed.

Lemma withRetry_exhausted_witness :
  exists error,
    fst (alwaysUnavailable
           (worldAt alwaysUnavailable noWait 0
                    (Z.to_nat (effectiveMaxRetries twoRetries noOverride))))
    = inr error /\
    runResult (withRetry alwaysUnavailable noWait twoRetries noOverride 0) =
    inr (ModelAPIError
           ("Failed after " ++
            numberToString (effectiveMaxRetries twoRetries noOverride + 1) ++
            " attempts")
           (Some (setField "lastError" (JString (errorMessage error))
                           (match errorDetails error with
                            | Some d => d
                            | None => []
                            end)))
           None) /\
    runTrace (withRetry alwaysUnavailable noWait twoRetries noOverride 0) =
    retried 0 (Z.to_nat (effectiveMaxRetries twoRetries noOverride)) ++
    [Attempt (effectiveMaxRetries twoRetries noOverride)] /\
    attempts (runTrace (withRetry alwaysUnavailable noWait twoRetries
                                  noOverride 0)) =
    Z.to_nat (effectiveMaxRetries twoRetries noOverride + 1).
Proof.
  apply (@withRetry_exhausted jsstring nat alwaysUnavailable noWait
           twoRetries noOverride 0).
  - vm_compute. discriminate.
  - intros i Hi. exists serverError. split; reflexivity.
Defined.

(** X3.  The status survives the constructor.  [new ModelAPIError(message,
    details)] stores the sanitised details, and sanitising leaves a
    numeric [status] as it is: an error built from details with the number
    [status] is non-retryable for the engine exactly when that number is
    400, 401, 403 or 404, and it is never taken for a timeout. *)
Theorem status_decides_retry :
  forall (message : jsstring) (details : Details) (cause : option JsError)
         (status : Z),
    getField "status" details = JNumber status ->
    let error := ModelAPIError message (Some details) cause in
    isNonRetryable error =
    existsb (Z.eqb status) NON_RETRYABLE_STATUS_CODES /\
    isAbortError error = false /\
    retryable error = negb (existsb (Z.eqb status) NON_RETRYABLE_STATUS_CODES).
Proof.
  intros message details cause status Hs error.
  assert (H : isNonRetryable error =
              existsb (Z.eqb status) NON_RETRYABLE_STATUS_CODES).
  { subst error. unfold ModelAPIError. cbn [isNonRetryable].
    rewrite getField_sanitizeDetails, Hs. cbn [sanitizeProperty].
    destruct (status =? 0)%Z eqn:E; [|reflexivity].
    apply Z.eqb_eq in E. subst status. reflexivity. }
  split; [exact H|]. split; [reflexivity|].
  unfold retryable. rewrite H. reflexivity.
Qed.

Lemma status_decides_retry_witness :
  isNonRetryable unauthorized =
  existsb (Z.eqb 401) NON_RETRYABLE_STATUS_CODES /\
  isAbortError unauthorized = false /\
  retryable unauthorized =
  negb (existsb (Z.eqb 401) NON_RETRYABLE_STATUS_CODES).
Proof.
  exact (@status_decides_retry
           "API request failed: 401 Unauthorized"
           [("status" : jsstring, JNumber 401)] None 401%Z eq_refl).
Defined.

(** X4.  Retries cannot be switched off in the configuration.  A
    configuration with [maxRetries] 0 is accepted by the validation (0 is
    not negative), but the engine reads it through [|| 2]: after a first
    failure of the retried kind it waits 1000 ms and makes a second
    attempt.  Only the per-call override [{ maxRetries: 0 }] gives a single
    attempt. *)
Theorem zero_retries_cannot_be_configured :
  forall (T World : Type) (operation : World -> (T + JsError) * World)
         (wait : Z -> World -> World) (config : ModelConfig.ModelConfig)
         (w w' : World) (error : JsError),
    ModelConfig.maxRetries config = Num 0 ->
    operation w = (inr error, w') ->
    retryable error = true ->
    negative (ModelConfig.maxRetries config) = false /\
    effectiveMaxRetries (retrySettings config) noOverride = 2%Z /\
    (exists rest,
        runTrace (withRetry operation wait (retrySettings config)
                            noOverride w) =
        Attempt 0 :: Backoff 1000 :: Attempt 1 :: rest) /\
    withRetry operation wait (retrySettings config)
              {| BaseAdapter.maxRetries := Some 0%Z;
                 BaseAdapter.timeout := None |} w =
    (inr (failedAfter 0 (Some error)), w', [Attempt 0]).
Proof.
  intros T World operation wait config w w' error Hzero Hop Hr.
  assert (Heff : effectiveMaxRetries (retrySettings config) noOverride = 2%Z).
  { unfold effectiveMaxRetries, retrySettings.
    cbn [BaseAdapter.maxRetries]. now rewrite Hzero. }
  unfold retryable in Hr. apply andb_true_iff in Hr. destruct Hr as [Ha Hn].
  apply negb_true_iff in Ha, Hn.
  split; [now rewrite Hzero|]. split; [exact Heff|]. split.
  - unfold withRetry. rewrite Heff.
    change (Z.to_nat (2 + 1)) with 3. cbn [retryLoop].
    rewrite Hop, Ha, Hn. cbn [Z.eqb].
    destruct (operation (wait (backoffTime 0) w')) as [[v|e] w''].
    + eexists. reflexivity.
    + destruct (isAbortError e); [eexists; reflexivity|].
      destruct (isNonRetryable e); [eexists; reflexivity|].
      cbn [Z.add Z.eqb Pos.eqb]. eexists. reflexivity.
  - unfold withRetry, effectiveMaxRetries.
    cbn [BaseAdapter.maxRetries destructured].
    change (Z.to_nat (0 + 1)) with 1. cbn [retryLoop].
    rewrite Hop, Ha, Hn. reflexivity.
Qed.

Lemma zero_retries_cannot_be_configured_witness :
  negative (ModelConfig.maxRetries zeroRetries) = false /\
  effectiveMaxRetries (retrySettings zeroRetries) noOverride = 2%Z /\
  (exists rest,
      runTrace (withRetry failsOnce noWait (retrySettings zeroRetries)
                          noOverride 0) =
      Attempt 0 :: Backoff 1000 :: Attempt 1 :: rest) /\
  withRetry failsOnce noWait (retrySettings zeroRetries)
            {| BaseAdapter.maxRetries := Some 0%Z;
               BaseAdapter.timeout := None |} 0 =
  (inr (failedAfter 0 (Some serverError)), 1, [Attempt 0]).
Proof.
  exact (@zero_retries_cannot_be_configured
           jsstring nat failsOnce noWait zeroRetries 0 1 serverError
           eq_refl eq_refl eq_refl).
Defined.

(* ================================================================== *)
(** * Facts about the registry and the configuration *)
(* ================================================================== *)

Module ConfigFacts.
Import JsString Regex Errors Logger ModelConfig RegexFacts.

Lemma get_mapSet_same (key : jsstring) (p : ProviderDefinition)
      (r : Registry) :
  get key (mapSet key p r) = Some p.
Proof.
  induction r as [|[k q] r IH]; cbn [mapSet get].
  - now rewrite eqb_refl.
  - destruct (JsString.eqb k key) eqn:E; cbn [get]; rewrite E; auto.
Qed.

Lemma get_mapSet_other (key other : jsstring) (p : ProviderDefinition)
      (r : Registry) :
  JsString.eqb key other = false ->
  get other (mapSet key p r) = get other r.
Proof.
  intros Hne. induction r as [|[k q] r IH]; cbn [mapSet get].
  - now rewrite Hne.
  - destruct (JsString.eqb k key) eqn:E; cbn [get].
    + apply eqb_eq in E. subst k. now rewrite Hne.
    + destruct (JsString.eqb k other); auto.
Qed.

Lemma keys_mapSet (key : jsstring) (p : ProviderDefinition) (r : Registry) :
  getSupportedTypes (mapSet key p r) =
  if has key r then getSupportedTypes r else getSupportedTypes r ++ [key].
Proof.
  unfold has, getSupportedTypes.
  induction r as [|[k q] r IH]; cbn [mapSet get map fst]; [reflexivity|].
  destruct (JsString.eqb k key) eqn:E; cbn [map fst]; [reflexivity|].
  rewrite IH. now destruct (get key r).
Qed.

Lemma has_In (key : jsstring) (r : Registry) :
  has key r = true <-> In key (getSupportedTypes r).
Proof.
  unfold has, getSupportedTypes.
  induction r as [|[k q] r IH]; cbn [get map fst In].
  - split; [discriminate|contradiction].
  - destruct (JsString.eqb k key) eqn:E.
    + apply eqb_eq in E. split; auto.
    + split.
      * intros H. right. now apply IH.
      * intros [H|H]; [subst k; now rewrite eqb_refl in E|now apply IH].
Qed.

Lemma matchHere_trailing_slash (prev : option ascii) (s : jsstring) :
  matchHere pat_trailing_slash prev s =
  match s with
  | [c] => if Ascii.eqb "/" c then Some 1 else None
  | _ => None
  end.
Proof.
  unfold matchHere. destruct s as [|c [|d t]]; cbn -[Ascii.eqb];
    [reflexivity| |]; destruct (Ascii.eqb "/" c); reflexivity.
Qed.

Lemma startsWith_app (a : jsstring) :
  forall (b x : jsstring),
    length a <= length b -> startsWith a (b ++ x) = startsWith a b.
Proof.
  induction a as [|y a IH]; intros b x Hl; [reflexivity|].
  destruct b as [|z b]; [cbn in Hl; lia|].
  cbn [app startsWith]. rewrite IH; [reflexivity|cbn in Hl; lia].
Qed.

Lemma endsWith_cons (p : jsstring) (c : ascii) (t : jsstring) :
  length p <= length t ->
  endsWith p (c :: t) = endsWith p t.
Proof.
  intros Hlen. unfold endsWith.
  change (rev (c :: t)) with (rev t ++ [c]).
  apply startsWith_app. now rewrite !length_rev.
Qed.

(** [s.replace(/\/$/, '')] drops one slash at the end, and nothing else. *)
Lemma replaceFirstFrom_trailing_slash (s : jsstring) :
  forall prev,
    replaceFirstFrom pat_trailing_slash (fun _ => []) prev s =
    if endsWith "/" s then removelast s else s.
Proof.
  induction s as [|c s IH]; intros prev; [reflexivity|].
  cbn [replaceFirstFrom]. rewrite matchHere_trailing_slash.
  destruct s as [|d t].
  - unfold endsWith. cbn [rev app startsWith list_ascii_of_string].
    destruct (Ascii.eqb "/" c); reflexivity.
  - rewrite IH.
    rewrite (@endsWith_cons "/" c (d :: t)); [|cbn; lia].
    destruct (endsWith "/" (d :: t)); reflexivity.
Qed.

Lemma maskApiKey_long (apiKey : jsstring) :
  8 < length apiKey ->
  let visible := Nat.min 4 (length apiKey / 4) in
  maskApiKey apiKey =
  firstn visible apiKey ++
  repeat "*"%char (length apiKey - 2 * visible) ++
  skipn (length apiKey - visible) apiKey /\
  2 <= visible <= 4 /\ 4 * visible <= length apiKey.
Proof.
  intros Hlen visible.
  assert (Hdiv : 4 * (length apiKey / 4) <= length apiKey)
    by (apply Nat.Div0.mul_div_le).
  assert (Hdiv2 : 2 <= length apiKey / 4)
    by (apply Nat.div_le_lower_bound; lia).
  assert (Hv : 2 <= visible <= 4 /\ 4 * visible <= length apiKey)
    by (subst visible; lia).
  split; [|exact Hv].
  unfold maskApiKey.
  destruct apiKey as [|c rest]; [cbn in Hlen; lia|].
  cbn [truthy negb orb].
  replace (length (c :: rest) <=? 8)%nat with false
    by (symmetry; apply Nat.leb_gt; exact Hlen).
  fold visible. unfold substring, substringFrom.
  rewrite !Nat2Z.id. cbn [Z.to_nat skipn]. rewrite Nat.sub_0_r.
  replace (Nat.max 1 (length (c :: rest) - visible * 2))
    with (length (c :: rest) - 2 * visible) by lia.
  reflexivity.
Qed.

End ConfigFacts.

(* ================================================================== *)
(** * Further properties of the registry and the configuration *)
(* ================================================================== *)

Import ConfigFacts.

(** X5.  [maskApiKey] shows at most the first four and the last four
    characters of a key, puts at least three stars between them and never
    fewer stars than characters shown.  A key of up to eight characters is
    replaced by three stars altogether; a longer key keeps its length, one
    star standing for each hidden character. *)
Theorem maskApiKey_hides_the_middle (apiKey : jsstring) :
  exists visible stars : nat,
    maskApiKey apiKey =
    firstn visible apiKey ++ repeat "*"%char stars ++
    skipn (length apiKey - visible) apiKey /\
    visible <= 4 /\ 3 <= stars /\ 2 * visible <= stars /\
    (length apiKey <= 8 -> visible = 0 /\ stars = 3) /\
    (8 < length apiKey ->
     length (maskApiKey apiKey) = length apiKey /\
     stars = length apiKey - 2 * visible).
Proof.
  destruct (Nat.leb_spec (length apiKey) 8) as [Hshort|Hlong].
  - exists 0, 3. rewrite Nat.sub_0_r, skipn_all.
    unfold maskApiKey.
    replace (length apiKey <=? 8)%nat with true
      by (symmetry; apply Nat.leb_le; exact Hshort).
    rewrite orb_true_r. repeat split; try lia.
  - destruct (maskApiKey_long apiKey Hlong) as (Hm & Hv & Hlen).
    exists (Nat.min 4 (length apiKey / 4)),
           (length apiKey - 2 * Nat.min 4 (length apiKey / 4)).
    cbv zeta in Hm. rewrite Hm.
    repeat split; try lia.
    rewrite !length_app, repeat_length, length_firstn, length_skipn. lia.
Qed.

(** X6.  Registering and looking up providers.  After [register(provider)]
    the registry returns that definition for its type (a definition
    registered earlier for the same type is replaced), every other type is
    looked up as before, the list of supported types still names each type
    once, and [has] agrees with that list. *)
Theorem register_then_get (provider : ProviderDefinition) (r : Registry) :
  get (providerType provider) (register provider r) = Some provider /\
  (forall other,
      JsString.eqb (providerType provider) other = false ->
      get other (register provider r) = get other r) /\
  (NoDup (getSupportedTypes r) ->
   NoDup (getSupportedTypes (register provider r))) /\
  (forall type,
      has type (register provider r) = true <->
      In type (getSupportedTypes (register provider r))).
Proof.
  unfold register. split; [apply get_mapSet_same|].
  split; [intros other H; now apply get_mapSet_other|].
  split; [|intros type; apply has_In].
  intros Hnd. rewrite keys_mapSet.
  destruct (has (providerType provider) r) eqn:Hhas; [exact Hnd|].
  apply NoDup_app; [exact Hnd|repeat constructor; intros []|].
  intros x Hx [Hy|[]]. subst x. apply has_In in Hx. congruence.
Qed.

(** X7.  The outcomes of [loadModelConfig].  It returns a configuration
    exactly when VISION_MODEL_TYPE is set to a registered type and
    VISION_API_KEY is set (an empty value counts as unset).  The
    configuration then carries that type and that key, its base URL is the
    configured or default one without one slash at its end (a second
    slash stays), and the log holds at most one warning followed by the
    INFO entry.  Every failure is a MODEL_CONFIG_ERROR, logged once at
    ERROR level. *)
Theorem loadModelConfig_outcomes :
  forall (registry : Registry) (env : jsstring -> option jsstring),
    let type := envOr (env "VISION_MODEL_TYPE") [] in
    let key := envOr (env "VISION_API_KEY") [] in
    match loadModelConfig registry env with
    | (inl config, log) =>
        truthy type = true /\ truthy key = true /\
        ModelConfig.type config = type /\ apiKey config = key /\
        (exists provider,
            get type registry = Some provider /\
            let base := envOr (env "VISION_API_BASE_URL")
                              (defaultBaseUrl (defaults provider)) in
            baseUrl config =
            if endsWith "/" base then removelast base else base) /\
        (exists warnings,
            log = warnings ++
                  [ {| level := INFO;
                       message := "Model configuration loaded successfully" |} ]
            /\ length warnings <= 1
            /\ Forall (fun entry => level entry = WARN) warnings)
    | (inr error, log) =>
        truthy type && has type registry && truthy key = false /\
        errorCode error = Some MODEL_CONFIG_ERROR /\
        log = [ {| level := ERROR;
                   message := "Failed to load model configuration" |} ]
    end.
Proof.
  intros registry env type key. unfold loadModelConfig, has.
  fold type. destruct (truthy type) eqn:Ht; cbn [negb];
    [|repeat split].
  destruct (get type registry) as [provider|] eqn:Hg; [|repeat split].
  fold key. destruct (truthy key) eqn:Hk; cbn [negb]; [|repeat split].
  repeat split.
  - exists provider. split; [reflexivity|]. cbn [baseUrl].
    unfold replaceFirst. apply replaceFirstFrom_trailing_slash.
  - destruct (validateApiKey provider) as [validate|].
    + destruct (isValid (validate key)).
      * exists []. repeat split; [cbn; lia|constructor].
      * eexists [_]. repeat split; [cbn; lia|repeat constructor].
    + exists []. repeat split; [cbn; lia|constructor].
Qed.

(** X8.  The built-in providers work out of the box.  For each of the six
    built-in providers, an environment which sets only the model type and
    a non-empty key loads the provider's defaults (thinking enabled for
    GLM only); the loaded configuration passes [validateModelConfig], and
    an adapter built on it retries twice with a time limit of 60000 ms. *)
Theorem builtin_defaults_are_valid :
  forall (provider : ProviderDefinition)
         (env : jsstring -> option jsstring) (key : jsstring),
    In provider [glm; siliconflow; modelscope; openai; claude; gemini] ->
    env "VISION_MODEL_TYPE" = Some (providerType provider) ->
    env "VISION_API_KEY" = Some key ->
    truthy key = true ->
    env "VISION_MODEL_NAME" = None ->
    env "VISION_API_BASE_URL" = None ->
    env "VISION_API_TIMEOUT" = None ->
    env "VISION_MAX_RETRIES" = None ->
    let config :=
      {| ModelConfig.type := providerType provider;
         name := defaultModelName (defaults provider);
         baseUrl := defaultBaseUrl (defaults provider);
         apiKey := key;
         ModelConfig.timeout := Num 60000;
         ModelConfig.maxRetries := Num 2;
         thinking := match enableThinking provider with
                     | Some true => Some enabled
                     | _ => None
                     end |} in
    (exists log,
        loadModelConfig ModelConfig.registry env = (inl config, log)) /\
    validateModelConfig config = (inl true, []) /\
    effectiveMaxRetries (retrySettings config) noOverride = 2%Z /\
    effectiveTimeout (retrySettings config) noOverride = 60000%Z.
Proof.
  intros provider env key Hin Htype Hkey Htruthy Hname Hbase Htimeout Hretries
         config.
  assert (Hget : get (providerType provider) ModelConfig.registry
                 = Some provider /\
                 truthy (providerType provider) = true /\
                 truthy (defaultModelName (defaults provider)) = true /\
                 truthy (defaultBaseUrl (defaults provider)) = true /\
                 endsWith "/" (defaultBaseUrl (defaults provider)) = false /\
                 defaultTimeout (defaults provider) = 60000%Z /\
                 defaultMaxRetries (defaults provider) = 2%Z).
  { cbn [In] in Hin.
    repeat (destruct Hin as [<-|Hin]; [repeat split; vm_compute; reflexivity|]).
    contradiction. }
  destruct Hget as (Hget & Hty & Hn & Hb & Hend & Hto & Hmr).
  split; [|split; [|split]].
  - unfold loadModelConfig.
    rewrite Htype, Hkey, Hname, Hbase, Htimeout, Hretries.
    cbn [envOr envNumber]. rewrite Hty, Htruthy. cbn iota.
    rewrite Hty, Htruthy. cbn [negb].
    rewrite Hget, Hto, Hmr. eexists. unfold config.
    unfold replaceFirst. rewrite replaceFirstFrom_trailing_slash, Hend.
    reflexivity.
  - unfold validateModelConfig, config.
    cbn [name baseUrl apiKey ModelConfig.timeout ModelConfig.maxRetries].
    rewrite Hn, Hb, Htruthy. reflexivity.
  - reflexivity.
  - reflexivity.
Qed.

Lemma builtin_defaults_are_valid_witness :
  (exists log,
      loadModelConfig ModelConfig.registry glmEnv =
      (inl {| ModelConfig.type := "glm";
              name := "glm-4.6v";
              baseUrl := "https://open.bigmodel.cn/api/paas/v4";
              apiKey := "keywithoutdot";
              ModelConfig.timeout := Num 60000;
              ModelConfig.maxRetries := Num 2;
              thinking := Some enabled |}, log)) /\
  validateModelConfig
    {| ModelConfig.type := "glm";
       name := "glm-4.6v";
       baseUrl := "https://open.bigmodel.cn/api/paas/v4";
       apiKey := "keywithoutdot";
       ModelConfig.timeout := Num 60000;
       ModelConfig.maxRetries := Num 2;
       thinking := Some enabled |} = (inl true, []) /\
  effectiveMaxRetries
    (retrySettings
       {| ModelConfig.type := "glm";
          name := "glm-4.6v";
          baseUrl := "https://open.bigmodel.cn/api/paas/v4";
          apiKey := "keywithoutdot";
          ModelConfig.timeout := Num 60000;
          ModelConfig.maxRetries := Num 2;
          thinking := Some enabled |}) noOverride = 2%Z /\
  effectiveTimeout
    (retrySettings
       {| ModelConfig.type := "glm";
          name := "glm-4.6v";
          baseUrl := "https://open.bigmodel.cn/api/paas/v4";
          apiKey := "keywithoutdot";
          ModelConfig.timeout := Num 60000;
          ModelConfig.maxRetries := Num 2;
          thinking := Some enabled |}) noOverride = 60000%Z.
Proof.
  exact (@builtin_defaults_are_valid glm glmEnv "keywithoutdot"
           (or_introl eq_refl) eq_refl eq_refl eq_refl
           eq_refl eq_refl eq_refl eq_refl).
Defined.

(** X9.  A time limit which is not a number goes unnoticed.  When
    VISION_API_TIMEOUT starts with a character which is neither white
    space, a digit nor a sign, [parseInt] gives [NaN]; the loaded
    configuration carries it, [validateModelConfig] judges the
    configuration as if the time limit were 60000 ([NaN <= 0] is false),
    and the retry engine of an adapter built on it falls back to 60000 ms
    ([NaN] is falsy). *)
Theorem non_numeric_timeout_is_accepted :
  forall (registry : Registry) (env : jsstring -> option jsstring)
         (config : ModelConfig.ModelConfig) (log : list LogEntry)
         (c : ascii) (rest : jsstring),
    loadModelConfig registry env = (inl config, log) ->
    env "VISION_API_TIMEOUT" = Some (c :: rest) ->
    isWhiteSpace c || isDigit c || Ascii.eqb c "-" || Ascii.eqb c "+" = false ->
    ModelConfig.timeout config = NaN /\
    validateModelConfig config =
    validateModelConfig (withTimeout (Num 60000) config) /\
    effectiveTimeout (retrySettings config) noOverride = 60000%Z.
Proof.
  intros registry env config log c rest Hload Henv Hc.
  apply orb_false_iff in Hc. destruct Hc as [Hc Hplus].
  apply orb_false_iff in Hc. destruct Hc as [Hc Hminus].
  apply orb_false_iff in Hc. destruct Hc as [Hws Hdigit].
  assert (Ht : ModelConfig.timeout config = NaN).
  { unfold loadModelConfig in Hload.
    destruct (negb (truthy (envOr (env "VISION_MODEL_TYPE") [])));
      [discriminate|].
    destruct (get _ registry) as [provider|]; [|discriminate].
    destruct (negb (truthy (envOr (env "VISION_API_KEY") [])));
      [discriminate|].
    injection Hload as <- _.
    change (envNumber (env "VISION_API_TIMEOUT")
                      (defaultTimeout (defaults provider)) = NaN).
    rewrite Henv. cbn [envNumber truthy]. unfold parseInt.
    cbn [trimStart]. rewrite Hws, Hminus, Hplus. cbn [digits].
    now rewrite Hdigit. }
  split; [exact Ht|]. split.
  - unfold validateModelConfig, withTimeout.
    cbn [name baseUrl apiKey ModelConfig.timeout ModelConfig.maxRetries].
    rewrite Ht. reflexivity.
  - unfold effectiveTimeout, retrySettings. cbn [BaseAdapter.timeout].
    rewrite Ht. reflexivity.
Qed.

Lemma non_numeric_timeout_is_accepted_witness :
  ModelConfig.timeout
    {| ModelConfig.type := "openai";
       name := "gpt-4o";
       baseUrl := "https://api.openai.com/v1";
       apiKey := "sk-0123456789";
       ModelConfig.timeout := NaN;
       ModelConfig.maxRetries := Num 2;
       thinking := None |} = NaN /\
  validateModelConfig
    {| ModelConfig.type := "openai";
       name := "gpt-4o";
       baseUrl := "https://api.openai.com/v1";
       apiKey := "sk-0123456789";
       ModelConfig.timeout := NaN;
       ModelConfig.maxRetries := Num 2;
       thinking := None |} =
  validateModelConfig
    (withTimeout (Num 60000)
       {| ModelConfig.type := "openai";
          name := "gpt-4o";
          baseUrl := "https://api.openai.com/v1";
          apiKey := "sk-0123456789";
          ModelConfig.timeout := NaN;
          ModelConfig.maxRetries := Num 2;
          thinking := None |}) /\
  effectiveTimeout
    (retrySettings
       {| ModelConfig.type := "openai";
          name := "gpt-4o";
          baseUrl := "https://api.openai.com/v1";
          apiKey := "sk-0123456789";
          ModelConfig.timeout := NaN;
          ModelConfig.maxRetries := Num 2;
          thinking := None |}) noOverride = 60000%Z.
Proof.
  exact (@non_numeric_timeout_is_accepted
           ModelConfig.registry typoEnv _
           [ {| level := INFO;
                message := "Model configuration loaded successfully" |} ]
           "s"%char "oon" eq_refl eq_refl eq_refl).
Defined.

(* ================================================================== *)
(** * Further facts about strings and image inputs *)
(* ================================================================== *)

Module SuffixFacts.
Import JsString RegexFacts.

Lemma startsWith_prefix (a b : jsstring) : startsWith a (a ++ b) = true.
Proof.
  induction a as [|x a IH]; [reflexivity|].
  cbn [app startsWith]. now rewrite Ascii.eqb_refl, IH.
Qed.

Lemma startsWith_decompose (p : jsstring) :
  forall s, startsWith p s = true -> s = p ++ skipn (length p) s.
Proof.
  induction p as [|x p IH]; intros s H; [reflexivity|].
  destruct s as [|y s]; [discriminate|].
  cbn [startsWith] in H. apply andb_true_iff in H. destruct H as [Hx Hp].
  apply Ascii.eqb_eq in Hx. subst y.
  cbn [length skipn app]. f_equal. now apply IH.
Qed.

Lemma endsWith_skipn (n : nat) (s : jsstring) : endsWith (skipn n s) s = true.
Proof.
  unfold endsWith. rewrite <- (firstn_skipn n s) at 2.
  rewrite rev_app_distr. apply startsWith_prefix.
Qed.

Lemma endsWith_decompose (p s : jsstring) :
  endsWith p s = true -> s = firstn (length s - length p) s ++ p.
Proof.
  unfold endsWith. intros H. apply startsWith_decompose in H.
  apply (f_equal (@rev ascii)) in H.
  rewrite rev_involutive, rev_app_distr, rev_involutive in H.
  revert H. generalize (rev (skipn (length (rev p)) (rev s))).
  intros q ->. rewrite length_app, Nat.add_sub.
  rewrite firstn_app, firstn_all, Nat.sub_diag. cbn [firstn].
  now rewrite app_nil_r.
Qed.

End SuffixFacts.

Module FileNameFacts.
Import JsString Regex Errors ImageInput RegexFacts ImageInputFacts SuffixFacts.

Lemma ownEntry_In (key value : jsstring) (table : list (jsstring * jsstring)) :
  ownEntry key table = Some value -> In (key, value) table.
Proof.
  induction table as [|[k v] table IH]; [discriminate|].
  cbn [ownEntry]. destruct (JsString.eqb k key) eqn:E.
  - apply eqb_eq in E. subst k. intros H. injection H as <-. now left.
  - intros H. right. now apply IH.
Qed.

(** What a lookup in the table of extensions finds: the type of an own
    entry, or one of the two inherited values. *)
Lemma lookup_cases (key : jsstring) (m : MimeValue) :
  lookup key EXT_TO_MIME_TYPE = Some m ->
  (exists mime, m = MimeString mime /\ In (key, mime) EXT_TO_MIME_TYPE) \/
  (key = "constructor" /\ m = ObjectFunction) \/
  (key = "__proto__" /\ m = ObjectPrototype).
Proof.
  unfold lookup.
  destruct (ownEntry key EXT_TO_MIME_TYPE) as [v|] eqn:E.
  - intros H. injection H as <-. left. exists v.
    split; [reflexivity|now apply ownEntry_In].
  - destruct (JsString.eqb key "constructor") eqn:E1.
    + intros H. injection H as <-. apply eqb_eq in E1. right. left.
      now split.
    + destruct (JsString.eqb key "__proto__") eqn:E2; [|discriminate].
      intros H. injection H as <-. apply eqb_eq in E2. right. right.
      now split.
Qed.

(** A key found in the table holds no dot after its first character. *)
Lemma lookup_dot (key : jsstring) (m : MimeValue) :
  lookup key EXT_TO_MIME_TYPE = Some m -> without "." (tl key) = true.
Proof.
  intros H. apply lookup_cases in H.
  destruct H as [(mime & _ & Hin) | [[-> _] | [-> _]]];
    [|reflexivity|reflexivity].
  unfold EXT_TO_MIME_TYPE in Hin. cbn [In] in Hin.
  destruct Hin as [H|[H|[H|[H|[]]]]]; injection H as <- _; reflexivity.
Qed.

(** A name is without dot, or it is a base, a dot and a rest without
    dot. *)
Lemma last_dot (s : jsstring) :
  without "." s = true \/
  exists base rest,
    s = base ++ "."%char :: rest /\ without "." rest = true.
Proof.
  induction s as [|x s IH]; [now left|].
  destruct IH as [Hs | (base & rest & -> & Hrest)].
  - destruct (Ascii.eqb x ".") eqn:E.
    + apply Ascii.eqb_eq in E. subst x. right. now exists [], s.
    + left. unfold without in *. cbn [forallb]. now rewrite E, Hs.
  - right. now exists (x :: base), rest.
Qed.

(** The extension the program looks up: the whole name in lower case when
    the name holds no dot, and what starts at its last dot otherwise. *)
Lemma extension_cases (filename : jsstring) :
  let ext :=
    substringFrom (lastIndexOf "." filename) (toLowerCase filename) in
  (without "." filename = true /\ ext = toLowerCase filename) \/
  (exists rest, ext = "."%char :: rest).
Proof.
  cbv zeta. destruct (last_dot filename) as [Hs | (base & rest & -> & Hrest)].
  - left. split; [exact Hs|].
    unfold lastIndexOf.
    rewrite (@lastIndexOfFrom_absent "."%char filename Hs 0%Z (-1)%Z).
    reflexivity.
  - right. exists (toLowerCase rest).
    unfold substringFrom, lastIndexOf, toLowerCase.
    rewrite (@lastIndexOfFrom_last "."%char base rest Hrest 0%Z (-1)%Z).
    rewrite Z.add_0_l, Nat2Z.id, map_app.
    rewrite <- (length_map lowerChar base), skipn_app, skipn_all, Nat.sub_diag.
    reflexivity.
Qed.

Lemma accepted_suffix (filename ext mime : jsstring) :
  In (ext, mime) EXT_TO_MIME_TYPE ->
  endsWith ext (toLowerCase filename) = true ->
  getMimeTypeFromFileName filename = inl (MimeString mime).
Proof.
  intros Hin Hend.
  apply endsWith_decompose in Hend.
  set (n := length (toLowerCase filename) - length ext) in Hend.
  rewrite <- (firstn_skipn n filename).
  apply (@getMimeTypeFromFileName_written
           (firstn n filename) (skipn n filename) ext mime); [|exact Hin].
  unfold toLowerCase in *. rewrite <- skipn_map.
  rewrite Hend at 1.
  assert (Hn : n = length (firstn n (map lowerChar filename))).
  { rewrite length_firstn. subst n. lia. }
  rewrite Hn at 1. rewrite skipn_app, skipn_all, Nat.sub_diag.
  reflexivity.
Qed.

Lemma suffix_accepted (filename mime : jsstring) :
  getMimeTypeFromFileName filename = inl (MimeString mime) ->
  exists ext,
    In (ext, mime) EXT_TO_MIME_TYPE /\
    endsWith ext (toLowerCase filename) = true.
Proof.
  unfold getMimeTypeFromFileName.
  destruct (lookup _ EXT_TO_MIME_TYPE) as [m|] eqn:E; [|discriminate].
  intros H. injection H as ->.
  apply lookup_cases in E.
  destruct E as [(v & Hv & Hin) | [[_ H] | [_ H]]]; try discriminate H.
  injection Hv as <-.
  eexists. split; [exact Hin|].
  unfold substringFrom. apply endsWith_skipn.
Qed.

Lemma without_skipn (c : ascii) (n : nat) :
  forall s : jsstring, without c s = true -> without c (skipn n s) = true.
Proof.
  unfold without.
  induction n as [|n IH]; intros [|x s] H; try exact H.
  cbn [forallb] in H. apply andb_true_iff in H. cbn [skipn]. now apply IH.
Qed.

(** An inherited value is found exactly for the name which, in lower case,
    is the inherited key. *)
Lemma inherited_name (filename key : jsstring) (m : MimeValue) :
  without "." key = true ->
  lookup key EXT_TO_MIME_TYPE = Some m ->
  (forall mime, m <> MimeString mime) ->
  (getMimeTypeFromFileName filename = inl m <-> toLowerCase filename = key).
Proof.
  intros Hkey Hl Hm. unfold getMimeTypeFromFileName.
  pose proof (extension_cases filename) as Hc. cbv zeta in Hc.
  set (ext := substringFrom (lastIndexOf "." filename) (toLowerCase filename))
    in *.
  split.
  - destruct (lookup ext EXT_TO_MIME_TYPE) as [m'|] eqn:E; [|discriminate].
    intros H. injection H as ->.
    assert (He : ext = key).
    { apply lookup_cases in E. apply lookup_cases in Hl.
      destruct E as [(v & -> & _) | [[-> ->] | [-> ->]]];
        [exfalso; exact (Hm v eq_refl)| |];
        destruct Hl as [(v & H & _) | [[-> H] | [-> H]]];
        try discriminate H; reflexivity. }
    destruct Hc as [[_ Hw] | (rest & Hd)]; [congruence|].
    rewrite <- He, Hd in Hkey. discriminate Hkey.
  - intros Hlow.
    assert (He : ext = key).
    { destruct Hc as [[_ Hw] | (rest & Hd)]; [congruence|].
      exfalso.
      assert (Hs : without "." ext = true).
      { unfold ext, substringFrom. apply without_skipn. now rewrite Hlow. }
      rewrite Hd in Hs. discriminate Hs. }
    now rewrite He, Hl.
Qed.

Lemma file_name_inherited (filename key : jsstring) (m : MimeValue) :
  without "." key = true ->
  lookup key EXT_TO_MIME_TYPE = Some m ->
  (forall mime, m <> MimeString mime) ->
  getMimeTypeFromFileName filename = inl m ->
  toLowerCase filename = key.
Proof.
  intros Hkey Hl Hm H.
  exact (proj1 (@inherited_name filename key m Hkey Hl Hm) H).
Qed.

End FileNameFacts.

(* ================================================================== *)
(** * Facts about file names with code units beyond U+00FF *)
(* ================================================================== *)

Module WideNameFacts.
Import JsString Errors Base64 ImageInput RegexFacts ImageInputFacts.
Import SuffixFacts FileNameFacts.

Lemma narrow_widen (s : jsstring) :
  WideNames.narrow (WideNames.widen s) = Some s.
Proof.
  induction s as [|c s IH]; [reflexivity|].
  cbn [WideNames.widen map WideNames.narrow].
  change (map WideNames.Latin1 s) with (WideNames.widen s).
  now rewrite IH.
Qed.

Lemma narrow_app (a b : WideNames.name) (k : jsstring) :
  WideNames.narrow (a ++ b) = Some k ->
  exists x y,
    WideNames.narrow b = Some y /\ k = x ++ y /\ length x = length a.
Proof.
  revert k. induction a as [|u a IH]; intros k H.
  - exists [], k. now repeat split.
  - destruct u as [c| |]; cbn [app WideNames.narrow] in H;
      [|discriminate|discriminate].
    destruct (WideNames.narrow (a ++ b)) as [r|] eqn:E; [|discriminate].
    injection H as <-. destruct (IH r eq_refl) as (x & y & Hb & -> & Hlen).
    exists (c :: x), y. cbn [length app]. now rewrite Hlen.
Qed.

Lemma toLowerCase_app (a b : WideNames.name) :
  WideNames.toLowerCase (a ++ b) =
  WideNames.toLowerCase a ++ WideNames.toLowerCase b.
Proof. apply flat_map_app. Qed.

Lemma toLowerCase_widen (s : jsstring) :
  WideNames.toLowerCase (WideNames.widen s) =
  WideNames.widen (toLowerCase s).
Proof.
  induction s as [|c s IH]; [reflexivity|].
  cbn [WideNames.widen map WideNames.toLowerCase flat_map
       WideNames.lowerUnit app toLowerCase].
  f_equal. exact IH.
Qed.

(** Lower case never shortens a name... *)
Lemma lowered_length (s : WideNames.name) :
  length s <= length (WideNames.toLowerCase s).
Proof.
  induction s as [|u s IH]; [apply le_n|].
  change (WideNames.toLowerCase (u :: s))
    with (WideNames.lowerUnit u ++ WideNames.toLowerCase s).
  rewrite length_app. destruct u; cbn [WideNames.lowerUnit length]; lia.
Qed.

(** ... keeps its length when it holds no U+0130 ... *)
Lemma lowered_length_same (s : WideNames.name) :
  ~ In WideNames.U0130 s ->
  length (WideNames.toLowerCase s) = length s.
Proof.
  induction s as [|u s IH]; intros H; [reflexivity|].
  change (WideNames.toLowerCase (u :: s))
    with (WideNames.lowerUnit u ++ WideNames.toLowerCase s).
  rewrite length_app, IH by (intros Hs; apply H; now right).
  destruct u; cbn [WideNames.lowerUnit length]; try reflexivity.
  exfalso. apply H. now left.
Qed.

(** ... and lengthens it when it holds one. *)
Lemma lowered_length_longer (s : WideNames.name) :
  In WideNames.U0130 s ->
  length s < length (WideNames.toLowerCase s).
Proof.
  induction s as [|u s IH]; intros H; [contradiction|].
  change (WideNames.toLowerCase (u :: s))
    with (WideNames.lowerUnit u ++ WideNames.toLowerCase s).
  rewrite length_app. pose proof (lowered_length s) as Hle.
  destruct H as [-> | H].
  - cbn [WideNames.lowerUnit length]. lia.
  - specialize (IH H). destruct u; cbn [WideNames.lowerUnit length]; lia.
Qed.

Lemma wide_lastIndexOfFrom_absent (c : WideNames.CodeUnit)
      (s : WideNames.name) :
  forallb (fun x => negb (WideNames.unitEqb x c)) s = true ->
  forall i found, WideNames.lastIndexOfFrom c i found s = found.
Proof.
  induction s as [|x s IH]; intros Hs i found; [reflexivity|].
  cbn in Hs. apply andb_true_iff in Hs. destruct Hs as [Hx Hs].
  apply negb_true_iff in Hx. cbn [WideNames.lastIndexOfFrom]. rewrite Hx.
  now apply IH.
Qed.

Lemma wide_lastIndexOfFrom_last (base : WideNames.name) (rest : jsstring) :
  without "." rest = true ->
  forall i found,
    WideNames.lastIndexOfFrom
      (WideNames.Latin1 ".") i found
      (base ++ WideNames.widen ("."%char :: rest)) =
    (i + Z.of_nat (length base))%Z.
Proof.
  intros Hrest.
  assert (Habs : forallb (fun x => negb (WideNames.unitEqb
                                            x (WideNames.Latin1 ".")))
                         (WideNames.widen rest) = true).
  { revert Hrest. unfold without. induction rest as [|c rest IH];
      [reflexivity|].
    cbn [forallb WideNames.widen map WideNames.unitEqb].
    intros H. apply andb_true_iff in H. destruct H as [Hc H].
    rewrite Hc. exact (IH H). }
  induction base as [|x base IH]; intros i found.
  - cbn [app WideNames.widen map WideNames.lastIndexOfFrom length
         WideNames.unitEqb].
    rewrite Ascii.eqb_refl.
    change (map WideNames.Latin1 rest) with (WideNames.widen rest).
    rewrite (wide_lastIndexOfFrom_absent _ _ Habs). cbn. lia.
  - cbn [app WideNames.lastIndexOfFrom length]. rewrite IH. lia.
Qed.

(** An extension of the table is a dot and a rest without dot. *)
Lemma extension_shape (ext mime : jsstring) :
  In (ext, mime) EXT_TO_MIME_TYPE ->
  exists rest, ext = "."%char :: rest /\ without "." rest = true.
Proof.
  unfold EXT_TO_MIME_TYPE. cbn [In].
  intros [H|[H|[H|[H|[]]]]]; injection H as <- _; eexists;
    (split; [reflexivity|reflexivity]).
Qed.

Lemma lookup_extension (ext mime : jsstring) :
  In (ext, mime) EXT_TO_MIME_TYPE ->
  lookup ext EXT_TO_MIME_TYPE = Some (MimeString mime).
Proof.
  unfold EXT_TO_MIME_TYPE. cbn [In].
  intros [H|[H|[H|[H|[]]]]]; injection H as <- <-; reflexivity.
Qed.

(** What the program looks up for a name which ends in an extension of the
    table: the extension, after the code units by which the lower-cased
    stem is longer than the stem. *)
Lemma wide_extension (stem : WideNames.name) (written ext mime : jsstring) :
  toLowerCase written = ext ->
  In (ext, mime) EXT_TO_MIME_TYPE ->
  WideNames.substringFrom
    (WideNames.lastIndexOf (WideNames.Latin1 ".")
                           (stem ++ WideNames.widen written))
    (WideNames.toLowerCase (stem ++ WideNames.widen written)) =
  skipn (length stem) (WideNames.toLowerCase stem) ++ WideNames.widen ext.
Proof.
  intros Hlow Hin.
  destruct (@extension_shape ext mime Hin) as (rest & Hext & Hrest).
  rewrite Hext in Hlow.
  destruct written as [|d written]; [discriminate|].
  cbn [toLowerCase map] in Hlow. injection Hlow as Hd Hw.
  apply lowerChar_dot in Hd. subst d.
  assert (Hnd : without "." written = true).
  { apply lowered_without_dot. unfold toLowerCase.
    rewrite Hw. exact Hrest. }
  unfold WideNames.substringFrom, WideNames.lastIndexOf.
  rewrite (@wide_lastIndexOfFrom_last stem written Hnd 0%Z (-1)%Z).
  rewrite Z.add_0_l, Nat2Z.id, toLowerCase_app, toLowerCase_widen.
  rewrite skipn_app.
  replace (length stem - length (WideNames.toLowerCase stem)) with 0
    by (pose proof (lowered_length stem); lia).
  cbn [skipn toLowerCase map].
  change (lowerChar ".") with "."%char. fold (toLowerCase written).
  unfold toLowerCase. now rewrite Hw, Hext.
Qed.

Lemma wide_getMimeTypeFromFileName_supported
      (stem : WideNames.name) (written ext mime : jsstring) :
  toLowerCase written = ext ->
  In (ext, mime) EXT_TO_MIME_TYPE ->
  ~ In WideNames.U0130 stem ->
  WideNames.getMimeTypeFromFileName (stem ++ WideNames.widen written) =
  inl (MimeString mime).
Proof.
  intros Hlow Hin Hstem. unfold WideNames.getMimeTypeFromFileName.
  rewrite (@wide_extension stem written ext mime Hlow Hin).
  rewrite skipn_all2 by (rewrite (@lowered_length_same stem Hstem); apply le_n).
  cbn [app]. unfold WideNames.lookup.
  now rewrite narrow_widen, (@lookup_extension ext mime Hin).
Qed.

Lemma wide_getMimeTypeFromFileName_rejected
      (stem : WideNames.name) (written ext mime : jsstring) :
  toLowerCase written = ext ->
  In (ext, mime) EXT_TO_MIME_TYPE ->
  In WideNames.U0130 stem ->
  WideNames.getMimeTypeFromFileName (stem ++ WideNames.widen written) =
  inr (WideNames.InvalidInput
         (WideNames.widen "Unsupported file extension: " ++
          skipn (length stem) (WideNames.toLowerCase stem) ++
          WideNames.widen ext)
         (stem ++ WideNames.widen written)
         extensions).
Proof.
  intros Hlow Hin Hstem. unfold WideNames.getMimeTypeFromFileName.
  rewrite (@wide_extension stem written ext mime Hlow Hin).
  set (more := skipn (length stem) (WideNames.toLowerCase stem)).
  assert (Hmore : 0 < length more).
  { unfold more. rewrite length_skipn.
    pose proof (@lowered_length_longer stem Hstem). lia. }
  unfold WideNames.lookup.
  destruct (WideNames.narrow (more ++ WideNames.widen ext)) as [k|] eqn:E;
    [|reflexivity].
  destruct (@narrow_app more (WideNames.widen ext) k E)
    as (x & y & Hy & -> & Hlen).
  rewrite narrow_widen in Hy. injection Hy as <-.
  destruct (lookup (x ++ ext) EXT_TO_MIME_TYPE) as [m|] eqn:El;
    [|reflexivity].
  exfalso. apply (@lookup_dot (x ++ ext) m) in El.
  destruct (@extension_shape ext mime Hin) as (rest & -> & _).
  destruct x as [|c x]; [cbn in Hlen; lia|].
  cbn [app tl] in El. unfold without in El.
  rewrite forallb_app in El. cbn [forallb] in El.
  rewrite Ascii.eqb_refl in El. cbn [negb andb] in El.
  rewrite andb_false_r in El. discriminate.
Qed.

(** On a name made of code units below U+0100 the MIME type is found
    exactly when [ImageInput.getMimeTypeFromFileName] finds it. *)
Lemma wide_agrees (filename : jsstring) :
  match getMimeTypeFromFileName filename,
        WideNames.getMimeTypeFromFileName (WideNames.widen filename) with
  | inl m, inl m' => m = m'
  | inr e, inr (WideNames.InvalidInput message name supported) =>
      let ext :=
        substringFrom (lastIndexOf "." filename) (toLowerCase filename) in
      e = InvalidInputError
            ("Unsupported file extension: " ++ ext)
            (Some [("filename" : jsstring, JString filename);
                   ("supportedExtensions" : jsstring, strings extensions)])
            None /\
      message = WideNames.widen ("Unsupported file extension: " ++ ext) /\
      name = WideNames.widen filename /\
      supported = extensions
  | _, _ => False
  end.
Proof.
  assert (Hidx : forall s i found,
             WideNames.lastIndexOfFrom (WideNames.Latin1 ".") i found
                                       (WideNames.widen s) =
             lastIndexOfFrom "." i found s).
  { induction s as [|c s IH]; intros i found; [reflexivity|].
    cbn [WideNames.widen map WideNames.lastIndexOfFrom lastIndexOfFrom
         WideNames.unitEqb].
    apply IH. }
  assert (Hext :
            WideNames.substringFrom
              (WideNames.lastIndexOf (WideNames.Latin1 ".")
                                     (WideNames.widen filename))
              (WideNames.toLowerCase (WideNames.widen filename)) =
            WideNames.widen
              (substringFrom (lastIndexOf "." filename)
                             (toLowerCase filename))).
  { unfold WideNames.substringFrom, WideNames.lastIndexOf, substringFrom,
           lastIndexOf.
    rewrite Hidx, toLowerCase_widen. unfold WideNames.widen.
    apply skipn_map. }
  unfold getMimeTypeFromFileName, WideNames.getMimeTypeFromFileName.
  rewrite Hext. unfold WideNames.lookup. rewrite narrow_widen.
  destruct (lookup _ EXT_TO_MIME_TYPE) as [m|]; [reflexivity|].
  cbv zeta. split; [reflexivity|]. split; [|split; reflexivity].
  unfold WideNames.widen. now rewrite map_app.
Qed.

Section WideNormalize.
Variable readFile : WideNames.name -> list Byte.byte + JsError.

Lemma wide_normalizeLocalInput_supported
      (stem : WideNames.name) (written ext mime : jsstring)
      (bytes : list Byte.byte) :
  toLowerCase written = ext ->
  In (ext, mime) EXT_TO_MIME_TYPE ->
  ~ In WideNames.U0130 stem ->
  readFile (stem ++ WideNames.widen written) = inl bytes ->
  bytes <> [] ->
  WideNames.normalizeLocalInput readFile (stem ++ WideNames.widen written) =
  inl {| WideNames.type := local;
         WideNames.originalInput := stem ++ WideNames.widen written;
         WideNames.dataUrl :=
           "data:" ++ mime ++ ";base64," ++ Base64.encode bytes;
         WideNames.mimeType := mime |}.
Proof.
  intros Hlow Hin Hstem Hread Hne. unfold WideNames.normalizeLocalInput.
  rewrite Hread, (@wide_getMimeTypeFromFileName_supported
                    stem written ext mime Hlow Hin Hstem).
  destruct bytes as [|b bytes]; [contradiction|]. reflexivity.
Qed.

Lemma wide_normalizeLocalInput_rejected
      (stem : WideNames.name) (written ext mime : jsstring)
      (bytes : list Byte.byte) :
  toLowerCase written = ext ->
  In (ext, mime) EXT_TO_MIME_TYPE ->
  In WideNames.U0130 stem ->
  readFile (stem ++ WideNames.widen written) = inl bytes ->
  bytes <> [] ->
  WideNames.normalizeLocalInput readFile (stem ++ WideNames.widen written) =
  inr (WideNames.ImageLoad
         "Failed to read local file"
         (stem ++ WideNames.widen written)
         (Some (WideNames.InvalidInput
                  (WideNames.widen "Unsupported file extension: " ++
                   skipn (length stem) (WideNames.toLowerCase stem) ++
                   WideNames.widen ext)
                  (stem ++ WideNames.widen written)
                  extensions))).
Proof.
  intros Hlow Hin Hstem Hread Hne. unfold WideNames.normalizeLocalInput.
  rewrite Hread, (@wide_getMimeTypeFromFileName_rejected
                    stem written ext mime Hlow Hin Hstem).
  destruct bytes as [|b bytes]; [contradiction|]. reflexivity.
Qed.

End WideNormalize.

End WideNameFacts.

(* ================================================================== *)
(** * The round trip of a local file *)
(* ================================================================== *)

Import WideNameFacts.

(** C8.  For every entry (extension, MIME type) of the table and every
    non-empty file whose name ends in that extension (in any case),
    normalisation returns the data URL data:<mime>;base64,<payload> with
    that MIME type; the parser of data URLs reads the MIME type and the
    payload back from it, and the payload decodes to the bytes of the
    file.  That holds for a name made of code units below U+0100 (first
    part, through [normalizeImageInput]) and for a name of [WideNames]
    whose stem, the part before the extension, holds no U+0130 (fourth
    part, [normalizeLocalInput]).  A name whose stem holds U+0130 is
    refused (last part): its lower-case form is longer than the name, the
    extension is cut from the lower-case form at the index which the last
    dot has in the name as written, so what is looked up in the table is
    the extension after some code units of the stem; the lookup fails and
    the file is reported as one which could not be read. *)
Theorem C8_local_file_roundtrip :
  forall (parseURL : jsstring -> option URL)
         (readFile : jsstring -> list Byte.byte + JsError)
         (env : jsstring -> option jsstring)
         (base written ext mime : jsstring) (bytes : list Byte.byte)
         (wideReadFile : WideNames.name -> list Byte.byte + JsError)
         (stem : WideNames.name),
    In (ext, mime) EXT_TO_MIME_TYPE ->
    toLowerCase written = ext ->
    bytes <> [] ->
    let payload := Base64.encode bytes in
    let normalized :=
      {| ImageInput.type := local;
         ImageInput.originalInput := base ++ written;
         ImageInput.dataUrl := "data:" ++ mime ++ ";base64," ++ payload;
         ImageInput.mimeType := mime |} in
    let wide := stem ++ WideNames.widen written in
    (detectInputType (base ++ written) = local ->
     readFile (base ++ written) = inl bytes ->
     normalizeImageInput parseURL readFile env (base ++ written)
     = (inl normalized, [])) /\
    DataUrl.parseDataUrl (ImageInput.dataUrl normalized)
    = inl {| DataUrl.mimeType := mime; DataUrl.data := payload |} /\
    Base64.decode payload = Some bytes /\
    (wideReadFile wide = inl bytes ->
     ~ In WideNames.U0130 stem ->
     WideNames.normalizeLocalInput wideReadFile wide
     = inl {| WideNames.type := local;
              WideNames.originalInput := wide;
              WideNames.dataUrl := ImageInput.dataUrl normalized;
              WideNames.mimeType := mime |}) /\
    (wideReadFile wide = inl bytes ->
     In WideNames.U0130 stem ->
     WideNames.normalizeLocalInput wideReadFile wide
     = inr (WideNames.ImageLoad
              "Failed to read local file" wide
              (Some (WideNames.InvalidInput
                       (WideNames.widen "Unsupported file extension: " ++
                        skipn (length stem) (WideNames.toLowerCase stem) ++
                        WideNames.widen ext)
                       wide extensions)))).
Proof.
  intros parseURL readFile env base written ext mime bytes wideReadFile stem
         Hin Hlow Hne payload normalized wide.
  split; [|split; [|split; [|split]]].
  - intros Htype Hread. unfold normalizeImageInput. rewrite Htype.
    rewrite (@normalizeLocalInput_supported readFile base written ext mime
               bytes Hlow Hin Hread Hne).
    reflexivity.
  - apply (@parseDataUrl_built mime ext payload Hin).
    now apply encode_nonempty.
  - apply decode_encode.
  - intros Hread Hstem.
    exact (@wide_normalizeLocalInput_supported
             wideReadFile stem written ext mime bytes
             Hlow Hin Hstem Hread Hne).
  - intros Hread Hstem.
    exact (@wide_normalizeLocalInput_rejected
             wideReadFile stem written ext mime bytes
             Hlow Hin Hstem Hread Hne).
Qed.

Lemma C8_local_file_roundtrip_witness :
  normalizeImageInput simpleURL twoFiles noEnv ("/tmp/cat" ++ ".png")
  = (inl {| ImageInput.type := local;
            ImageInput.originalInput := "/tmp/cat" ++ ".png";
            ImageInput.dataUrl := "data:" ++ "image/png" ++ ";base64," ++
                                  Base64.encode fourBytes;
            ImageInput.mimeType := "image/png" |}, []) /\
  Base64.decode (Base64.encode fourBytes) = Some fourBytes /\
  WideNames.normalizeLocalInput dottedFile dottedName
  = inr (WideNames.ImageLoad
           "Failed to read local file" dottedName
           (Some (WideNames.InvalidInput
                    (WideNames.widen "Unsupported file extension: " ++
                     [WideNames.U0307] ++ WideNames.widen ".png")
                    dottedName extensions))).
Proof.
  assert (Hin : In (".png" : jsstring, "image/png" : jsstring)
                   EXT_TO_MIME_TYPE)
    by (right; right; left; reflexivity).
  assert (Hne : fourBytes <> []) by discriminate.
  pose proof (@C8_local_file_roundtrip
                simpleURL twoFiles noEnv "/tmp/cat" ".png" ".png" "image/png"
                fourBytes dottedFile [WideNames.U0130]
                Hin eq_refl Hne) as H.
  exact (conj (proj1 H eq_refl eq_refl)
              (conj (proj1 (proj2 (proj2 H)))
                    (proj2 (proj2 (proj2 (proj2 H))) eq_refl
                           (or_introl eq_refl)))).
Defined.

Module NormalizeErrorFacts.
Import JsString Regex Errors Logger ImageInput RegexFacts.

Section Errors.
Variable parseURL : jsstring -> option URL.
Variable readFile : jsstring -> list Byte.byte + JsError.

Lemma normalizeBase64Input_error (input : jsstring) (e : JsError) :
  normalizeBase64Input input = inr e ->
  exists cause,
    e = ImageLoadError "Invalid base64 data URL"
                       (Some [("input" : jsstring, JString input)])
                       (Some cause).
Proof.
  unfold normalizeBase64Input.
  match goal with
  | |- (match ?b with inl _ => _ | inr _ => _ end) = _ -> _ =>
      destruct b as [r|cause]
  end; [discriminate|].
  intros H. injection H as <-. now exists cause.
Qed.

Lemma normalizeLocalInput_error (input : jsstring) (e : JsError) :
  normalizeLocalInput readFile input = inr e ->
  exists cause,
    e = ImageLoadError
          (if hasSystemCode "ENOENT" cause then "File not found"
           else if hasSystemCode "EACCES" cause
                then "Permission denied reading file"
                else "Failed to read local file")
          (Some [("path" : jsstring, JString input)])
          (Some cause) /\
    (readFile input = inr cause \/
     hasSystemCode "ENOENT" cause = false /\
     hasSystemCode "EACCES" cause = false /\
     exists bytes,
       readFile input = inl bytes /\
       (bytes = [] /\
        cause = ImageLoadError "File is empty"
                               (Some [("path" : jsstring, JString input)])
                               None \/
        bytes <> [] /\ getMimeTypeFromFileName input = inr cause)).
Proof.
  unfold normalizeLocalInput.
  destruct (readFile input) as [bytes|cause] eqn:Hread.
  - destruct bytes as [|b bytes].
    + cbn. intros H. injection H as <-.
      exists (ImageLoadError "File is empty"
                             (Some [("path" : jsstring, JString input)])
                             None).
      split; [reflexivity|].
      right. split; [reflexivity|]. split; [reflexivity|].
      exists []. split; [reflexivity|]. left. split; reflexivity.
    + cbn [length Nat.eqb].
      destruct (getMimeTypeFromFileName input) as [mime|cause] eqn:Hm;
        [discriminate|].
      destruct (@getMimeTypeFromFileName_error input cause Hm)
        as (_ & H1 & H2 & _).
      rewrite H1, H2. intros H. injection H as <-.
      exists cause. rewrite H1, H2. split; [reflexivity|].
      right. split; [reflexivity|]. split; [reflexivity|].
      exists (b :: bytes). split; [reflexivity|]. right.
      split; [discriminate|reflexivity].
  - intros H. exists cause. split; [|now left].
    destruct (hasSystemCode "ENOENT" cause);
      [|destruct (hasSystemCode "EACCES" cause)];
      injection H as <-; reflexivity.
Qed.

Lemma normalizeUrlInput_error (input : jsstring) (strict : bool)
      (e : JsError) (log : list LogEntry) :
  normalizeUrlInput parseURL input strict = (inr e, log) ->
  log = [] /\
  exists cause,
    e = (match parseURL input with
         | None => InvalidInputError "Invalid URL format"
         | Some _ => ImageLoadError "Failed to process URL input"
         end) (Some [("input" : jsstring, JString input)]) (Some cause).
Proof.
  unfold normalizeUrlInput.
  destruct (parseURL input) as [u|] eqn:Hu.
  - destruct (negb (startsWith "http" (protocol u))).
    + cbn. intros H. injection H as <- <-. split; [reflexivity|].
      eexists. reflexivity.
    + destruct (negb (isImageUrl parseURL input)).
      * destruct strict.
        -- cbn. intros H. injection H as <- <-. split; [reflexivity|].
           eexists. reflexivity.
        -- cbn. discriminate.
      * cbn. discriminate.
  - cbn. intros H. injection H as <- <-. split; [reflexivity|].
    eexists. reflexivity.
Qed.

End Errors.
End NormalizeErrorFacts.

(* ================================================================== *)
(** * Further properties of image inputs *)
(* ================================================================== *)

Import SuffixFacts FileNameFacts.

(** X10.  Which file names have a known type.  For a name made of code
    units below U+0100: [getMimeTypeFromFileName] returns a string exactly
    when the name, in lower case, ends with an extension of the table, and
    the string is the type the table gives for that extension.  It also
    returns, without throwing, for the two names which are in lower case
    [constructor] and [__proto__]: the lookup in the table then finds the
    function [Object] and the object [Object.prototype], and that value is
    returned in the place of a type.  The test [isImageUrl] applied to the
    path of a URL reads the table's own keys only, and accepts exactly the
    paths for which [getMimeTypeFromFileName] returns a string.  Beyond
    U+00FF ([WideNames], which gives the same answers on the names below
    it): a name which ends with an extension of the table, in any case, has
    its type found exactly when what comes before the extension holds no
    U+0130; with one, the extension is cut at the wrong place and the name
    is refused. *)
Theorem file_name_types (filename : jsstring) :
  (forall mime : jsstring,
      getMimeTypeFromFileName filename = inl (MimeString mime) <->
      exists ext,
        In (ext, mime) EXT_TO_MIME_TYPE /\
        endsWith ext (toLowerCase filename) = true) /\
  (getMimeTypeFromFileName filename = inl ObjectFunction <->
   toLowerCase filename = "constructor") /\
  (getMimeTypeFromFileName filename = inl ObjectPrototype <->
   toLowerCase filename = "__proto__") /\
  (forall (parseURL : jsstring -> option URL) (input : jsstring) (u : URL),
      parseURL input = Some u ->
      pathname u = filename ->
      (isImageUrl parseURL input = true <->
       exists mime : jsstring,
         getMimeTypeFromFileName filename = inl (MimeString mime))) /\
  (forall m : MimeValue,
      WideNames.getMimeTypeFromFileName (WideNames.widen filename) = inl m <->
      getMimeTypeFromFileName filename = inl m) /\
  (forall (stem : WideNames.name) (written ext mime : jsstring),
      toLowerCase written = ext ->
      In (ext, mime) EXT_TO_MIME_TYPE ->
      (WideNames.getMimeTypeFromFileName (stem ++ WideNames.widen written) =
       inl (MimeString mime) <->
       ~ In WideNames.U0130 stem)).
Proof.
  assert (H : forall mime : jsstring,
             getMimeTypeFromFileName filename = inl (MimeString mime) <->
             exists ext,
               In (ext, mime) EXT_TO_MIME_TYPE /\
               endsWith ext (toLowerCase filename) = true).
  { intros mime. split; [apply suffix_accepted|].
    intros (ext & Hin & Hend). exact (accepted_suffix _ Hin Hend). }
  split; [exact H|].
  split; [apply (@inherited_name filename "constructor" ObjectFunction);
          [reflexivity|reflexivity|discriminate]|].
  split; [apply (@inherited_name filename "__proto__" ObjectPrototype);
          [reflexivity|reflexivity|discriminate]|].
  split; [|split].
  - intros parseURL input u Hu Hp. unfold isImageUrl. rewrite Hu, Hp.
    rewrite existsb_exists. split.
    + intros (ext & Hin & Hend). unfold extensions in Hin.
      apply in_map_iff in Hin. destruct Hin as ([e m] & He & Hin).
      cbn in He. subst e. exists m. apply H. now exists ext.
    + intros (mime & Hm). apply H in Hm. destruct Hm as (ext & Hin & Hend).
      exists ext. split; [|exact Hend].
      unfold extensions. apply in_map_iff. now exists (ext, mime).
  - intros m. pose proof (wide_agrees filename) as Hw.
    destruct (getMimeTypeFromFileName filename) as [a|e];
      destruct (WideNames.getMimeTypeFromFileName
                  (WideNames.widen filename)) as [b|e'];
      try contradiction.
    + subst b. split; intros E; injection E as <-; reflexivity.
    + split; discriminate.
  - intros stem written ext mime Hlow Hin. split.
    + intros Hm Hstem.
      rewrite (@wide_getMimeTypeFromFileName_rejected
                 stem written ext mime Hlow Hin Hstem) in Hm.
      discriminate.
    + exact (@wide_getMimeTypeFromFileName_supported
               stem written ext mime Hlow Hin).
Qed.

Import NormalizeErrorFacts.

(** X11.  The failures of [normalizeImageInput].  Whatever the input and
    the platform do, a failure is one of six errors of the taxonomy, each
    with details and a cause, and it comes with no call of [logger.warn],
    [logger.info] or [logger.error]: the log of the model, which holds
    those calls, is empty.  (The [logger.debug] calls which the source
    makes on every path are not part of that log.)  The code is
    INVALID_INPUT in one case only, an http(s) input which [new URL]
    rejects; every other failure has the code IMAGE_LOAD_ERROR.  The
    wrapper of the outermost [catch] ('Failed to normalize image input') is
    never produced. *)
Theorem normalizeImageInput_failures :
  forall (parseURL : jsstring -> option URL)
         (readFile : jsstring -> list Byte.byte + JsError)
         (env : jsstring -> option jsstring)
         (input : jsstring) (error : JsError) (log : list LogEntry),
    normalizeImageInput parseURL readFile env input = (inr error, log) ->
    log = [] /\
    (exists cls code message details cause,
        error = VisionMCPError cls code message (Some details) (Some cause) /\
        code = (match detectInputType input, parseURL input with
                | url, None => INVALID_INPUT
                | _, _ => IMAGE_LOAD_ERROR
                end) /\
        In message
           [("Invalid input: Invalid URL format" : jsstring);
            ("Failed to load image: Failed to process URL input" : jsstring);
            ("Failed to load image: Invalid base64 data URL" : jsstring);
            ("Failed to load image: File not found" : jsstring);
            ("Failed to load image: Permission denied reading file"
             : jsstring);
            ("Failed to load image: Failed to read local file" : jsstring)]).
Proof.
  intros parseURL readFile env input error log.
  unfold normalizeImageInput.
  destruct (detectInputType input) eqn:Htype.
  - (* url *)
    destruct (normalizeUrlInput parseURL input (strictValidation env))
      as [[r|e] l] eqn:Hn; [discriminate|].
    apply normalizeUrlInput_error in Hn. destruct Hn as (-> & cause & ->).
    destruct (parseURL input); cbn; intros H; injection H as <- <-;
      (split; [reflexivity|]); do 5 eexists;
      (split; [reflexivity|]); (split; [reflexivity|]); cbn; repeat (first [left; reflexivity | right]).
  - (* base64 *)
    unfold silent.
    destruct (normalizeBase64Input input) as [r|e] eqn:Hn; [discriminate|].
    apply normalizeBase64Input_error in Hn. destruct Hn as (cause & ->).
    cbn. intros H. injection H as <- <-. split; [reflexivity|].
    do 5 eexists. split; [reflexivity|]. split; [reflexivity|].
    cbn; repeat (first [left; reflexivity | right]).
  - (* local *)
    unfold silent.
    destruct (normalizeLocalInput readFile input) as [r|e] eqn:Hn;
      [discriminate|].
    apply normalizeLocalInput_error in Hn.
    destruct Hn as (cause & -> & _).
    cbn -[hasSystemCode]. intros H. injection H as <- <-.
    split; [reflexivity|].
    destruct (hasSystemCode _ cause);
      [|destruct (hasSystemCode _ cause)];
      do 5 eexists; (split; [reflexivity|]); (split; [reflexivity|]);
      cbn; repeat (first [left; reflexivity | right]).
Qed.

Lemma normalizeImageInput_failures_witness :
  ([] : list LogEntry) = [] /\
  (exists cls code message details cause,
      ImageLoadError "File not found"
                     (Some [("path" : jsstring, JString "/tmp/none.png")])
                     (Some (SystemError "ENOENT" "no such file or directory"))
      = VisionMCPError cls code message (Some details) (Some cause) /\
      code = (match detectInputType "/tmp/none.png",
                    simpleURL "/tmp/none.png" with
              | url, None => INVALID_INPUT
              | _, _ => IMAGE_LOAD_ERROR
              end) /\
      In message
         [("Invalid input: Invalid URL format" : jsstring);
          ("Failed to load image: Failed to process URL input" : jsstring);
          ("Failed to load image: Invalid base64 data URL" : jsstring);
          ("Failed to load image: File not found" : jsstring);
          ("Failed to load image: Permission denied reading file"
           : jsstring);
          ("Failed to load image: Failed to read local file" : jsstring)]).
Proof.
  exact (@normalizeImageInput_failures simpleURL twoFiles noEnv
           "/tmp/none.png" _ [] eq_refl).
Defined.

(** X12.  What goes wrong with a local file, and how it is reported.  A
    failure of [normalizeLocalInput] is an [ImageLoadError] with the path
    in its details: 'File not found' when [readFile] fails with ENOENT,
    'Permission denied reading file' when it fails with EACCES, and
    'Failed to read local file' otherwise, which covers every other
    failure of [readFile] but also the two errors the function throws
    itself, 'File is empty' for a file of no bytes and the unsupported
    extension of a file which was read: these reach the caller as the
    cause only. *)
Theorem normalizeLocalInput_failures :
  forall (readFile : jsstring -> list Byte.byte + JsError)
         (input : jsstring) (error : JsError),
    normalizeLocalInput readFile input = inr error ->
    exists cause,
      error = ImageLoadError
                (if hasSystemCode "ENOENT" cause then "File not found"
                 else if hasSystemCode "EACCES" cause
                      then "Permission denied reading file"
                      else "Failed to read local file")
                (Some [("path" : jsstring, JString input)])
                (Some cause) /\
      (readFile input = inr cause \/
       hasSystemCode "ENOENT" cause = false /\
       hasSystemCode "EACCES" cause = false /\
       exists bytes,
         readFile input = inl bytes /\
         (bytes = [] /\
          cause = ImageLoadError "File is empty"
                                 (Some [("path" : jsstring, JString input)])
                                 None \/
          bytes <> [] /\ getMimeTypeFromFileName input = inr cause)).
Proof.
  intros readFile input error H.
  exact (@normalizeLocalInput_error readFile input error H).
Qed.

Lemma normalizeLocalInput_failures_witness :
  exists cause,
    ImageLoadError "File not found"
                   (Some [("path" : jsstring, JString "/tmp/none.png")])
                   (Some (SystemError "ENOENT" "no such file or directory"))
    = ImageLoadError
        (if hasSystemCode "ENOENT" cause then "File not found"
         else if hasSystemCode "EACCES" cause
              then "Permission denied reading file"
              else "Failed to read local file")
        (Some [("path" : jsstring, JString "/tmp/none.png")])
        (Some cause) /\
    (twoFiles "/tmp/none.png" = inr cause \/
     hasSystemCode "ENOENT" cause = false /\
     hasSystemCode "EACCES" cause = false /\
     exists bytes,
       twoFiles "/tmp/none.png" = inl bytes /\
       (bytes = [] /\
        cause = ImageLoadError
                  "File is empty"
                  (Some [("path" : jsstring, JString "/tmp/none.png")])
                  None \/
        bytes <> [] /\ getMimeTypeFromFileName "/tmp/none.png" = inr cause)).
Proof.
  exact (@normalizeLocalInput_failures twoFiles "/tmp/none.png" _ eq_refl).
Defined.

(** X13.  What a successful normalisation returns.  The result names the
    kind [detectInputType] found and the input as it was given.  For a URL
    the canonical form is the URL itself and the type is the wildcard
    image/*; for a base64 data URL it is the input itself, with one of the
    four supported types in lower case; for a local path (of code units
    below U+0100) it is a data URL built from the text of the MIME value
    and the base64 text of the bytes read, which are not empty.  The MIME
    value is the table's type for an extension the lower-cased path ends
    with, except for a path which in lower case is [constructor] or
    [__proto__]: there it is the function [Object] or the object
    [Object.prototype], which the table inherits, and not a string. *)
Theorem normalizeImageInput_result :
  forall (parseURL : jsstring -> option URL)
         (readFile : jsstring -> list Byte.byte + JsError)
         (env : jsstring -> option jsstring)
         (input : jsstring) (r : NormalizedImageInput)
         (log : list LogEntry),
    normalizeImageInput parseURL readFile env input = (inl r, log) ->
    ImageInput.type r = detectInputType input /\
    originalInput r = input /\
    match ImageInput.type r with
    | url =>
        dataUrl r = input /\ ImageInput.mimeType r = "image/*" /\
        exists u, parseURL input = Some u /\
                  startsWith "http" (protocol u) = true
    | base64 =>
        dataUrl r = input /\
        (exists mime : jsstring,
            ImageInput.mimeType r = MimeString mime /\
            In mime SUPPORTED_MIME_TYPES) /\
        log = []
    | local =>
        ((exists ext mime : jsstring,
             ImageInput.mimeType r = MimeString mime /\
             In (ext, mime) EXT_TO_MIME_TYPE /\
             endsWith ext (toLowerCase input) = true) \/
         (ImageInput.mimeType r = ObjectFunction /\
          toLowerCase input = "constructor") \/
         (ImageInput.mimeType r = ObjectPrototype /\
          toLowerCase input = "__proto__")) /\
        log = [] /\
        exists bytes,
          readFile input = inl bytes /\ bytes <> [] /\
          dataUrl r =
          "data:" ++ mimeText (ImageInput.mimeType r) ++ ";base64," ++
          Base64.encode bytes
    end.
Proof.
  intros parseURL readFile env input r log.
  unfold normalizeImageInput.
  destruct (detectInputType input) eqn:Htype.
  - unfold normalizeUrlInput.
    destruct (parseURL input) as [u|] eqn:Hu; [|cbn; discriminate].
    destruct (startsWith "http" (protocol u)) eqn:Hp; cbn [negb];
      [|cbn; discriminate].
    destruct (negb (isImageUrl parseURL input)).
    + destruct (strictValidation env); [cbn; discriminate|].
      cbn. intros H. injection H as <- <-. cbn.
      repeat split. now exists u.
    + cbn. intros H. injection H as <- <-. cbn.
      repeat split. now exists u.
  - unfold silent, normalizeBase64Input.
    destruct (negb (includes "," input) ||
              negb (length (split "," input) =? 2)%nat);
      [cbn; discriminate|].
    unfold getMimeTypeFromDataUrl.
    destruct (execFrom pat_data_url None input) as [matched|];
      [|cbn; discriminate].
    destruct (existsb _ SUPPORTED_MIME_TYPES) eqn:Hs; [|cbn; discriminate].
    destruct (negb (truthy (nth 1 (split "," input) [])) ||
              (length (nth 1 (split "," input) []) =? 0)%nat);
      [cbn; discriminate|].
    cbn. intros H. injection H as <- <-. cbn.
    split; [reflexivity|]. split; [reflexivity|]. split; [reflexivity|].
    split; [|reflexivity].
    eexists. split; [reflexivity|].
    apply existsb_exists in Hs. destruct Hs as (m & Hin & Heq).
    apply eqb_eq in Heq. now subst m.
  - unfold silent, normalizeLocalInput.
    destruct (readFile input) as [bytes|e] eqn:Hread.
    + destruct bytes as [|b bytes]; [cbn; discriminate|].
      cbn [length Nat.eqb].
      destruct (getMimeTypeFromFileName input) as [m|e] eqn:Hm;
        [|destruct (hasSystemCode "ENOENT" e);
          [|destruct (hasSystemCode "EACCES" e)]; cbn; discriminate].
      intros H. cbn in H. injection H as <- <-.
      cbn [ImageInput.type originalInput dataUrl ImageInput.mimeType].
      split; [reflexivity|]. split; [reflexivity|]. split.
      * destruct m as [mime| |].
        -- left. apply suffix_accepted in Hm.
           destruct Hm as (ext & Hin & Hend). now exists ext, mime.
        -- right. left. split; [reflexivity|].
           now apply (@file_name_inherited input "constructor" ObjectFunction).
        -- right. right. split; [reflexivity|].
           now apply (@file_name_inherited input "__proto__" ObjectPrototype).
      * split; [reflexivity|]. exists (b :: bytes).
        split; [reflexivity|]. split; [discriminate|reflexivity].
    + destruct (hasSystemCode "ENOENT" e);
        [|destruct (hasSystemCode "EACCES" e)]; cbn; discriminate.
Qed.

Lemma normalizeImageInput_result_witness :
  ImageInput.type
    {| ImageInput.type := local;
       originalInput := "/tmp/cat.png";
       dataUrl := "data:image/png;base64,iVBORw==";
       ImageInput.mimeType := "image/png" |} =
  detectInputType "/tmp/cat.png" /\
  originalInput
    {| ImageInput.type := local;
       originalInput := "/tmp/cat.png";
       dataUrl := "data:image/png;base64,iVBORw==";
       ImageInput.mimeType := "image/png" |} = "/tmp/cat.png" /\
  ((exists ext mime : jsstring,
       MimeString "image/png" = MimeString mime /\
       In (ext, mime) EXT_TO_MIME_TYPE /\
       endsWith ext (toLowerCase "/tmp/cat.png") = true) \/
   (MimeString "image/png" = ObjectFunction /\
    toLowerCase "/tmp/cat.png" = "constructor") \/
   (MimeString "image/png" = ObjectPrototype /\
    toLowerCase "/tmp/cat.png" = "__proto__")) /\
  ([] : list LogEntry) = [] /\
  exists bytes,
    twoFiles "/tmp/cat.png" = inl bytes /\ bytes <> [] /\
    ("data:image/png;base64,iVBORw==" : jsstring) =
    "data:" ++ "image/png" ++ ";base64," ++ Base64.encode bytes.
Proof.
  exact (@normalizeImageInput_result simpleURL twoFiles noEnv
           "/tmp/cat.png"
           {| ImageInput.type := local;
              originalInput := "/tmp/cat.png";
              dataUrl := "data:image/png;base64,iVBORw==";
              ImageInput.mimeType := "image/png" |} [] eq_refl).
Defined.

(* ================================================================== *)
(** * Facts about data URLs *)
(* ================================================================== *)

Module DataUrlFacts.
Import JsString Regex Errors Base64 Logger ImageInput DataUrl.
Import RegexFacts Base64Facts ImageInputFacts SuffixFacts FileNameFacts.

Lemma split_none (c : ascii) (s : jsstring) :
  without c s = true -> split c s = [s].
Proof.
  induction s as [|x s IH]; [reflexivity|].
  cbn [without forallb split]. intros H. apply andb_true_iff in H.
  destruct H as [Hx Hs]. apply negb_true_iff in Hx. rewrite Hx.
  fold (without c s) in Hs. now rewrite (IH Hs).
Qed.

Lemma split_once (c : ascii) (a b : jsstring) :
  without c a = true -> split c (a ++ c :: b) = a :: split c b.
Proof.
  induction a as [|x a IH]; intros H.
  - cbn [app split]. now rewrite Ascii.eqb_refl.
  - cbn [without forallb] in H. apply andb_true_iff in H.
    destruct H as [Hx Ha]. apply negb_true_iff in Hx.
    cbn [app split]. rewrite Hx. fold (without c a) in Ha.
    now rewrite (IH Ha).
Qed.

Lemma split_cons (c : ascii) (s : jsstring) : split c s <> [].
Proof.
  induction s as [|x s IH]; [discriminate|].
  cbn [split]. destruct (Ascii.eqb x c); [discriminate|].
  now destruct (split c s).
Qed.

Lemma split_one (c : ascii) (s : jsstring) :
  length (split c s) = 1 -> without c s = true.
Proof.
  induction s as [|y s IH]; [reflexivity|].
  cbn [split without forallb]. destruct (Ascii.eqb y c) eqn:Ey.
  - cbn [length]. destruct (split c s) eqn:Es; [|discriminate].
    now pose proof (@split_cons c s).
  - cbn [negb andb]. intros H. apply IH.
    destruct (split c s) as [|w ws] eqn:Es; [|exact H].
    now pose proof (@split_cons c s).
Qed.

(** A string cut in exactly two by its separator. *)
Lemma split_two (c : ascii) (s : jsstring) :
  length (split c s) = 2 ->
  exists a b,
    s = a ++ c :: b /\ without c a = true /\ without c b = true /\
    split c s = [a; b].
Proof.
  induction s as [|x s IH]; [discriminate|].
  cbn [split]. destruct (Ascii.eqb x c) eqn:E.
  - apply Ascii.eqb_eq in E. subst x. cbn [length]. intros H.
    assert (Hs : without c s = true) by (apply split_one; lia).
    exists [], s. rewrite (@split_none c s Hs). repeat split. exact Hs.
  - destruct (split c s) as [|w ws] eqn:Es;
      [now pose proof (@split_cons c s)|].
    cbn [length]. intros H.
    destruct (IH H) as (a & b & -> & Ha & Hb & Hsplit).
    injection Hsplit as -> ->.
    exists (x :: a), b. repeat split; try assumption.
    change (negb (Ascii.eqb x c) && without c a = true).
    now rewrite E, Ha.
Qed.

Lemma unique_separator (c : ascii) (a b : jsstring) :
  without c a = true -> without c b = true ->
  forall x y, a ++ c :: b = x ++ c :: y -> x = a /\ y = b.
Proof.
  intros Ha Hb. revert Ha.
  induction a as [|h a IH]; intros Ha x y H.
  - destruct x as [|k x].
    + injection H as <-. now split.
    + injection H as <- ->. exfalso.
      unfold without in Hb. rewrite forallb_app in Hb.
      apply andb_true_iff in Hb. destruct Hb as [_ Hb].
      cbn [forallb] in Hb. now rewrite Ascii.eqb_refl in Hb.
  - cbn [without forallb] in Ha. apply andb_true_iff in Ha.
    destruct Ha as [Hh Ha]. destruct x as [|k x].
    + injection H as -> _. now rewrite Ascii.eqb_refl in Hh.
    + injection H as <- H. destruct (IH Ha x y H) as [-> ->]. now split.
Qed.

Lemma app_inv_length (A : Type) (l1 : list A) :
  forall l1' l2 l2',
    l1 ++ l2 = l1' ++ l2' -> length l2 = length l2' ->
    l1 = l1' /\ l2 = l2'.
Proof.
  induction l1 as [|x l1 IH]; intros l1' l2 l2' H Hl.
  - destruct l1' as [|y l1']; [now split|].
    cbn in H. subst l2. cbn in Hl. rewrite length_app in Hl. lia.
  - destruct l1' as [|y l1'].
    + cbn in H. subst l2'. cbn in Hl. rewrite length_app in Hl. lia.
    + injection H as <- H. destruct (IH _ _ _ H Hl) as [-> ->]. now split.
Qed.

Lemma includes_decompose (w : jsstring) :
  forall s, includes w s = true -> exists x y, s = x ++ w ++ y.
Proof.
  induction s as [|c s IH]; cbn [includes]; intros H.
  - rewrite orb_false_r in H. apply startsWith_decompose in H.
    exists [], (skipn (length w) []). exact H.
  - apply orb_true_iff in H. destruct H as [H|H].
    + apply startsWith_decompose in H.
      exists [], (skipn (length w) (c :: s)). exact H.
    + destruct (IH H) as (x & y & ->). now exists (c :: x), y.
Qed.

Lemma includes_separator (c : ascii) (a b : jsstring) :
  includes [c] (a ++ c :: b) = true.
Proof.
  induction a as [|x a IH]; cbn [app includes startsWith].
  - now rewrite Ascii.eqb_refl.
  - rewrite IH. apply orb_true_r.
Qed.

Lemma indexOfFrom_first (c : ascii) (a b : jsstring) :
  without c a = true ->
  forall i, indexOfFrom c i (a ++ c :: b) = (i + Z.of_nat (length a))%Z.
Proof.
  induction a as [|x a IH]; intros Ha i.
  - cbn. rewrite Ascii.eqb_refl. lia.
  - cbn [without forallb] in Ha. apply andb_true_iff in Ha.
    destruct Ha as [Hx Ha]. apply negb_true_iff in Hx.
    cbn [app indexOfFrom]. rewrite Hx, (IH Ha). cbn [length]. lia.
Qed.

(** Greedy repetition: what was consumed is a run of the class, and the
    continuation succeeded where the run stops. *)
Lemma star_greedy_inv (p : ascii -> bool) (k : cont) (rest : jsstring) :
  forall s prev,
    star true p k prev s = Some rest ->
    exists run t q,
      s = run ++ t /\ forallb p run = true /\ k q t = Some rest.
Proof.
  induction s as [|c s IH]; intros prev H.
  - exists [], [], prev. now repeat split.
  - cbn [star] in H. destruct (p c) eqn:Hp.
    + destruct (star true p k (Some c) s) as [r|] eqn:Hs.
      * injection H as ->. destruct (IH _ Hs) as (run & t & q & -> & Hr & Hk).
        exists (c :: run), t, q. repeat split; [|exact Hk].
        cbn [forallb]. now rewrite Hp, Hr.
      * exists [], (c :: s), prev. now repeat split.
    + exists [], (c :: s), prev. now repeat split.
Qed.

Lemma execFrom_anchored (r : regex) (s : jsstring) :
  forall c, execFrom (Seq Bos r) (Some c) s = None.
Proof.
  induction s as [|x s IH]; intros c; cbn [execFrom]; unfold matchHere;
    cbn [rmatch]; [reflexivity|apply IH].
Qed.

Lemma eqb_ci_comma (x : ascii) : eqb_ci "," x = true -> x = ","%char.
Proof.
  destruct x as [[] [] [] [] [] [] [] []]; cbn; intros H;
    try discriminate H; reflexivity.
Qed.

Lemma startsWithI_length (w : jsstring) :
  forall s, startsWithI w s = true -> length w <= length s.
Proof.
  induction w as [|x w IH]; intros s H; [cbn; lia|].
  destruct s as [|y s]; [discriminate|].
  cbn [startsWithI] in H. apply andb_true_iff in H. destruct H as [_ H].
  cbn [length]. specialize (IH _ H). lia.
Qed.

Lemma execFrom_data_url_later (c : ascii) (s : jsstring) :
  execFrom pat_data_url (Some c) s = None.
Proof. unfold pat_data_url. cbn [seqs]. apply execFrom_anchored. Qed.

Lemma matchHere_data_url (s : jsstring) :
  matchHere pat_data_url None ("data:image/" ++ s) =
  match rmatch (plus (fun c => negb (Ascii.eqb c ";"))) (Some "/"%char) s
               (fun prev' s' => rmatch (litI ";base64,") prev' s' accept)
  with
  | Some rest => Some (length ("data:image/" ++ s) - length rest)
  | None => None
  end.
Proof. reflexivity. Qed.

(** What the pattern of [getMimeTypeFromDataUrl] matches on an input
    which starts with data:image/ as written. *)
Lemma exec_data_url (s matched : jsstring) :
  execFrom pat_data_url None ("data:image/" ++ s) = Some matched ->
  exists c0 run m rest,
    s = c0 :: run ++ m ++ rest /\
    Ascii.eqb c0 ";" = false /\ without ";" run = true /\
    length m = 8 /\ startsWithI ";base64," m = true /\
    matched = "data:image/" ++ c0 :: run ++ m.
Proof.
  change (execFrom pat_data_url None ("data:image/" ++ s))
    with (match matchHere pat_data_url None ("data:image/" ++ s) with
          | Some len => Some (firstn len ("data:image/" ++ s))
          | None => execFrom pat_data_url (Some "d"%char) ("ata:image/" ++ s)
          end).
  rewrite execFrom_data_url_later, matchHere_data_url.
  destruct s as [|c0 s]; [discriminate|].
  cbn [plus rmatch]. destruct (Ascii.eqb c0 ";") eqn:Hc0; cbn [negb];
    [discriminate|].
  destruct (star true _ _ (Some c0) s) as [rest|] eqn:Hstar; [|discriminate].
  intros H. injection H as <-.
  apply star_greedy_inv in Hstar.
  destruct Hstar as (run & t & q & -> & Hrun & Hk).
  rewrite rmatch_litI in Hk.
  destruct (startsWithI ";base64," t) eqn:Ht; [|discriminate].
  injection Hk as <-.
  pose proof (@startsWithI_length _ _ Ht) as Hlen. cbn in Hlen.
  exists c0, run, (firstn 8 t), (skipn 8 t).
  rewrite firstn_skipn. split; [reflexivity|].
  split; [exact Hc0|]. split; [exact Hrun|].
  split; [rewrite length_firstn; lia|].
  split.
  { rewrite <- (firstn_skipn 8 t) in Ht.
    revert Ht. generalize (skipn 8 t).
    assert (Hl : length (firstn 8 t) = 8)
      by (rewrite length_firstn; lia).
    revert Hl. generalize (firstn 8 t). intros m Hl tl.
    do 9 (destruct m as [|? m]; try discriminate Hl).
    cbn [app startsWithI]. intros H. exact H. }
  { match goal with
    | |- firstn ?n _ = _ =>
        replace n with (12 + (length run + 8))
    end.
    - cbn [Nat.add firstn app list_ascii_of_string]. do 12 f_equal.
      rewrite firstn_app.
      replace (length run + 8 - length run) with 8 by lia.
      rewrite firstn_all2 by lia. reflexivity.
    - change (12 + (length run + 8) =
              12 + length (run ++ t) - length (skipn 8 t)).
      rewrite length_skipn, length_app. lia. }
Qed.

Lemma without_app (c : ascii) (a b : jsstring) :
  without c (a ++ b) = without c a && without c b.
Proof. unfold without. apply forallb_app. Qed.

(** [parseDataUrl] reads back a data URL made of a type without comma or
    semicolon and a payload which is not empty. *)
Lemma parseDataUrl_meta (mime payload : jsstring) :
  without "," mime = true -> without ";" mime = true ->
  payload <> [] ->
  parseDataUrl ("data:" ++ mime ++ ";base64," ++ payload) =
  if startsWith "image/" mime
  then inl {| DataUrl.mimeType := mime; data := payload |}
  else inr (OtherError "Error" ("Invalid MIME type in data URL: " ++ mime)).
Proof.
  intros Hcomma Hsemi Hpayload.
  set (meta := "data:" ++ mime ++ ";base64").
  assert (Hinput : "data:" ++ mime ++ ";base64," ++ payload =
                   meta ++ ","%char :: payload).
  { unfold meta. rewrite <- !app_assoc. reflexivity. }
  assert (Hmeta : without "," meta = true).
  { unfold meta. rewrite !without_app, Hcomma. reflexivity. }
  rewrite Hinput. unfold parseDataUrl.
  replace (startsWith "data:" (meta ++ ","%char :: payload)) with true
    by (unfold meta; rewrite <- app_assoc; symmetry;
        apply startsWith_prefix).
  cbn [negb]. unfold indexOf.
  rewrite (@indexOfFrom_first "," meta payload Hmeta 0%Z).
  rewrite Z.add_0_l.
  replace (Z.of_nat (length meta) =? -1)%Z with false
    by (symmetry; apply Z.eqb_neq; lia).
  unfold substringFrom, substring.
  replace (Z.to_nat (Z.of_nat (length meta) + 1)) with (length meta + 1)
    by lia.
  rewrite Nat2Z.id.
  replace (skipn (length meta + 1) (meta ++ ","%char :: payload)) with payload.
  2:{ rewrite skipn_app.
      replace (length meta + 1 - length meta) with 1 by lia.
      rewrite skipn_all2 by lia. reflexivity. }
  destruct payload as [|p0 payload]; [contradiction|].
  cbn [truthy negb].
  replace (firstn (length meta - Z.to_nat 5)
                  (skipn (Z.to_nat 5) (meta ++ ","%char :: p0 :: payload)))
    with (mime ++ ";"%char :: "base64").
  2:{ change (Z.to_nat 5) with 5.
      assert (Hlen : length meta = 5 + length (mime ++ ";base64"))
        by (unfold meta; rewrite length_app; reflexivity).
      rewrite Hlen.
      replace (5 + length (mime ++ ";base64") - 5)
        with (length (mime ++ ";base64")) by lia.
      unfold meta. rewrite <- app_assoc.
      cbn [skipn app list_ascii_of_string].
      rewrite firstn_app, firstn_all, Nat.sub_diag.
      cbn [firstn]. rewrite app_nil_r. reflexivity. }
  rewrite (@split_once ";" mime "base64" Hsemi).
  rewrite (@split_none ";" "base64" eq_refl).
  cbn [hd]. destruct (startsWith "image/" mime); cbn [negb existsb];
    [|reflexivity].
  rewrite (eqb_refl "base64"), !orb_true_r. reflexivity.
Qed.

Lemma parseDataUrl_shape (mime payload : jsstring) :
  without "," mime = true -> without ";" mime = true ->
  startsWith "image/" mime = true -> payload <> [] ->
  parseDataUrl ("data:" ++ mime ++ ";base64," ++ payload) =
  inl {| DataUrl.mimeType := mime; data := payload |}.
Proof.
  intros Hcomma Hsemi Himage Hpayload.
  rewrite (@parseDataUrl_meta mime payload Hcomma Hsemi Hpayload).
  now rewrite Himage.
Qed.

(** A base64 input which [detectInputType] recognises and
    [normalizeBase64Input] accepts is data:, a type, ;base64, and a
    payload, as written. *)
Lemma normalizeBase64Input_shape (input : jsstring)
      (r : NormalizedImageInput) :
  startsWith "data:image/" input = true ->
  includes ";base64," input = true ->
  normalizeBase64Input input = inl r ->
  exists mime payload,
    input = "data:" ++ mime ++ ";base64," ++ payload /\
    without "," mime = true /\ without ";" mime = true /\
    startsWith "image/" mime = true /\ payload <> [] /\
    r = {| ImageInput.type := base64;
           originalInput := input;
           dataUrl := input;
           ImageInput.mimeType := toLowerCase mime |} /\
    In (toLowerCase mime) SUPPORTED_MIME_TYPES.
Proof.
  intros Hprefix Hbase64. unfold normalizeBase64Input.
  destruct (includes "," input) eqn:Hinc; cbn [negb orb];
    [|discriminate].
  destruct (length (split "," input) =? 2)%nat eqn:Hsplit; cbn [negb];
    [|discriminate].
  apply Nat.eqb_eq in Hsplit.
  destruct (@split_two "," input Hsplit) as (a & b & Hinput & Ha & Hb & Hab).
  unfold getMimeTypeFromDataUrl.
  destruct (execFrom pat_data_url None input) as [matched|] eqn:Hexec;
    [|discriminate].
  destruct (existsb _ SUPPORTED_MIME_TYPES) eqn:Hsupported; [|discriminate].
  rewrite Hab. cbn [nth].
  destruct b as [|b0 b]; [discriminate|]. cbn [truthy negb length Nat.eqb orb].
  intros H. injection H as <-.
  (* the shape of the match *)
  apply startsWith_decompose in Hprefix.
  set (s := skipn (length (list_ascii_of_string "data:image/")) input)
    in Hprefix.
  rewrite Hprefix in Hexec.
  apply exec_data_url in Hexec.
  destruct Hexec as (c0 & run & m & rest & Hs & Hc0 & Hrun & Hm & HmI & ->).
  (* the comma of the match is the only comma *)
  assert (Hm8 : exists m7, m = m7 ++ [","%char] /\ length m7 = 7 /\
                           startsWithI ";base64" m7 = true).
  { do 9 (destruct m as [|? m]; try discriminate Hm).
    cbn [startsWithI list_ascii_of_string] in HmI.
    repeat (apply andb_true_iff in HmI; destruct HmI as [? HmI]).
    match goal with H : eqb_ci "," ?x = true |- _ =>
      apply eqb_ci_comma in H; subst x end.
    eexists [_; _; _; _; _; _; _]. split; [reflexivity|].
    split; [reflexivity|]. cbn [startsWithI list_ascii_of_string].
    repeat (apply andb_true_iff; split; try assumption). }
  destruct Hm8 as (m7 & -> & Hm7 & Hm7I).
  assert (Hin1 : a ++ ","%char :: b0 :: b =
                 ("data:image/" ++ c0 :: run ++ m7) ++ ","%char :: rest).
  { rewrite <- Hinput, Hprefix, Hs. rewrite <- !app_assoc.
    cbn [app]. rewrite <- !app_assoc. reflexivity. }
  destruct (@unique_separator "," a (b0 :: b) Ha Hb _ _ Hin1) as [Ha1 Hrest].
  (* the text ;base64, as written ends at the same comma *)
  destruct (@includes_decompose ";base64," input Hbase64) as (x & y & Hxy).
  assert (Hin2 : a ++ ","%char :: b0 :: b = (x ++ ";base64") ++ ","%char :: y).
  { rewrite <- Hinput, Hxy. rewrite <- !app_assoc. reflexivity. }
  destruct (@unique_separator "," a (b0 :: b) Ha Hb _ _ Hin2) as [Ha2 _].
  assert (Hm7eq : m7 = ";base64").
  { rewrite <- Ha1 in Ha2.
    assert (E : "data:image/" ++ c0 :: run ++ m7 =
                ("data:image/" ++ c0 :: run) ++ m7)
      by (rewrite <- app_assoc; reflexivity).
    rewrite E in Ha2.
    apply app_inv_length in Ha2; [|now rewrite Hm7].
    symmetry. apply Ha2. }
  subst m7.
  exists ("image/" ++ c0 :: run), (b0 :: b).
  assert (Hcommafree : without "," ("image/" ++ c0 :: run) = true).
  { rewrite <- Ha1 in Ha.
    change ("data:image/" ++ c0 :: run ++ ";base64")
      with ("data:" ++ ("image/" ++ c0 :: run) ++ ";base64") in Ha.
    rewrite !without_app in Ha.
    apply andb_true_iff in Ha. destruct Ha as [_ Ha].
    apply andb_true_iff in Ha. now destruct Ha. }
  assert (Hgroup : group1 ("data:image/" ++ c0 :: run ++ ";base64" ++ [","%char]) =
                   "image/" ++ c0 :: run).
  { unfold group1.
    change (skipn 5 ("data:image/" ++ c0 :: run ++ ";base64" ++ [","%char]))
      with (("image/" ++ c0 :: run) ++ ";base64,").
    replace (length ("data:image/" ++ c0 :: run ++ ";base64" ++ [","%char]) - 13)
      with (length ("image/" ++ c0 :: run)).
    - rewrite firstn_app, firstn_all, Nat.sub_diag. cbn [firstn].
      now rewrite app_nil_r.
    - cbn [app length list_ascii_of_string]. rewrite !length_app.
      cbn [length]. lia. }
  rewrite Hgroup in *.
  split.
  { rewrite Hinput, <- Ha1. cbn [app list_ascii_of_string].
    rewrite <- app_assoc. reflexivity. }
  split; [exact Hcommafree|].
  split.
  { change (without ";" ("image/" ++ c0 :: run))
      with (negb (Ascii.eqb c0 ";") && without ";" run).
    now rewrite Hc0, Hrun. }
  split; [reflexivity|]. split; [discriminate|].
  split; [reflexivity|].
  apply existsb_exists in Hsupported.
  destruct Hsupported as (t & Hin & Heq). apply eqb_eq in Heq. now subst t.
Qed.

End DataUrlFacts.

Module Base64MoreFacts.
Import JsString Base64 Base64Facts.

Lemma alphabet_without (c : ascii) (k : nat) :
  without c (pad :: alphabet) = true ->
  Ascii.eqb (nth k alphabet pad) c = false.
Proof.
  intros H. unfold without in H. rewrite forallb_forall in H.
  apply negb_true_iff. apply H.
  destruct (Nat.ltb_spec k (length alphabet)) as [Hk|Hk].
  - right. now apply nth_In.
  - left. now rewrite nth_overflow.
Qed.

(** The base64 text of [n] bytes has [4 * ceil (n / 3)] characters, none
    of them outside the alphabet and the padding character. *)
Lemma encode_length (bytes : list Byte.byte) :
  length (encode bytes) = 4 * ((length bytes + 2) / 3).
Proof.
  induction bytes as [| a | a b | a b c rest IH] using list_ind3;
    try reflexivity.
  rewrite encode_cons3, length_app, IH.
  change (length (encode [a; b; c])) with 4.
  change (length (a :: b :: c :: rest)) with (3 + length rest).
  replace (3 + length rest + 2) with (1 * 3 + (length rest + 2)) by lia.
  rewrite Nat.div_add_l by lia. lia.
Qed.

Lemma encode_without (c : ascii) (bytes : list Byte.byte) :
  without c (pad :: alphabet) = true ->
  without c (encode bytes) = true.
Proof.
  intros H.
  assert (Hs : forall n, negb (Ascii.eqb (sextetChar n) c) = true).
  { intros n. unfold sextetChar. now rewrite alphabet_without. }
  assert (Hp : negb (Ascii.eqb pad c) = true).
  { unfold without in H. cbn [forallb] in H.
    apply andb_true_iff in H. now destruct H. }
  induction bytes as [| a | a b | a b c' rest IH] using list_ind3.
  - reflexivity.
  - cbn [encode without forallb]. now rewrite !Hs, !Hp.
  - cbn [encode without forallb]. now rewrite !Hs, !Hp.
  - rewrite encode_cons3. unfold without in *. rewrite forallb_app, IH.
    cbn [encode forallb app]. now rewrite !Hs.
Qed.

End Base64MoreFacts.

Module NormalizedFacts.
Import JsString Regex Errors Base64 Logger ImageInput DataUrl.
Import RegexFacts Base64Facts ImageInputFacts SuffixFacts FileNameFacts.
Import DataUrlFacts Base64MoreFacts.

Lemma normalizeLocalInput_shape
      (readFile : jsstring -> list Byte.byte + JsError)
      (input : jsstring) (r : NormalizedImageInput) :
  normalizeLocalInput readFile input = inl r ->
  exists bytes m,
    readFile input = inl bytes /\ bytes <> [] /\
    getMimeTypeFromFileName input = inl m /\
    r = {| ImageInput.type := local;
           originalInput := input;
           dataUrl := "data:" ++ mimeText m ++ ";base64," ++ encode bytes;
           ImageInput.mimeType := m |}.
Proof.
  unfold normalizeLocalInput.
  destruct (readFile input) as [bytes|e] eqn:Hread.
  - destruct bytes as [|b bytes]; [cbn; discriminate|].
    cbn [length Nat.eqb].
    destruct (getMimeTypeFromFileName input) as [m|e] eqn:Hm.
    + intros H. injection H as <-.
      exists (b :: bytes), m.
      split; [reflexivity|]. split; [discriminate|]. split; reflexivity.
    + destruct (hasSystemCode "ENOENT" e);
        [|destruct (hasSystemCode "EACCES" e)]; discriminate.
  - destruct (hasSystemCode "ENOENT" e);
      [|destruct (hasSystemCode "EACCES" e)]; discriminate.
Qed.

(** The value returned for a file name: a type of the table, or one of
    the two inherited values. *)
Lemma returned_value (filename : jsstring) (m : MimeValue) :
  getMimeTypeFromFileName filename = inl m ->
  (exists ext mime,
      m = MimeString mime /\ In (ext, mime) EXT_TO_MIME_TYPE) \/
  (m = ObjectFunction /\ toLowerCase filename = "constructor") \/
  (m = ObjectPrototype /\ toLowerCase filename = "__proto__").
Proof.
  intros H. destruct m as [mime| |].
  - left. apply suffix_accepted in H. destruct H as (ext & Hin & _).
    now exists ext, mime.
  - right. left. split; [reflexivity|].
    now apply (@file_name_inherited filename "constructor" ObjectFunction).
  - right. right. split; [reflexivity|].
    now apply (@file_name_inherited filename "__proto__" ObjectPrototype).
Qed.

Lemma normalizeUrlInput_type (parseURL : jsstring -> option URL)
      (input : jsstring) (strict : bool) (r : NormalizedImageInput)
      (log : list LogEntry) :
  normalizeUrlInput parseURL input strict = (inl r, log) ->
  ImageInput.type r = url.
Proof.
  unfold normalizeUrlInput.
  destruct (parseURL input) as [u|]; [|cbn; discriminate].
  destruct (negb (startsWith "http" (protocol u))); [cbn; discriminate|].
  destruct (negb (isImageUrl parseURL input));
    [destruct strict; [cbn; discriminate|]|];
    cbn; intros H; injection H as <- _; reflexivity.
Qed.

(** The types of the extension table are written in lower case, start
    with image/ and hold neither comma nor semicolon. *)
Lemma table_types (ext mime : jsstring) :
  In (ext, mime) EXT_TO_MIME_TYPE ->
  toLowerCase mime = mime /\ startsWith "image/" mime = true /\
  without "," mime = true /\ without ";" mime = true.
Proof.
  unfold EXT_TO_MIME_TYPE. cbn [In].
  intros [H|[H|[H|[H|[]]]]]; injection H as _ <-; repeat split.
Qed.

Lemma size_of_payload (meta payload : jsstring) :
  without "," meta = true -> without "," payload = true ->
  getImageSizeInfo (meta ++ ","%char :: payload) = length payload * 3 / 4.
Proof.
  intros Hm Hp. unfold getImageSizeInfo.
  replace (includes "," (meta ++ ","%char :: payload)) with true
    by (symmetry; exact (@includes_separator "," meta payload)).
  rewrite (@split_once "," meta payload Hm), (@split_none "," payload Hp).
  reflexivity.
Qed.

(** The text of a returned value holds neither comma nor semicolon. *)
Lemma returned_text (filename : jsstring) (m : MimeValue) :
  getMimeTypeFromFileName filename = inl m ->
  without "," (mimeText m) = true /\ without ";" (mimeText m) = true.
Proof.
  intros H. apply returned_value in H.
  destruct H as [(ext & mime & -> & Hin) | [[-> _] | [-> _]]];
    [|split; reflexivity|split; reflexivity].
  destruct (@table_types ext mime Hin) as (_ & _ & Hc & Hs). now split.
Qed.

End NormalizedFacts.

Import DataUrlFacts Base64MoreFacts NormalizedFacts.

(** X14.  The size reported for a local image.  For the data URL which
    [normalizeLocalInput] builds from a file of [n] bytes (the path being
    made of code units below U+0100),
    [getImageSizeInfo] returns [3 * ceil (n / 3)]: the padding of the
    base64 text is counted as data, so that the size is the number of
    bytes read or exceeds it by one or two, and is never below it.  This
    holds whatever value stands for the MIME type in the data URL, a type
    of the table or the text of an inherited value: none holds a comma. *)
Theorem local_image_size :
  forall (readFile : jsstring -> list Byte.byte + JsError)
         (input : jsstring) (r : NormalizedImageInput),
    normalizeLocalInput readFile input = inl r ->
    exists bytes,
      readFile input = inl bytes /\
      getImageSizeInfo (dataUrl r) = 3 * ((length bytes + 2) / 3) /\
      length bytes <= getImageSizeInfo (dataUrl r) <= length bytes + 2.
Proof.
  intros readFile input r H.
  apply normalizeLocalInput_shape in H.
  destruct H as (bytes & m & Hread & Hne & Hm & ->).
  destruct (@returned_text input m Hm) as (Hcomma & _).
  exists bytes. split; [exact Hread|].
  cbn [dataUrl].
  assert (Hsize : getImageSizeInfo
                    ("data:" ++ mimeText m ++ ";base64," ++
                     Base64.encode bytes) =
                  3 * ((length bytes + 2) / 3)).
  { replace ("data:" ++ mimeText m ++ ";base64," ++ Base64.encode bytes)
      with (("data:" ++ mimeText m ++ ";base64") ++
            ","%char :: Base64.encode bytes)
      by (rewrite <- !app_assoc; reflexivity).
    rewrite size_of_payload.
    - rewrite encode_length.
      replace (4 * ((length bytes + 2) / 3) * 3)
        with (3 * ((length bytes + 2) / 3) * 4) by lia.
      now rewrite Nat.div_mul.
    - rewrite !without_app, Hcomma. reflexivity.
    - now apply encode_without. }
  rewrite Hsize. split; [reflexivity|].
  pose proof (Nat.div_mod_eq (length bytes + 2) 3) as Hdm.
  pose proof (Nat.mod_upper_bound (length bytes + 2) 3) as Hub.
  lia.
Qed.

Lemma local_image_size_witness :
  exists bytes,
    twoFiles "/tmp/cat.png" = inl bytes /\
    getImageSizeInfo "data:image/png;base64,iVBORw==" =
    3 * ((length bytes + 2) / 3) /\
    length bytes <= getImageSizeInfo "data:image/png;base64,iVBORw=="
    <= length bytes + 2.
Proof.
  exact (@local_image_size twoFiles "/tmp/cat.png"
           {| ImageInput.type := local;
              originalInput := "/tmp/cat.png";
              dataUrl := "data:image/png;base64,iVBORw==";
              ImageInput.mimeType := "image/png" |} eq_refl).
Defined.

(** X15.  What the normaliser accepts, [parseDataUrl] can read, with two
    exceptions.  When [normalizeImageInput] succeeds on a base64 data URL
    or on a local path (of code units below U+0100) and the MIME type of
    the result is a string, the canonical data URL is data:, a type,
    ;base64, and a payload which is not empty; [parseDataUrl] returns
    exactly that type and that payload, and the type is the MIME type of
    the normalised input up to the case of letters ([parseDataUrl] keeps
    the type as written, the normaliser lowers it).  The exceptions are
    the local paths which in lower case are [constructor] and
    [__proto__]: the MIME value of the result is inherited, the data URL
    does not start with data:image/, and [parseDataUrl] throws on it. *)
Theorem normalized_data_url_parses :
  forall (parseURL : jsstring -> option URL)
         (readFile : jsstring -> list Byte.byte + JsError)
         (env : jsstring -> option jsstring)
         (input : jsstring) (r : NormalizedImageInput)
         (log : list LogEntry),
    normalizeImageInput parseURL readFile env input = (inl r, log) ->
    ImageInput.type r = base64 \/ ImageInput.type r = local ->
    match ImageInput.mimeType r with
    | MimeString mime =>
        exists parsed,
          DataUrl.parseDataUrl (dataUrl r) = inl parsed /\
          toLowerCase (DataUrl.mimeType parsed) = mime /\
          dataUrl r =
          "data:" ++ DataUrl.mimeType parsed ++ ";base64," ++
          DataUrl.data parsed /\
          DataUrl.data parsed <> [] /\
          DataUrl.isDataUrl (dataUrl r) = true
    | inherited =>
        ImageInput.type r = local /\
        In (toLowerCase input)
           [("constructor" : jsstring); ("__proto__" : jsstring)] /\
        DataUrl.parseDataUrl (dataUrl r) =
        inr (OtherError "Error"
                        ("Invalid MIME type in data URL: " ++
                         mimeText inherited)) /\
        DataUrl.isDataUrl (dataUrl r) = false
    end.
Proof.
  intros parseURL readFile env input r log.
  unfold normalizeImageInput. unfold detectInputType.
  destruct (startsWith "data:image/" input && includes ";base64," input)
    eqn:Hb64.
  - (* base64 *)
    apply andb_true_iff in Hb64. destruct Hb64 as [Hprefix Hinc].
    unfold silent.
    destruct (normalizeBase64Input input) as [r'|e] eqn:Hn.
    + intros H _. injection H as <- _.
      destruct (@normalizeBase64Input_shape input r' Hprefix Hinc Hn)
        as (mime & payload & Hinput & Hc & Hs & Hi & Hp & -> & _).
      exists {| DataUrl.mimeType := mime; DataUrl.data := payload |}.
      cbn [dataUrl ImageInput.mimeType DataUrl.mimeType DataUrl.data].
      split; [rewrite Hinput at 1; now apply parseDataUrl_shape|].
      split; [reflexivity|]. split; [exact Hinput|].
      split; [exact Hp|exact Hprefix].
    + destruct (ImageInput.isVisionMCPError e); discriminate.
  - destruct (startsWith "http://" input || startsWith "https://" input).
    + (* url *)
      destruct (normalizeUrlInput parseURL input _) as [[r'|e] l] eqn:Hn.
      * intros H Ht. injection H as <- _.
        apply normalizeUrlInput_type in Hn. rewrite Hn in Ht.
        destruct Ht; discriminate.
      * destruct (ImageInput.isVisionMCPError e); discriminate.
    + (* local *)
      unfold silent.
      destruct (normalizeLocalInput readFile input) as [r'|e] eqn:Hn.
      * intros H _. injection H as <- _.
        apply normalizeLocalInput_shape in Hn.
        destruct Hn as (bytes & m & Hread & Hne & Hm & ->).
        cbn [dataUrl ImageInput.mimeType ImageInput.type].
        destruct (@returned_value input m Hm)
          as [(ext & mime & -> & Hin) | [[-> Hlow] | [-> Hlow]]].
        -- destruct (@table_types ext mime Hin) as (Hlow & Hi & Hc & Hs).
           exists {| DataUrl.mimeType := mime;
                     DataUrl.data := Base64.encode bytes |}.
           cbn [mimeText DataUrl.mimeType DataUrl.data].
           split; [apply parseDataUrl_shape; try assumption;
                   now apply encode_nonempty|].
           split; [exact Hlow|]. split; [reflexivity|].
           split; [now apply encode_nonempty|].
           unfold DataUrl.isDataUrl.
           apply startsWith_decompose in Hi. rewrite Hi.
           rewrite <- !app_assoc.
           change ("data:" ++ "image/" ++
                   skipn (length (list_ascii_of_string "image/")) mime ++
                   ";base64," ++ Base64.encode bytes)
             with ("data:image/" ++
                   (skipn (length (list_ascii_of_string "image/")) mime ++
                    ";base64," ++ Base64.encode bytes)).
           apply startsWith_prefix.
        -- split; [reflexivity|]. split; [left; now symmetry|].
           split; [|reflexivity].
           rewrite (@parseDataUrl_meta (mimeText ObjectFunction)
                      (Base64.encode bytes) eq_refl eq_refl
                      (encode_nonempty Hne)).
           reflexivity.
        -- split; [reflexivity|]. split; [right; left; now symmetry|].
           split; [|reflexivity].
           rewrite (@parseDataUrl_meta (mimeText ObjectPrototype)
                      (Base64.encode bytes) eq_refl eq_refl
                      (encode_nonempty Hne)).
           reflexivity.
      * destruct (ImageInput.isVisionMCPError e); discriminate.
Qed.

Lemma normalized_data_url_parses_witness :
  exists parsed,
    DataUrl.parseDataUrl "data:image/png;base64,iVBORw==" = inl parsed /\
    toLowerCase (DataUrl.mimeType parsed) = "image/png" /\
    ("data:image/png;base64,iVBORw==" : jsstring) =
    "data:" ++ DataUrl.mimeType parsed ++ ";base64," ++
    DataUrl.data parsed /\
    DataUrl.data parsed <> [] /\
    DataUrl.isDataUrl "data:image/png;base64,iVBORw==" = true.
Proof.
  exact (@normalized_data_url_parses simpleURL twoFiles noEnv
           "data:image/png;base64,iVBORw=="
           {| ImageInput.type := base64;
              originalInput := "data:image/png;base64,iVBORw==";
              dataUrl := "data:image/png;base64,iVBORw==";
              ImageInput.mimeType := "image/png" |} []
           eq_refl (or_introl eq_refl)).
Defined.

(* ================================================================== *)
(** * Further facts about the matcher and the thinking filter *)
(* ================================================================== *)

Module ReplaceFacts.
Import JsString Regex RegexFacts.

Lemma star_suffix (g : bool) (p : ascii -> bool) (k : cont)
      (rest : jsstring) :
  forall s prev,
    star g p k prev s = Some rest ->
    exists q t, k q t = Some rest /\ length t <= length s.
Proof.
  induction s as [|c s IH]; intros prev H.
  - exists prev, []. split; [exact H|lia].
  - cbn [star] in H. destruct (p c).
    + destruct g.
      * destruct (star true p k (Some c) s) as [r|] eqn:Hs.
        -- injection H as ->. destruct (IH _ Hs) as (q & t & Hk & Hl).
           exists q, t. split; [exact Hk|cbn; lia].
        -- exists prev, (c :: s). split; [exact H|lia].
      * destruct (k prev (c :: s)) as [r|] eqn:Hk.
        -- injection H as ->. exists prev, (c :: s). split; [exact Hk|lia].
        -- destruct (IH _ H) as (q & t & Hk' & Hl).
           exists q, t. split; [exact Hk'|cbn; lia].
    + exists prev, (c :: s). split; [exact H|lia].
Qed.

(** A match spans at least [minLen r] characters. *)
Lemma rmatch_minLen (r : regex) :
  forall prev s (k : cont) rest,
    rmatch r prev s k = Some rest ->
    exists q t, k q t = Some rest /\ length t + minLen r <= length s.
Proof.
  induction r as [ | p | r1 IH1 r2 IH2 | r1 IH1 r2 IH2 | g p | | | | ];
    intros prev s k rest H; cbn [rmatch minLen] in *.
  - exists prev, s. split; [exact H|lia].
  - destruct s as [|c s]; [discriminate|].
    destruct (p c); [|discriminate].
    exists (Some c), s. split; [exact H|cbn; lia].
  - destruct (IH1 _ _ _ _ H) as (q1 & t1 & H1 & L1).
    destruct (IH2 _ _ _ _ H1) as (q & t & H2 & L2).
    exists q, t. split; [exact H2|lia].
  - destruct (rmatch r1 prev s k) as [r|] eqn:E.
    + injection H as ->. destruct (IH1 _ _ _ _ E) as (q & t & Hk & L).
      exists q, t. split; [exact Hk|lia].
    + destruct (IH2 _ _ _ _ H) as (q & t & Hk & L).
      exists q, t. split; [exact Hk|lia].
  - destruct (star_suffix _ _ _ _ _ H) as (q & t & Hk & L).
    exists q, t. split; [exact Hk|lia].
  - destruct prev; [discriminate|]. exists None, s. split; [exact H|lia].
  - exists prev, s. split; [|lia].
    destruct prev as [c|]; [|exact H].
    destruct (isLineTerminator c); [exact H|discriminate].
  - exists prev, s. split; [|lia].
    destruct s as [|c s]; [exact H|].
    destruct (isLineTerminator c); [exact H|discriminate].
  - exists prev, s. split; [|lia].
    destruct s as [|c s]; [exact H|discriminate].
Qed.

Lemma matchHere_minLen (r : regex) (prev : option ascii) (s : jsstring)
      (len : nat) :
  matchHere r prev s = Some len -> minLen r <= len <= length s.
Proof.
  unfold matchHere. destruct (rmatch r prev s accept) as [rest|] eqn:E;
    [|discriminate].
  intros H. injection H as <-.
  destruct (rmatch_minLen _ _ _ _ E) as (q & t & Hk & L).
  unfold accept in Hk. injection Hk as ->. lia.
Qed.

(** A replacement which is never longer than the shortest match does not
    lengthen the text. *)
Lemma replaceFrom_length (r : regex) (f : jsstring -> jsstring) :
  (forall m, length (f m) <= minLen r) ->
  forall s prev skip,
    length (replaceFrom r f prev skip s) <= length s - skip.
Proof.
  intros Hf. induction s as [|c s IH]; intros prev skip.
  - destruct skip; cbn [replaceFrom]; [|cbn; lia].
    destruct (matchHere r prev []) as [len|] eqn:E; [|cbn; lia].
    apply matchHere_minLen in E. cbn in E.
    rewrite app_nil_r. specialize (Hf (firstn len [])). cbn. lia.
  - destruct skip as [|n]; cbn [replaceFrom].
    + destruct (matchHere r prev (c :: s)) as [len|] eqn:E.
      * apply matchHere_minLen in E.
        rewrite length_app. specialize (Hf (firstn len (c :: s))).
        destruct len as [|n].
        -- cbn [length]. specialize (IH (Some c) 0). lia.
        -- specialize (IH (Some c) n). cbn [length] in *. lia.
      * cbn [length]. specialize (IH (Some c) 0). lia.
    + specialize (IH (Some c) n). cbn [length]. lia.
Qed.

Lemma replaceFrom_unmatched (r : regex) (f : jsstring -> jsstring) :
  forall s prev,
    unmatched r prev s = true -> replaceFrom r f prev 0 s = s.
Proof.
  induction s as [|c s IH]; intros prev H; cbn [unmatched replaceFrom] in *.
  - now destruct (matchHere r prev []).
  - destruct (matchHere r prev (c :: s)); [discriminate|].
    now rewrite IH.
Qed.

(** Removing the matches of a pattern which has no empty match leaves the
    length as it is only when there was nothing to remove. *)
Lemma removal_fixed (r : regex) :
  0 < minLen r ->
  forall s prev,
    length s <= length (replaceFrom r (fun _ => []) prev 0 s) ->
    unmatched r prev s = true.
Proof.
  intros Hmin. induction s as [|c s IH]; intros prev H.
  - cbn [unmatched]. destruct (matchHere r prev []) as [len|] eqn:E;
      [|reflexivity].
    apply matchHere_minLen in E. cbn in E. lia.
  - cbn [unmatched replaceFrom] in *.
    destruct (matchHere r prev (c :: s)) as [len|] eqn:E.
    + apply matchHere_minLen in E. destruct len as [|n]; [lia|].
      cbn [app] in H.
      pose proof (@replaceFrom_length r (fun _ => [])
                    (fun _ => Nat.le_0_l _) s (Some c) n) as Hl.
      cbn [length] in H. lia.
    + apply IH. cbn [length] in H. lia.
Qed.

End ReplaceFacts.

Module StripFacts.
Import JsString Regex Errors ThinkingFilter RegexFacts FilterFacts.
Import ReplaceFacts.

(** After the loop of a pattern which has no empty match, the pattern
    matches nowhere. *)
Lemma stripLoop_unmatched (pattern : regex) :
  0 < minLen pattern ->
  forall fuel text beforeLength,
    beforeLength < fuel ->
    length text = beforeLength ->
    unmatched pattern None
              (stripLoop fuel pattern (removeAll pattern text) beforeLength)
    = true.
Proof.
  intros Hmin. induction fuel as [|fuel IH]; intros text n Hfuel Hn; [lia|].
  cbn [stripLoop].
  destruct (length (removeAll pattern text) <? n)%nat eqn:E.
  - apply Nat.ltb_lt in E. apply IH; [lia|reflexivity].
  - apply Nat.ltb_ge in E.
    assert (Hu : unmatched pattern None text = true).
    { apply removal_fixed; [exact Hmin|]. unfold removeAll, replaceAll in E.
      lia. }
    unfold removeAll, replaceAll.
    now rewrite (@replaceFrom_unmatched pattern (fun _ => []) text None Hu).
Qed.

Lemma applyPattern_unmatched (pattern : regex) (cleaned : jsstring) :
  0 < minLen pattern ->
  unmatched pattern None (applyPattern cleaned pattern) = true.
Proof.
  intros Hmin. unfold applyPattern.
  apply stripLoop_unmatched; [exact Hmin|lia|reflexivity].
Qed.

Lemma applyPattern_fixed (pattern : regex) (cleaned : jsstring) :
  unmatched pattern None cleaned = true ->
  applyPattern cleaned pattern = cleaned.
Proof.
  intros Hu. unfold applyPattern, removeAll, replaceAll.
  rewrite (@replaceFrom_unmatched pattern (fun _ => []) cleaned None Hu).
  cbn [stripLoop]. now rewrite Nat.ltb_irrefl.
Qed.

Lemma applyPattern_length (pattern : regex) (cleaned : jsstring) :
  length (applyPattern cleaned pattern) <= length cleaned.
Proof.
  unfold applyPattern.
  assert (Hr : forall s, length (removeAll pattern s) <= length s).
  { intros s. unfold removeAll, replaceAll.
    pose proof (@replaceFrom_length pattern (fun _ => [])
                  (fun _ => Nat.le_0_l _) s None 0). lia. }
  assert (H : forall fuel s n,
             length s <= n ->
             length (stripLoop fuel pattern s n) <= n).
  { induction fuel as [|fuel IH]; intros s n Hs; [exact Hs|].
    cbn [stripLoop]. destruct (length s <? n)%nat eqn:E; [|exact Hs].
    apply Nat.ltb_lt in E.
    specialize (IH (removeAll pattern s) (length s) (Hr s)). lia. }
  apply H, Hr.
Qed.

(** Occurrences up to case, in a part of a text. *)
Lemma startsWithI_app (w : jsstring) :
  forall a b, startsWithI w a = true -> startsWithI w (a ++ b) = true.
Proof.
  induction w as [|x w IH]; intros a b H; [reflexivity|].
  destruct a as [|y a]; [discriminate|].
  cbn [startsWithI app] in *. apply andb_true_iff in H.
  destruct H as [Hx Hw]. now rewrite Hx, (IH _ _ Hw).
Qed.

Lemma includesI_app (w a b : jsstring) :
  includesI w (a ++ b) = false ->
  includesI w a = false /\ includesI w b = false.
Proof.
  induction a as [|x a IH]; intros H.
  - cbn [app] in H. split; [|exact H].
    cbn [includesI]. rewrite orb_false_r.
    destruct (startsWithI w []) eqn:E; [|reflexivity].
    apply (@startsWithI_app w [] b) in E. cbn [app] in E.
    destruct b; cbn [includesI] in H; rewrite E in H; discriminate.
  - cbn [app includesI] in *. apply orb_false_iff in H.
    destruct H as [Hs Hi]. destruct (IH Hi) as [Ha Hb].
    split; [|exact Hb]. rewrite Ha, orb_false_r.
    destruct (startsWithI w (x :: a)) eqn:E; [|reflexivity].
    apply (@startsWithI_app w (x :: a) b) in E. cbn [app] in E.
    congruence.
Qed.

Lemma trimStart_suffix (s : jsstring) : exists a, s = a ++ trimStart s.
Proof.
  induction s as [|c s [a IH]]; [now exists []|].
  cbn [trimStart]. destruct (isWhiteSpace c).
  - exists (c :: a). cbn [app]. now f_equal.
  - now exists [].
Qed.

Lemma trim_part (s : jsstring) : exists a b, s = a ++ trim s ++ b.
Proof.
  unfold trim, trimEnd.
  destruct (trimStart_suffix s) as [a Ha].
  destruct (trimStart_suffix (rev (trimStart s))) as [b Hb].
  exists a, (rev b). rewrite <- rev_app_distr, <- Hb, rev_involutive.
  exact Ha.
Qed.

Lemma includesI_trim (w s : jsstring) :
  includesI w s = false -> includesI w (trim s) = false.
Proof.
  intros H. destruct (trim_part s) as (a & b & Hs).
  rewrite Hs in H. apply includesI_app in H. destruct H as [_ H].
  apply includesI_app in H. now destruct H.
Qed.

Lemma trim_length (s : jsstring) : length (trim s) <= length s.
Proof.
  destruct (trim_part s) as (a & b & Hs).
  rewrite Hs at 2. rewrite !length_app. lia.
Qed.

(** A word without the character [c] (up to case) is found at the head of
    a text by looking at the part before the first [c] only. *)
Lemma startsWithI_before (c : ascii) (w : jsstring) :
  forallb (fun h => negb (eqb_ci h c)) w = true ->
  forall x, startsWithI w x = startsWithI w (before c x).
Proof.
  induction w as [|h w IH]; intros Hw x; [reflexivity|].
  cbn [forallb] in Hw. apply andb_true_iff in Hw. destruct Hw as [Hh Hw].
  apply negb_true_iff in Hh.
  destruct x as [|y x]; [reflexivity|].
  cbn [before]. destruct (Ascii.eqb y c) eqn:E.
  - apply Ascii.eqb_eq in E. subst y. cbn [startsWithI]. now rewrite Hh.
  - cbn [startsWithI]. now rewrite (IH Hw x).
Qed.

Lemma matchHere_blank_lines_other (c : ascii) (s : jsstring) prev :
  Ascii.eqb c LF = false -> matchHere pat_blank_lines prev (c :: s) = None.
Proof.
  intros H. unfold matchHere, pat_blank_lines. cbn [seqs rmatch chr].
  rewrite Ascii.eqb_sym, H. reflexivity.
Qed.

(** Collapsing blank lines leaves the text before the first line feed as
    it is. *)
Lemma collapse_before (s : jsstring) :
  forall prev,
    before LF (replaceFrom pat_blank_lines (fun _ => [LF; LF]) prev 0 s) =
    before LF s.
Proof.
  induction s as [|c s IH]; intros prev.
  - cbn [replaceFrom].
    destruct (matchHere pat_blank_lines prev []) as [len|] eqn:E;
      [|reflexivity].
    apply matchHere_minLen in E. cbn in E. lia.
  - cbn [replaceFrom before]. destruct (Ascii.eqb c LF) eqn:Ec.
    + apply Ascii.eqb_eq in Ec. subst c.
      destruct (matchHere pat_blank_lines prev (LF :: s)) as [len|];
        reflexivity.
    + rewrite (@matchHere_blank_lines_other c s prev Ec).
      cbn [before]. now rewrite Ec, IH.
Qed.

(** A word without line feed which does not occur in a text does not
    occur after the blank lines are collapsed. *)
Lemma includesI_collapse (w : jsstring) :
  w <> [] ->
  forallb (fun h => negb (eqb_ci h LF)) w = true ->
  forall s,
    includesI w s = false ->
    forall prev skip,
      includesI w (replaceFrom pat_blank_lines (fun _ => [LF; LF])
                               prev skip s) = false.
Proof.
  intros Hne Hw.
  assert (Hlf : forall x, startsWithI w (LF :: x) = false).
  { intros x. destruct w as [|h w]; [contradiction|].
    cbn [forallb] in Hw. apply andb_true_iff in Hw. destruct Hw as [Hh _].
    apply negb_true_iff in Hh. cbn [startsWithI]. now rewrite Hh. }
  assert (Hnil : includesI w [] = false).
  { destruct w; [contradiction|reflexivity]. }
  induction s as [|c s IH]; intros H prev skip.
  - destruct skip; cbn [replaceFrom]; [|exact Hnil].
    destruct (matchHere pat_blank_lines prev []) as [len|] eqn:E;
      [|exact Hnil].
    apply matchHere_minLen in E. cbn in E. lia.
  - cbn [includesI] in H. apply orb_false_iff in H. destruct H as [Hs Hi].
    destruct skip as [|n]; cbn [replaceFrom]; [|now apply IH].
    destruct (matchHere pat_blank_lines prev (c :: s)) as [len|] eqn:E.
    + apply matchHere_minLen in E. cbn [minLen pat_blank_lines seqs chr] in E.
      destruct len as [|n]; [cbn in E; lia|].
      cbn [app includesI]. rewrite !Hlf. cbn [orb]. now apply IH.
    + cbn [includesI]. rewrite (IH Hi (Some c) 0), orb_false_r.
      rewrite (@startsWithI_before LF w Hw).
      cbn [before]. destruct (Ascii.eqb c LF) eqn:Ec.
      * destruct w; [contradiction|reflexivity].
      * rewrite collapse_before.
        rewrite (@startsWithI_before LF w Hw) in Hs.
        cbn [before] in Hs. now rewrite Ec in Hs.
Qed.

Lemma collapse_length (s : jsstring) :
  length (replaceAll pat_blank_lines (fun _ => [LF; LF]) s) <= length s.
Proof.
  unfold replaceAll.
  pose proof (@replaceFrom_length pat_blank_lines (fun _ => [LF; LF])) as H.
  specialize (H (fun _ => ltac:(cbn; lia)) s None 0). lia.
Qed.

(** Where [pat_leftover] does not match, none of its three words
    occurs. *)
Lemma unmatched_leftover (s : jsstring) :
  forall prev,
    unmatched pat_leftover prev s = true ->
    forallb (fun m => negb (includesI m s)) LEFTOVER_MARKERS = true.
Proof.
  assert (Hhere : forall prev t,
             matchHere pat_leftover prev t = None ->
             startsWithI "<thinking>" t = false /\
             startsWithI "</thinking>" t = false /\
             startsWithI "<<analysis>>" t = false).
  { intros prev t. unfold matchHere, pat_leftover. cbn [alts rmatch].
    rewrite !rmatch_litI. unfold accept.
    destruct (startsWithI "<thinking>" t); [discriminate|].
    destruct (startsWithI "</thinking>" t); [discriminate|].
    destruct (startsWithI "<<analysis>>" t); [discriminate|].
    now repeat split. }
  induction s as [|c s IH]; intros prev H; cbn [unmatched] in H.
  - destruct (matchHere pat_leftover prev []) eqn:E; [discriminate|].
    destruct (Hhere _ _ E) as (H1 & H2 & H3).
    cbn [LEFTOVER_MARKERS forallb includesI].
    now rewrite H1, H2, H3.
  - destruct (matchHere pat_leftover prev (c :: s)) eqn:E; [discriminate|].
    destruct (Hhere _ _ E) as (H1 & H2 & H3).
    specialize (IH _ H). cbn [LEFTOVER_MARKERS forallb] in IH.
    apply andb_true_iff in IH. destruct IH as [I1 IH].
    apply andb_true_iff in IH. destruct IH as [I2 IH].
    apply andb_true_iff in IH. destruct IH as [I3 _].
    apply negb_true_iff in I1, I2, I3.
    cbn [LEFTOVER_MARKERS forallb includesI].
    now rewrite H1, H2, H3, I1, I2, I3.
Qed.

(** Texts in which none of the marker words occurs. *)
Lemma markers_tail (markers : list jsstring) (c : ascii) (t : jsstring) :
  forallb (fun m => negb (includesI m (c :: t))) markers = true ->
  forallb (fun m => negb (includesI m t)) markers = true.
Proof.
  rewrite !forallb_forall. intros H m Hm. specialize (H m Hm).
  apply negb_true_iff in H. apply negb_true_iff.
  cbn [includesI] in H. apply orb_false_iff in H. now destruct H.
Qed.

Lemma markers_head (markers : list jsstring) (t m : jsstring) :
  forallb (fun m => negb (includesI m t)) markers = true ->
  In m markers -> startsWithI m t = false.
Proof.
  rewrite forallb_forall. intros H Hm. specialize (H m Hm).
  apply negb_true_iff in H.
  destruct t; cbn [includesI] in H; apply orb_false_iff in H; now destruct H.
Qed.

Lemma unmatched_by (r : regex) (markers : list jsstring) :
  (forall prev t,
      forallb (fun m => negb (includesI m t)) markers = true ->
      matchHere r prev t = None) ->
  forall s prev,
    forallb (fun m => negb (includesI m s)) markers = true ->
    unmatched r prev s = true.
Proof.
  intros Hr. induction s as [|c s IH]; intros prev H; cbn [unmatched].
  - now rewrite (Hr prev [] H).
  - rewrite (Hr prev (c :: s) H). apply IH. exact (markers_tail _ _ _ H).
Qed.

Lemma startsWithI_split (a : jsstring) :
  forall b t,
    startsWithI (a ++ b) t =
    startsWithI a t && startsWithI b (skipn (length a) t).
Proof.
  induction a as [|x a IH]; intros b t; [reflexivity|].
  destruct t as [|y t]; [reflexivity|].
  cbn [app startsWithI length skipn]. rewrite IH. now rewrite andb_assoc.
Qed.

Lemma star_none (g : bool) (p : ascii -> bool) (k : cont)
      (markers : list jsstring) :
  (forall q t,
      forallb (fun m => negb (includesI m t)) markers = true ->
      k q t = None) ->
  forall s prev,
    forallb (fun m => negb (includesI m s)) markers = true ->
    star g p k prev s = None.
Proof.
  intros Hk. induction s as [|c s IH]; intros prev H; cbn [star].
  - now apply Hk.
  - pose proof (markers_tail _ _ _ H) as Ht.
    rewrite (Hk prev (c :: s) H), (IH (Some c) Ht).
    now destruct (p c), g.
Qed.

Lemma first_word (word rest : jsstring) (k : cont) prev (t : jsstring) :
  startsWithI (word ++ rest) t = false ->
  rmatch (litI word) prev t
         (fun prev' s' => rmatch (litI rest) prev' s' k) = None.
Proof.
  intros H. rewrite startsWithI_split in H. rewrite rmatch_litI.
  destruct (startsWithI word t); [|reflexivity].
  cbn [andb] in H. now rewrite rmatch_litI, H.
Qed.

(** Without marker words, no pattern of the filter matches. *)
Lemma patterns_unmatched (s : jsstring) :
  forallb (fun m => negb (includesI m s)) THINKING_MARKERS = true ->
  forall pattern prev,
    In pattern THINKING_PATTERNS -> unmatched pattern prev s = true.
Proof.
  intros Hs pattern prev Hin.
  apply (@unmatched_by pattern THINKING_MARKERS); [|exact Hs].
  clear s Hs prev. intros prev t Ht.
  assert (Hm : forall m, In m THINKING_MARKERS -> startsWithI m t = false)
    by (intros m; apply markers_head; exact Ht).
  unfold THINKING_MARKERS, LEFTOVER_MARKERS in Hm. cbn [app In] in Hm.
  unfold THINKING_PATTERNS in Hin. cbn [In] in Hin.
  destruct Hin as [<-|[<-|[<-|[<-|[<-|[<-|[]]]]]]]; unfold matchHere.
  - unfold pat_thinking_tag. cbn [seqs rmatch]. rewrite rmatch_litI.
    rewrite (Hm "<thinking>"); [reflexivity|tauto].
  - unfold pat_analysis_tag. cbn [seqs rmatch]. rewrite rmatch_litI.
    rewrite (Hm "<<analysis>>"); [reflexivity|tauto].
  - unfold pat_reasoning_line. cbn [seqs rmatch alts].
    assert (Hstar : forall (k : cont) q,
               (forall q' u,
                   forallb (fun m => negb (includesI m u)) THINKING_MARKERS
                   = true -> k q' u = None) ->
               star true isWhiteSpace k q t = None).
    { intros k q Hk.
      exact (@star_none true isWhiteSpace k THINKING_MARKERS Hk t q Ht). }
    assert (Hwords : forall q' u,
               forallb (fun m => negb (includesI m u)) THINKING_MARKERS
               = true ->
               match
                 rmatch (litI "Reasoning") q' u
                   (fun prev'0 s'0 =>
                      rmatch (litI ":") prev'0 s'0
                        (fun prev'1 s'1 =>
                           star true dot
                             (fun prev'2 s'2 => rmatch Eol prev'2 s'2 accept)
                             prev'1 s'1))
               with
               | Some rest => Some rest
               | None =>
                   match
                     rmatch (litI "Thoughts") q' u
                       (fun prev'0 s'0 =>
                          rmatch (litI ":") prev'0 s'0
                            (fun prev'1 s'1 =>
                               star true dot
                                 (fun prev'2 s'2 =>
                                    rmatch Eol prev'2 s'2 accept)
                                 prev'1 s'1))
                   with
                   | Some rest => Some rest
                   | None =>
                       rmatch (litI "Analysis") q' u
                         (fun prev'0 s'0 =>
                            rmatch (litI ":") prev'0 s'0
                              (fun prev'1 s'1 =>
                                 star true dot
                                   (fun prev'2 s'2 =>
                                      rmatch Eol prev'2 s'2 accept)
                                   prev'1 s'1))
                   end
               end = None).
    { intros q u Hu.
      assert (Hu' : forall m, In m THINKING_MARKERS ->
                              startsWithI m u = false)
        by (intros m; apply markers_head; exact Hu).
      unfold THINKING_MARKERS, LEFTOVER_MARKERS in Hu'. cbn [app In] in Hu'.
      rewrite (@first_word "Reasoning" ":"); [|apply Hu'; tauto].
      rewrite (@first_word "Thoughts" ":"); [|apply Hu'; tauto].
      rewrite (@first_word "Analysis" ":"); [|apply Hu'; tauto].
      reflexivity. }
    destruct prev as [c|]; [destruct (isLineTerminator c)|];
      try reflexivity; rewrite Hstar; try reflexivity; exact Hwords.
  - unfold pat_markdown_fence. cbn [seqs rmatch alts].
    pose proof (Hm "```thinking" ltac:(tauto)) as H1.
    pose proof (Hm "```reasoning" ltac:(tauto)) as H2.
    change (list_ascii_of_string "```thinking")
      with ("```" ++ "thinking") in H1.
    change (list_ascii_of_string "```reasoning")
      with ("```" ++ "reasoning") in H2.
    rewrite startsWithI_split in H1, H2.
    rewrite rmatch_litI.
    destruct (startsWithI "```" t); [|reflexivity].
    cbn [andb] in H1, H2. rewrite !rmatch_litI, H1, H2. reflexivity.
  - unfold pat_inline_marker. cbn [seqs rmatch]. rewrite rmatch_litI.
    rewrite (Hm "[thinking]"); [reflexivity|tauto].
  - unfold pat_leftover. cbn [alts rmatch]. rewrite !rmatch_litI.
    rewrite (Hm "<thinking>"), (Hm "</thinking>"), (Hm "<<analysis>>");
      tauto.
Qed.

Lemma startsWithI_long (w : jsstring) :
  forall x y, length w <= length x ->
              startsWithI w (x ++ y) = startsWithI w x.
Proof.
  induction w as [|h w IH]; intros x y Hl; [reflexivity|].
  destruct x as [|c x]; [cbn in Hl; lia|].
  cbn [app startsWithI]. rewrite IH; [reflexivity|cbn in Hl; lia].
Qed.

(** A word which cannot overlap itself and does not occur in [pre] starts
    nowhere in [pre], whatever follows the copy placed after it. *)
Lemma word_not_before (w pre rest : jsstring) :
  selfFree w = true ->
  includesI w pre = false ->
  forall n, n < length pre ->
            startsWithI w (skipn n (pre ++ w ++ rest)) = false.
Proof.
  intros Hw Hp n Hn.
  rewrite app_assoc, skipn_app.
  replace (n - length (pre ++ w)) with 0
    by (rewrite length_app; lia).
  cbn [skipn]. rewrite startsWithI_long.
  - now apply includesI_none.
  - rewrite length_skipn, length_app. lia.
Qed.

Lemma replaceFrom_pass (r : regex) (f : jsstring -> jsstring)
      (rest : jsstring) :
  forall pre prev,
    (forall n q, n < length pre ->
                 matchHere r q (skipn n (pre ++ rest)) = None) ->
    replaceFrom r f prev 0 (pre ++ rest) =
    pre ++ replaceFrom r f (prevAfter prev pre) 0 rest.
Proof.
  induction pre as [|x pre IH]; intros prev H; [reflexivity|].
  cbn [app replaceFrom].
  pose proof (H 0 prev ltac:(cbn; lia)) as H0. cbn [skipn app] in H0.
  rewrite H0, IH.
  - now rewrite prevAfter_cons.
  - intros n q Hn. apply (H (S n) q). cbn. lia.
Qed.

Lemma replaceFrom_at (r : regex) (f : jsstring -> jsstring)
      (prev : option ascii) (c : ascii) (m rest : jsstring) :
  matchHere r prev (c :: m ++ rest) = Some (S (length m)) ->
  replaceFrom r f prev 0 (c :: m ++ rest) =
  f (c :: m) ++ replaceFrom r f (prevAfter (Some c) m) 0 rest.
Proof.
  intros H. cbn [replaceFrom]. rewrite H.
  cbn [firstn]. rewrite firstn_app, firstn_all, Nat.sub_diag.
  cbn [firstn]. rewrite app_nil_r. f_equal.
  apply replaceFrom_skip.
Qed.

Lemma rmatch_thinking_block_then (body post : jsstring) :
  includesI "</thinking>" body = false ->
  forall prev,
    rmatch pat_thinking_tag prev
           ("<thinking>" ++ body ++ "</thinking>" ++ post) accept
    = Some post.
Proof.
  intros Hb prev. unfold pat_thinking_tag. cbn [seqs rmatch].
  rewrite rmatch_litI.
  change (startsWithI "<thinking>"
            ("<thinking>" ++ body ++ "</thinking>" ++ post))
    with true.
  cbn [length list_ascii_of_string firstn skipn app].
  apply (@star_lazy_first _ body
           ("<"%char :: "/"%char :: "thinking>" ++ post) post).
  - intros q n Hn. rewrite rmatch_litI.
    match goal with
    | |- (if ?c then _ else _) = _ =>
        replace c with false
          by (symmetry;
              exact (@word_not_before "</thinking>" body post eq_refl Hb n Hn))
    end.
    reflexivity.
  - intros q. rewrite rmatch_litI. reflexivity.
Qed.

(** One block in a text which has no marker word around it: the first
    pattern removes the block and nothing else. *)
Lemma removeAll_block (pre body post : jsstring) :
  forallb (fun m => negb (includesI m (pre ++ post))) THINKING_MARKERS
  = true ->
  includesI "</thinking>" body = false ->
  removeAll pat_thinking_tag
            (pre ++ "<thinking>" ++ body ++ "</thinking>" ++ post) =
  pre ++ post.
Proof.
  intros Hfree Hb. unfold removeAll, replaceAll.
  assert (Hpre : includesI "<thinking>" pre = false).
  { pose proof (@markers_head THINKING_MARKERS (pre ++ post) "<thinking>"
                  Hfree ltac:(cbn; tauto)) as H0.
    rewrite forallb_forall in Hfree.
    specialize (Hfree "<thinking>" ltac:(cbn; tauto)).
    apply negb_true_iff in Hfree. apply includesI_app in Hfree.
    now destruct Hfree. }
  assert (Hpost : forallb (fun m => negb (includesI m post)) THINKING_MARKERS
                  = true).
  { rewrite forallb_forall in *. intros m Hm. specialize (Hfree m Hm).
    apply negb_true_iff in Hfree. apply includesI_app in Hfree.
    apply negb_true_iff. now destruct Hfree. }
  rewrite replaceFrom_pass.
  2:{ intros n q Hn. unfold matchHere, pat_thinking_tag.
      cbn [seqs rmatch]. rewrite rmatch_litI.
      now rewrite (@word_not_before "<thinking>" pre
                     (body ++ "</thinking>" ++ post) eq_refl Hpre n Hn). }
  f_equal.
  set (m := "thinking>" ++ body ++ "</thinking>").
  assert (Hshape : "<thinking>" ++ body ++ "</thinking>" ++ post =
                   "<"%char :: m ++ post).
  { unfold m. cbn [app list_ascii_of_string]. do 10 f_equal.
    now rewrite <- app_assoc. }
  assert (Hmatch : forall q,
             matchHere pat_thinking_tag q ("<"%char :: m ++ post) =
             Some (S (length m))).
  { intros q. unfold matchHere. rewrite <- Hshape.
    rewrite (@rmatch_thinking_block_then body post Hb q).
    f_equal. rewrite Hshape. cbn [length]. rewrite length_app. lia. }
  rewrite Hshape.
  rewrite (@replaceFrom_at pat_thinking_tag (fun _ => [])
             (prevAfter None pre) "<"%char m post (Hmatch _)).
  cbn [app].
  apply replaceFrom_unmatched.
  apply patterns_unmatched; [exact Hpost|]. now left.
Qed.

(** One thinking block in a text whose other parts hold no marker word:
    what is left is those other parts, trimmed and with their blank lines
    collapsed. *)
Lemma stripThinkingPatterns_around_block (pre body post : jsstring) :
  forallb (fun marker => negb (includesI marker (pre ++ post)))
          THINKING_MARKERS = true ->
  includesI "</thinking>" body = false ->
  stripThinkingPatterns
    (pre ++ "<thinking>" ++ body ++ "</thinking>" ++ post) =
  replaceAll pat_blank_lines (fun _ => [LF; LF]) (trim (pre ++ post)).
Proof.
  intros Hfree Hb.
  set (text := pre ++ "<thinking>" ++ body ++ "</thinking>" ++ post).
  assert (Hlen : length (pre ++ post) < length text).
  { unfold text. rewrite !length_app. cbn [length list_ascii_of_string].
    lia. }
  unfold stripThinkingPatterns.
  replace (truthy text) with true
    by (destruct text; [cbn in Hlen; lia|reflexivity]).
  cbn [negb]. f_equal. f_equal.
  unfold THINKING_PATTERNS. cbn [fold_left].
  assert (Hfirst : applyPattern text pat_thinking_tag = pre ++ post).
  { unfold applyPattern. unfold text at 2.
    rewrite (@removeAll_block pre body post Hfree Hb).
    cbn [stripLoop].
    replace (length (pre ++ post) <? length text)%nat with true
      by (symmetry; apply Nat.ltb_lt; exact Hlen).
    assert (Hrm : removeAll pat_thinking_tag (pre ++ post) = pre ++ post).
    { unfold removeAll, replaceAll. apply replaceFrom_unmatched.
      apply patterns_unmatched; [exact Hfree|now left]. }
    rewrite Hrm.
    destruct (length text) as [|n] eqn:En; [lia|].
    cbn [stripLoop]. rewrite Nat.ltb_irrefl. reflexivity. }
  rewrite Hfirst.
  assert (Hkeep : forall p, In p THINKING_PATTERNS ->
                            applyPattern (pre ++ post) p = pre ++ post).
  { intros p Hp. apply applyPattern_fixed.
    now apply patterns_unmatched. }
  rewrite (Hkeep pat_analysis_tag) by (cbn; tauto).
  rewrite (Hkeep pat_reasoning_line) by (cbn; tauto).
  rewrite (Hkeep pat_markdown_fence) by (cbn; tauto).
  rewrite (Hkeep pat_inline_marker) by (cbn; tauto).
  apply Hkeep. cbn. tauto.
Qed.

End StripFacts.

(* ================================================================== *)
(** * Further properties of the thinking filter *)
(* ================================================================== *)

Import ReplaceFacts StripFacts.

Module CleanFacts.
Import JsString Regex Errors ThinkingFilter RegexFacts ReplaceFacts StripFacts.

(** Whatever the text, no leftover marker is found in the result of
    [stripThinkingPatterns]: the last pattern is applied until nothing is
    removed any more, and neither trimming nor the collapsing of blank
    lines can bring such a word back. *)
Lemma stripThinkingPatterns_clean (text : jsstring) :
  forallb (fun marker => negb (includesI marker (stripThinkingPatterns text)))
          LEFTOVER_MARKERS = true.
Proof.
  unfold stripThinkingPatterns.
  destruct (truthy text); cbn [negb]; [|reflexivity].
  unfold THINKING_PATTERNS. cbn [fold_left].
  set (earlier := applyPattern _ pat_inline_marker).
  pose proof (@applyPattern_unmatched pat_leftover earlier
                ltac:(cbn; lia)) as Hu.
  apply unmatched_leftover in Hu.
  rewrite forallb_forall in *. intros m Hm. specialize (Hu m Hm).
  apply negb_true_iff in Hu. apply negb_true_iff.
  unfold replaceAll. apply includesI_collapse.
  - unfold LEFTOVER_MARKERS in Hm. cbn [In] in Hm.
    destruct Hm as [<-|[<-|[<-|[]]]]; discriminate.
  - unfold LEFTOVER_MARKERS in Hm. cbn [In] in Hm.
    destruct Hm as [<-|[<-|[<-|[]]]]; reflexivity.
  - now apply includesI_trim.
Qed.

End CleanFacts.

Import CleanFacts.

(** X16.  No marker is left over.  Whatever the text, the result of
    [stripThinkingPatterns], and so the result of [stripThinking] for any
    envelope, contains none of [<thinking>], [</thinking>] and
    [<<analysis>>] in any case of letters: the last pattern is applied
    until nothing is removed any more, and neither trimming nor the
    collapsing of blank lines can bring such a word back. *)
Theorem leftover_markers_never_survive :
  forall (text : jsstring) (envelope : ModelResponseEnvelope),
    forallb (fun marker => negb (includesI marker (stripThinkingPatterns text)))
            LEFTOVER_MARKERS = true /\
    forallb (fun marker => negb (includesI marker (stripThinking envelope)))
            LEFTOVER_MARKERS = true.
Proof.
  intros text envelope. split; [apply stripThinkingPatterns_clean|].
  unfold stripThinking.
  destruct (_ && _); [reflexivity|apply stripThinkingPatterns_clean].
Qed.

(** X17.  A text without marker words is left alone.  When none of the
    nine words [<thinking>], [</thinking>], [<<analysis>>], [```thinking],
    [```reasoning], [[thinking]], [Reasoning:], [Thoughts:] and
    [Analysis:] occurs in a text, in any case of letters, no pattern
    removes anything from it: [stripThinkingPatterns] returns the text
    trimmed and with its blank lines collapsed. *)
Theorem text_without_markers_is_kept :
  forall text : jsstring,
    forallb (fun marker => negb (includesI marker text)) THINKING_MARKERS
    = true ->
    stripThinkingPatterns text =
    replaceAll pat_blank_lines (fun _ => [LF; LF]) (trim text).
Proof.
  intros text H. unfold stripThinkingPatterns.
  destruct text as [|c text]; [reflexivity|]. cbn [truthy negb].
  replace (fold_left applyPattern THINKING_PATTERNS (c :: text))
    with (c :: text); [reflexivity|].
  assert (Hall : forall patterns,
             (forall p, In p patterns -> In p THINKING_PATTERNS) ->
             fold_left applyPattern patterns (c :: text) = c :: text).
  { induction patterns as [|p patterns IH]; intros Hp; [reflexivity|].
    cbn [fold_left]. rewrite applyPattern_fixed.
    - apply IH. intros q Hq. apply Hp. now right.
    - apply patterns_unmatched; [exact H|]. apply Hp. now left. }
  symmetry. apply Hall. auto.
Qed.

Lemma text_without_markers_is_kept_witness :
  stripThinkingPatterns "  A cat: [sitting] on a mat.  " =
  replaceAll pat_blank_lines (fun _ => [LF; LF])
             (trim "  A cat: [sitting] on a mat.  ").
Proof.
  exact (@text_without_markers_is_kept "  A cat: [sitting] on a mat.  "
           eq_refl).
Defined.

(** X18.  The filter only removes.  The result of [stripThinkingPatterns]
    is never longer than the text, and the result of [stripThinking] never
    longer than the content of the envelope. *)
Theorem filter_never_lengthens :
  forall (text : jsstring) (envelope : ModelResponseEnvelope),
    length (stripThinkingPatterns text) <= length text /\
    length (stripThinking envelope) <= length (content envelope).
Proof.
  assert (H : forall text,
             length (stripThinkingPatterns text) <= length text).
  { intros text. unfold stripThinkingPatterns.
    destruct (truthy text); cbn [negb]; [|cbn; lia].
    assert (Hfold : forall patterns s,
               length (fold_left applyPattern patterns s) <= length s).
    { induction patterns as [|p patterns IH]; intros s; [cbn; lia|].
      cbn [fold_left]. specialize (IH (applyPattern s p)).
      pose proof (applyPattern_length p s). lia. }
    pose proof (collapse_length
                  (trim (fold_left applyPattern THINKING_PATTERNS text))).
    pose proof (trim_length (fold_left applyPattern THINKING_PATTERNS text)).
    specialize (Hfold THINKING_PATTERNS text). lia. }
  intros text envelope. split; [apply H|].
  unfold stripThinking. destruct (_ && _); [cbn; lia|apply H].
Qed.

(** X19.  A thinking block is removed, and only it.  Take a text made of
    one block, [<thinking>], a body in which [</thinking>] does not
    occur, and [</thinking>], with any text before and after it, such
    that no marker word occurs in what surrounds the block.  Then
    [stripThinkingPatterns] returns what surrounds the block, trimmed and
    with its blank lines collapsed: nothing of the body is left, and
    nothing of the visible text is lost. *)
Theorem thinking_block_is_removed :
  forall pre body post : jsstring,
    forallb (fun marker => negb (includesI marker (pre ++ post)))
            THINKING_MARKERS = true ->
    includesI "</thinking>" body = false ->
    stripThinkingPatterns
      (pre ++ "<thinking>" ++ body ++ "</thinking>" ++ post) =
    replaceAll pat_blank_lines (fun _ => [LF; LF]) (trim (pre ++ post)).
Proof.
  intros pre body post Hfree Hb.
  exact (@stripThinkingPatterns_around_block pre body post Hfree Hb).
Qed.

Lemma thinking_block_is_removed_witness :
  stripThinkingPatterns
    ("It is " ++ "<thinking>" ++ "cat or dog? whiskers, so cat" ++
     "</thinking>" ++ "a cat.") =
  replaceAll pat_blank_lines (fun _ => [LF; LF])
             (trim ("It is " ++ "a cat.")).
Proof.
  exact (@thinking_block_is_removed
           "It is " "cat or dog? whiskers, so cat" "a cat."
           eq_refl eq_refl).
Defined.

(* ================================================================== *)
(** * The thinking filter on an envelope *)
(* ================================================================== *)

(** C1, amended.  For every envelope: content
    [<thinking>secret</thinking>visible answer] is returned as
    [visible answer]; content made of one thinking block (the opening tag,
    a body without the closing tag, the closing tag) is returned as the
    empty string; the result depends on the reasoning and thinking fields
    only through whether one of them is non-empty; and when the content is
    one such block with visible text around it which holds no marker word,
    the result is that visible text, trimmed and with its blank lines
    collapsed, or the empty string, so that no non-empty text (the text of
    a reasoning or thinking field, for one) occurs in the result unless it
    occurs in that visible text. *)
Theorem C1_thinking_filter :
  forall (envelope : ModelResponseEnvelope) (body : jsstring),
    (content envelope = "<thinking>secret</thinking>visible answer" ->
     stripThinking envelope = "visible answer") /\
    (content envelope = "<thinking>" ++ body ++ "</thinking>" ->
     includesI "</thinking>" body = false ->
     stripThinking envelope = []) /\
    (forall other : ModelResponseEnvelope,
        content other = content envelope ->
        truthyOpt (reasoning other) || truthyOpt (ThinkingFilter.thinking other) =
        truthyOpt (reasoning envelope) ||
        truthyOpt (ThinkingFilter.thinking envelope) ->
        stripThinking other = stripThinking envelope) /\
    (forall pre post : jsstring,
        content envelope =
        pre ++ "<thinking>" ++ body ++ "</thinking>" ++ post ->
        forallb (fun marker => negb (includesI marker (pre ++ post)))
                THINKING_MARKERS = true ->
        includesI "</thinking>" body = false ->
        let visible :=
          replaceAll pat_blank_lines (fun _ => [LF; LF])
                     (trim (pre ++ post)) in
        stripThinking envelope =
        (if (length visible <? 10)%nat &&
            (truthyOpt (reasoning envelope) ||
             truthyOpt (ThinkingFilter.thinking envelope))
         then [] else visible) /\
        (forall field : jsstring,
            truthy field = true ->
            includes field visible = false ->
            includes field (stripThinking envelope) = false)).
Proof.
  intros envelope body. split; [|split; [|split]].
  - intros Hc. unfold stripThinking. rewrite Hc.
    assert (E : stripThinkingPatterns
                  "<thinking>secret</thinking>visible answer"
                = "visible answer") by (vm_compute; reflexivity).
    rewrite E. reflexivity.
  - intros Hc Hb. unfold stripThinking.
    rewrite Hc, (stripThinkingPatterns_block body Hb).
    now destruct (_ && _).
  - intros other Hc Hf. unfold stripThinking. now rewrite Hc, Hf.
  - intros pre post Hc Hfree Hb visible.
    assert (Hs : stripThinking envelope =
                 (if (length visible <? 10)%nat &&
                     (truthyOpt (reasoning envelope) ||
                      truthyOpt (ThinkingFilter.thinking envelope))
                  then [] else visible)).
    { unfold stripThinking. rewrite Hc.
      now rewrite (@stripThinkingPatterns_around_block pre body post
                     Hfree Hb). }
    split; [exact Hs|].
    intros field Hfield Hout. rewrite Hs.
    destruct (_ && _); [|exact Hout].
    destruct field as [|c field]; [discriminate Hfield|reflexivity].
Qed.

Lemma C1_thinking_filter_witness :
  stripThinking taggedAnswer = "visible answer" /\
  stripThinking onlyThinking = [] /\
  includes "secret" (stripThinking taggedAnswer) = false.
Proof.
  split; [|split].
  - exact (proj1 (C1_thinking_filter taggedAnswer []) eq_refl).
  - exact (proj1 (proj2 (C1_thinking_filter onlyThinking "step 1, step 2"))
                 eq_refl eq_refl).
  - exact (proj2 (proj2 (proj2 (proj2 (C1_thinking_filter
                                         taggedAnswer "secret")))
                        [] "visible answer" eq_refl eq_refl eq_refl)
                 "secret" eq_refl eq_refl).
Defined.

(* ================================================================== *)
(** * Facts about the logger's sanitiser *)
(* ================================================================== *)

Module LoggerFacts.
Import JsString Regex Errors Logger RegexFacts SanitizeFacts.

Lemma log_credential_anchorFree : anchorFree pat_log_credential = true.
Proof. reflexivity. Qed.

Lemma matchHere_log_credential_other (c : ascii) (s : jsstring) prev :
  isSeparator c = false -> matchHere pat_log_credential prev (c :: s) = None.
Proof.
  intros Hc. unfold matchHere, pat_log_credential. cbn [seqs rmatch].
  now rewrite Hc.
Qed.

Lemma log_plain (pre rest : jsstring) f :
  forallb (fun c => negb (isSeparator c)) pre = true ->
  forall prev,
    replaceFrom pat_log_credential f prev 0 (pre ++ rest) =
    pre ++ replaceFrom pat_log_credential f (prevAfter prev pre) 0 rest.
Proof.
  induction pre as [|c pre IH]; intros Hpre prev; [reflexivity|].
  cbn in Hpre. apply andb_true_iff in Hpre. destruct Hpre as [Hc Hpre].
  apply negb_true_iff in Hc.
  cbn [app replaceFrom].
  rewrite (@matchHere_log_credential_other c (pre ++ rest) prev Hc).
  rewrite (IH Hpre), prevAfter_cons. reflexivity.
Qed.

Lemma rmatch_log_credential (sep : ascii) (name v rest : jsstring) prev :
  isSeparator sep = true ->
  isLogCredentialName name = true ->
  v <> [] -> forallb isLogValueChar v = true -> logValueEnds rest = true ->
  rmatch pat_log_credential prev (sep :: name ++ "=" ++ v ++ rest) accept
  = Some rest.
Proof.
  intros Hsep Hname Hv Hall Hrest.
  destruct v as [|x v]; [contradiction|].
  cbn in Hall. apply andb_true_iff in Hall. destruct Hall as [Hx Hall].
  unfold pat_log_credential. cbn [seqs alts rmatch]. rewrite Hsep.
  rewrite !rmatch_litI.
  unfold isLogCredentialName, LOG_CREDENTIAL_NAMES in Hname.
  cbn [existsb] in Hname.
  repeat (apply orb_true_iff in Hname; destruct Hname as [Hname | Hname]);
    try discriminate;
    rewrite !(@startsWithI_congr _ name Hname);
    cbn [list_ascii_of_string app startsWithI];
    [> rewrite ?(@skipn_exact _ name _ _ (@eqbI_length _ name Hname));
       cbn -[isLogValueChar star prevAfter];
       rewrite Hx, (@star_greedy_run isLogValueChar v rest Hall Hrest);
       reflexivity ..].
Qed.

Lemma hd_split_cons (d c : ascii) (s : jsstring) :
  Ascii.eqb c d = false ->
  hd [] (split d (c :: s)) = c :: hd [] (split d s).
Proof.
  intros H. cbn [split]. rewrite H.
  destruct s as [|x s]; [reflexivity|].
  cbn [split]. destruct (Ascii.eqb x d); [reflexivity|].
  destruct (split d s); reflexivity.
Qed.

Lemma separator_not_equals (sep : ascii) :
  isSeparator sep = true -> Ascii.eqb sep "=" = false.
Proof.
  unfold isSeparator. intros H. apply orb_true_iff in H.
  destruct H as [H | H]; apply Ascii.eqb_eq in H; subst sep; reflexivity.
Qed.

Lemma dollar1_credential (sep : ascii) (name v : jsstring) :
  isSeparator sep = true ->
  isLogCredentialName name = true ->
  dollar1 (sep :: name ++ "=" ++ v) = sep :: name ++ "=".
Proof.
  intros Hsep Hname. unfold dollar1.
  rewrite (@hd_split_cons "="%char sep _ (separator_not_equals sep Hsep)).
  assert (Hn : forallb (fun c => negb (Ascii.eqb c "=")) name = true).
  { unfold isLogCredentialName, LOG_CREDENTIAL_NAMES in Hname.
    cbn [existsb] in Hname.
    repeat (apply orb_true_iff in Hname; destruct Hname as [Hname | Hname]);
      try discriminate;
      exact (@name_without "="%char _ name Hname eq_refl). }
  change (list_ascii_of_string "=" ++ v) with ("="%char :: v).
  now rewrite (@split_first "="%char name v Hn).
Qed.

Lemma log_at_credential (sep : ascii) (name v rest : jsstring) prev :
  isSeparator sep = true ->
  isLogCredentialName name = true ->
  v <> [] -> forallb isLogValueChar v = true -> logValueEnds rest = true ->
  replaceFrom pat_log_credential (fun m => dollar1 m ++ "***") prev 0
              (sep :: name ++ "=" ++ v ++ rest) =
  sep :: name ++ "=***" ++
  replaceFrom pat_log_credential (fun m => dollar1 m ++ "***") None 0 rest.
Proof.
  intros Hsep Hname Hv Hall Hrest.
  cbn [replaceFrom]. unfold matchHere.
  rewrite (@rmatch_log_credential sep name v rest prev Hsep Hname Hv Hall Hrest).
  assert (Hs : name ++ "=" ++ v ++ rest = (name ++ "=" ++ v) ++ rest)
    by now rewrite !app_assoc.
  rewrite Hs.
  assert (Hlen : length (sep :: (name ++ "=" ++ v) ++ rest) - length rest
                 = S (length (name ++ "=" ++ v)))
    by (cbn [length]; rewrite length_app; lia).
  rewrite Hlen.
  cbn [firstn]. rewrite firstn_app, firstn_all, Nat.sub_diag. cbn [firstn].
  rewrite app_nil_r, (@dollar1_credential sep name v Hsep Hname).
  rewrite replaceFrom_skip.
  rewrite (@replaceFrom_prev pat_log_credential _ log_credential_anchorFree
             rest 0 _ None).
  cbn [app]. rewrite <- !app_assoc. reflexivity.
Qed.

End LoggerFacts.

Module AgreeFacts.
Import JsString Regex Errors Logger RegexFacts SanitizeFacts LoggerFacts.
Import ReplaceFacts.

Lemma star_ext (p1 p2 : ascii -> bool) g (k : cont) :
  forall s prev,
    forallb (fun c => Bool.eqb (p1 c) (p2 c)) s = true ->
    star g p1 k prev s = star g p2 k prev s.
Proof.
  induction s as [|c s IH]; intros prev H; [reflexivity|].
  cbn [forallb] in H. apply andb_true_iff in H. destruct H as [Hc H].
  apply Bool.eqb_prop in Hc. cbn [star]. rewrite Hc, !(IH _ H). reflexivity.
Qed.

Lemma forallb_skipn (A : Type) (p : A -> bool) (n : nat) :
  forall l, forallb p l = true -> forallb p (skipn n l) = true.
Proof.
  induction n as [|n IH]; intros [|x l] H; try exact H.
  cbn [forallb] in H. apply andb_true_iff in H. cbn [skipn]. now apply IH.
Qed.

Lemma plus_agree (q : jsstring) prev :
  forallb (fun c => Bool.eqb (isLogValueChar c) (isValueChar c)) q = true ->
  rmatch (plus isLogValueChar) prev q accept =
  rmatch (plus isValueChar) prev q accept.
Proof.
  intros H. destruct q as [|x q]; [reflexivity|].
  cbn [forallb] in H. apply andb_true_iff in H. destruct H as [Hx H].
  apply Bool.eqb_prop in Hx. unfold plus. cbn [rmatch]. rewrite Hx.
  now rewrite (@star_ext isLogValueChar isValueChar true accept q (Some x) H).
Qed.

Lemma rmatch_agree (s : jsstring) prev :
  forallb (fun c => Bool.eqb (isLogValueChar c) (isValueChar c)) s = true ->
  rmatch pat_log_credential prev s accept = rmatch pat_credential prev s accept.
Proof.
  intros H. destruct s as [|c s]; [reflexivity|].
  cbn [forallb] in H. apply andb_true_iff in H. destruct H as [_ H].
  unfold pat_log_credential, pat_credential. cbn [seqs alts rmatch].
  destruct (isSeparator c); [|reflexivity].
  rewrite !rmatch_litI.
  rewrite !plus_agree
    by (apply forallb_skipn, forallb_skipn; exact H).
  repeat match goal with
         | |- context [if ?b then _ else None] => destruct b
         end;
    repeat match goal with
           | |- context [match ?a with Some _ => _ | None => _ end] =>
               destruct a
           end; reflexivity.
Qed.

Lemma matchHere_agree (s : jsstring) prev :
  forallb (fun c => Bool.eqb (isLogValueChar c) (isValueChar c)) s = true ->
  matchHere pat_log_credential prev s = matchHere pat_credential prev s.
Proof. intros H. unfold matchHere. now rewrite (@rmatch_agree s prev H). Qed.

Lemma forallb_firstn (A : Type) (p : A -> bool) (n : nat) :
  forall l, forallb p l = true -> forallb p (firstn n l) = true.
Proof.
  induction n as [|n IH]; intros [|x l] H; try reflexivity.
  cbn [forallb] in H. apply andb_true_iff in H. destruct H as [Hx H].
  cbn [firstn forallb]. now rewrite Hx, (IH l H).
Qed.

(** On a match, which starts with a separator, the two replacements are
    the same text. *)
Lemma maskMatch_dollar1 (c : ascii) (m : jsstring) :
  isSeparator c = true ->
  maskMatch (c :: m) = dollar1 (c :: m) ++ "***".
Proof.
  intros Hc. unfold maskMatch, dollar1.
  rewrite (@hd_split_cons "="%char c m (separator_not_equals c Hc)).
  assert (E : (if Ascii.eqb c "?" then ("?" : jsstring) else ("&" : jsstring))
              = [c]).
  { unfold isSeparator in Hc. destruct (Ascii.eqb c "?") eqn:E1.
    - apply Ascii.eqb_eq in E1. now subst.
    - cbn in Hc. apply Ascii.eqb_eq in Hc. now subst. }
  rewrite E. cbn [skipn app]. rewrite <- app_assoc. reflexivity.
Qed.

Lemma replaceFrom_agree :
  forall s prev skip,
    forallb (fun c => Bool.eqb (isLogValueChar c) (isValueChar c)) s = true ->
    replaceFrom pat_log_credential (fun m => dollar1 m ++ "***") prev skip s =
    replaceFrom pat_credential maskMatch prev skip s.
Proof.
  induction s as [|c s IH]; intros prev skip H.
  - destruct skip; reflexivity.
  - assert (Hs : forallb (fun c => Bool.eqb (isLogValueChar c) (isValueChar c))
                         s = true).
    { cbn [forallb] in H. apply andb_true_iff in H. exact (proj2 H). }
    destruct skip as [|n]; cbn [replaceFrom]; [|exact (IH _ _ Hs)].
    rewrite (@matchHere_agree (c :: s) prev H).
    destruct (isSeparator c) eqn:Hc.
    + destruct (matchHere pat_credential prev (c :: s)) as [len|] eqn:E.
      * destruct (@matchHere_minLen pat_credential prev (c :: s) len E)
          as [Hlen _].
        destruct len as [|len]; [cbn in Hlen; lia|].
        cbn [firstn]. rewrite (@maskMatch_dollar1 c _ Hc).
        now rewrite (IH _ _ Hs).
      * now rewrite (IH _ _ Hs).
    + rewrite (@matchHere_credential_other c s prev Hc).
      now rewrite (IH _ _ Hs).
Qed.

Lemma plain_agree (s : jsstring) :
  without "'" s = true -> without dquote s = true -> without "\" s = true ->
  forallb (fun c => Bool.eqb (isLogValueChar c) (isValueChar c)) s = true.
Proof.
  unfold without. induction s as [|c s IH]; intros H1 H2 H3; [reflexivity|].
  cbn [forallb] in *.
  apply andb_true_iff in H1. destruct H1 as [C1 H1].
  apply andb_true_iff in H2. destruct H2 as [C2 H2].
  apply andb_true_iff in H3. destruct H3 as [C3 H3].
  rewrite (IH H1 H2 H3), andb_true_r.
  apply negb_true_iff in C1, C2, C3.
  unfold isLogValueChar, isValueChar. rewrite C1, C2, C3.
  rewrite !orb_false_r. apply Bool.eqb_reflx.
Qed.

End AgreeFacts.

Import LoggerFacts AgreeFacts.

(** ** Logger *)


(** X21.  In a log text, a credential parameter (a name of the logger's
    list in any case, after [?] or [&], with a non-empty value) met after
    text without [?] and [&] keeps its separator and its name as written
    and has its value replaced by three stars.  The value ends at the end
    of the text or before an ampersand, white space, a single or double
    quote or a backslash, and the scan goes on from there. *)
Theorem sanitizeForLogging_masks :
  forall (pre name value rest : jsstring) (sep : ascii),
    forallb (fun c => negb (isSeparator c)) pre = true ->
    isSeparator sep = true ->
    isLogCredentialName name = true ->
    value <> [] ->
    forallb isLogValueChar value = true ->
    logValueEnds rest = true ->
    sanitizeForLogging (pre ++ sep :: name ++ "=" ++ value ++ rest) =
    pre ++ sep :: name ++ "=***" ++ sanitizeForLogging rest.
Proof.
  intros pre name value rest sep Hpre Hsep Hname Hvalue Hchars Hrest.
  unfold sanitizeForLogging, replaceAll.
  rewrite (@log_plain pre _ _ Hpre).
  now rewrite (@log_at_credential sep name value rest _
                 Hsep Hname Hvalue Hchars Hrest).
Qed.

Lemma sanitizeForLogging_masks_witness :
  sanitizeForLogging
    ("fetch('https://x/y" ++ "?"%char :: "Access_Token" ++ "=" ++ "T0p-s3cret"
       ++ "') failed") =
  "fetch('https://x/y" ++ "?"%char :: "Access_Token" ++ "=***" ++
  sanitizeForLogging "') failed".
Proof.
  assert (Hvalue : ("T0p-s3cret" : jsstring) <> []) by discriminate.
  exact (@sanitizeForLogging_masks
           "fetch('https://x/y" "Access_Token" "T0p-s3cret" "') failed"
           "?"%char eq_refl eq_refl eq_refl Hvalue eq_refl eq_refl).
Defined.

(** X22.  On a text without single quote, double quote and backslash the
    logger's [sanitizeForLogging] and the error module's
    [sanitizeUrlInString] return the same text: the two patterns accept
    the same names, and their value classes differ on these three
    characters only.  With a quote they differ: in ?key=a'b the logger
    masks the value up to the quote and the error module masks it whole. *)
Theorem sanitizers_agree_without_quotes :
  forall text : jsstring,
    without "'" text = true ->
    without dquote text = true ->
    without "\" text = true ->
    sanitizeForLogging text = sanitizeUrlInString text /\
    sanitizeForLogging "?key=a'b" = "?key=***'b" /\
    sanitizeUrlInString "?key=a'b" = "?key=***".
Proof.
  intros text H1 H2 H3. split; [|split; vm_compute; reflexivity].
  unfold sanitizeForLogging, sanitizeUrlInString, replaceAll.
  apply replaceFrom_agree. now apply plain_agree.
Qed.

Lemma sanitizers_agree_without_quotes_witness :
  sanitizeForLogging "https://x/y?api_key=SECRET123&v=1" =
  sanitizeUrlInString "https://x/y?api_key=SECRET123&v=1".
Proof.
  exact (proj1 (@sanitizers_agree_without_quotes
                  "https://x/y?api_key=SECRET123&v=1"
                  eq_refl eq_refl eq_refl)).
Defined.

(* ================================================================== *)
(** * Facts about the parsing of responses *)
(* ================================================================== *)

Module ParseFacts.
Import JsString Errors ThinkingExtractors.





(** The details of a parse failure hold no status. *)
Lemma response_details_status (response : JsValue) :
  getField "status" (sanitizeDetails [("response" : jsstring, response)]) =
  JUndefined.
Proof. reflexivity. Qed.

End ParseFacts.

(* ================================================================== *)
(** * Further properties of the adapters *)
(* ================================================================== *)

Import ThinkingExtractors ParseFacts.

(** ** Parsing a response *)

(** X23.  Given a model type, [parseResponse] succeeds exactly when
    [choices[0].message.content] of the response is a non-empty string.
    Every failure is the upstream-API error "Failed to parse model
    response", whose cause is the error "Invalid response format: missing
    or invalid content" and whose details hold the sanitised response and
    no status, so the retry engine answers it with another attempt.
    Without a model type the failure is a plain Error. *)
Theorem parseResponse_outcomes :
  forall (response : JsValue) (modelType : jsstring),
    (modelType = [] ->
     VisionResponse.parseResponse response modelType =
     inr (OtherError "Error" "modelType is required for parseResponse")) /\
    (modelType <> [] ->
     ((exists r, VisionResponse.parseResponse response modelType = inl r) <->
      (exists c s, RawThinkingFilter.choiceContent response = JString (c :: s))) /\
     (forall error,
        VisionResponse.parseResponse response modelType = inr error ->
        error =
        VisionMCPError ModelAPIErrorC MODEL_API_ERROR
          "Model API error: Failed to parse model response"
          (Some [("response" : jsstring, sanitizeProperty response)])
          (Some (VisionMCPError ModelAPIErrorC MODEL_API_ERROR
                   "Model API error: Invalid response format: missing or invalid content"
                   (Some [("response" : jsstring, sanitizeProperty response)])
                   None)) /\
        BaseAdapter.retryable error = true)).
Proof.
  intros response modelType. split.
  - intros ->. reflexivity.
  - intros Hm. destruct modelType as [|m modelType]; [contradiction|].
    unfold VisionResponse.parseResponse. cbn [truthy negb].
    destruct (RawThinkingFilter.choiceContent response) as [| | | |[|c s]| |]
      eqn:E; split;
      try (split; [intros [r H]; discriminate H
                  |intros (c0 & s0 & H); discriminate H]);
      try (intros error H; injection H as <-; split; reflexivity).
    + split; [intros _; now exists c, s|intros _; eexists; reflexivity].
    + intros error H. discriminate H.
Qed.



(** ** The SiliconFlow adapter *)

(** X25.  When retries remain, the answer to the first request decides
    what [analyze] does next.  A status of 400, 401, 403 or 404 ends the
    run after this one request with the adapter's error "SiliconFlow API
    request failed: <status> <statusText>", whose details hold the
    status.  Any other status outside 200 to 299 (429 included, whatever
    its Retry-After header says), and a 2xx answer whose body holds no
    content, is followed by a wait of 1000 ms and a second request. *)
Theorem siliconflow_first_answer :
  forall (World : Type)
         (fetch : World -> (SiliconFlowAdapter.HttpResponse + JsError) * World)
         (wait : Z -> World -> World)
         (config : ModelConfig.ModelConfig) (w w' : World)
         (response : SiliconFlowAdapter.HttpResponse),
    fetch w = (inl response, w') ->
    (0 < effectiveMaxRetries (ModelConfig.retrySettings config) noOverride)%Z ->
    (existsb (Z.eqb (SiliconFlowAdapter.status response))
             NON_RETRYABLE_STATUS_CODES = true ->
     exists details,
       SiliconFlowAdapter.analyze fetch wait config w =
       (inr (VisionMCPError ModelAPIErrorC MODEL_API_ERROR
               ("Model API error: SiliconFlow API request failed: " ++
                numberToString (SiliconFlowAdapter.status response) ++ " " ++
                SiliconFlowAdapter.statusText response)
               (Some details) None),
        w', [Attempt 0]) /\
       getField "status" details =
       JNumber (SiliconFlowAdapter.status response)) /\
    (SiliconFlowAdapter.ok response = false ->
     existsb (Z.eqb (SiliconFlowAdapter.status response))
             NON_RETRYABLE_STATUS_CODES = false ->
     exists rest,
       runTrace (SiliconFlowAdapter.analyze fetch wait config w) =
       Attempt 0 :: Backoff 1000 :: rest) /\
    (forall responseData,
       SiliconFlowAdapter.ok response = true ->
       SiliconFlowAdapter.json response = inl responseData ->
       (forall c s,
          RawThinkingFilter.choiceContent responseData <> JString (c :: s)) ->
       exists rest,
         runTrace (SiliconFlowAdapter.analyze fetch wait config w) =
         Attempt 0 :: Backoff 1000 :: rest).
Proof.
  intros World fetch wait config w w' [st stText txt ra js] Hfetch Hmr.
  unfold SiliconFlowAdapter.analyze, withRetry.
  change {| BaseAdapter.maxRetries := None; BaseAdapter.timeout := None |}
    with noOverride.
  set (mr := effectiveMaxRetries (ModelConfig.retrySettings config) noOverride)
    in *.
  set (to := effectiveTimeout (ModelConfig.retrySettings config) noOverride).
  assert (Hturns : Z.to_nat (mr + 1) = S (S (Z.to_nat (mr - 1)))) by lia.
  rewrite Hturns. cbn [retryLoop].
  assert (Hop : SiliconFlowAdapter.operation fetch config w =
                (match SiliconFlowAdapter.callSiliconFlowAPI
                         config
                         {| SiliconFlowAdapter.status := st;
                            SiliconFlowAdapter.statusText := stText;
                            SiliconFlowAdapter.text := txt;
                            SiliconFlowAdapter.retryAfter := ra;
                            SiliconFlowAdapter.json := js |}
                 with
                 | inl r => inl (VisionResponse.content r)
                 | inr error => inr error
                 end, w')).
  { unfold SiliconFlowAdapter.operation. now rewrite Hfetch. }
  rewrite !Hop.
  assert (Hzero : (0 =? mr)%Z = false) by (apply Z.eqb_neq; lia).
  cbn [SiliconFlowAdapter.status SiliconFlowAdapter.statusText
       SiliconFlowAdapter.json].
  split; [|split].
  - intros Hin.
    assert (Hok : SiliconFlowAdapter.ok
                    {| SiliconFlowAdapter.status := st;
                       SiliconFlowAdapter.statusText := stText;
                       SiliconFlowAdapter.text := txt;
                       SiliconFlowAdapter.retryAfter := ra;
                       SiliconFlowAdapter.json := js |} = false
                  /\ (st =? 429)%Z = false /\ (st =? 0)%Z = false).
    { unfold NON_RETRYABLE_STATUS_CODES in Hin. cbn [existsb] in Hin.
      unfold SiliconFlowAdapter.ok. cbn [SiliconFlowAdapter.status].
      repeat (apply orb_true_iff in Hin; destruct Hin as [Hin | Hin]);
        try discriminate; apply Z.eqb_eq in Hin; subst st;
        repeat split; reflexivity. }
    destruct Hok as (Hok & H429 & H0).
    unfold SiliconFlowAdapter.callSiliconFlowAPI. rewrite Hok.
    cbn [negb SiliconFlowAdapter.status SiliconFlowAdapter.statusText
         SiliconFlowAdapter.text].
    rewrite H429.
    eexists. split.
    + unfold ModelAPIError. cbn [isAbortError isNonRetryable].
      cbn [sanitizeDetails map fst snd sanitizeProperty getField].
      change (JsString.eqb "status" "status") with true. cbv iota.
      rewrite H0, Hin. cbn [negb andb]. unfold later. cbn [fst snd].
      reflexivity.
    + reflexivity.
  - intros Hok Hin.
    unfold SiliconFlowAdapter.callSiliconFlowAPI. rewrite Hok.
    cbn [negb SiliconFlowAdapter.status SiliconFlowAdapter.statusText
         SiliconFlowAdapter.text SiliconFlowAdapter.retryAfter].
    destruct (st =? 429)%Z;
      unfold ModelAPIError; cbn [isAbortError isNonRetryable];
      cbn [sanitizeDetails map fst snd sanitizeProperty getField];
      change (JsString.eqb "status" "status") with true; cbv iota;
      rewrite Hin, andb_false_r, Hzero;
      eexists; unfold later, runTrace; cbn [fst snd]; reflexivity.
  - intros responseData Hok Hjs Hcontent. subst js.
    unfold SiliconFlowAdapter.callSiliconFlowAPI. rewrite Hok.
    cbn [negb SiliconFlowAdapter.json].
    unfold VisionResponse.parseResponse. cbn [truthy negb list_ascii_of_string].
    destruct (RawThinkingFilter.choiceContent responseData)
      as [| | | |[|c s]| |] eqn:E;
      try (exfalso; exact (Hcontent c s eq_refl));
      unfold ModelAPIError; cbn [isAbortError isNonRetryable];
      cbn [sanitizeDetails map fst snd getField];
      change (JsString.eqb "response" "status") with false; cbv iota;
      rewrite Hzero;
      eexists; unfold later, runTrace; cbn [fst snd]; reflexivity.
Qed.

Lemma siliconflow_first_answer_witness :
  exists rest,
    runTrace (SiliconFlowAdapter.analyze (answering serviceUnavailable) noWait
                                         siliconflowConfig 0) =
    Attempt 0 :: Backoff 1000 :: rest.
Proof.
  exact (proj1 (proj2 (@siliconflow_first_answer
                         nat (answering serviceUnavailable) noWait
                         siliconflowConfig 0 1 serviceUnavailable
                         eq_refl eq_refl))
               eq_refl eq_refl).
Defined.

(* ================================================================== *)
(** * Facts about the errors of a run *)
(* ================================================================== *)

Module RunErrorFacts.
Import JsString Errors BaseAdapter.

Lemma nonRetryable_class (error : JsError) :
  isNonRetryable error = true -> GeminiAdapter.isModelAPIError error = true.
Proof.
  destruct error as [cls code m d c| | |]; try discriminate.
  destruct cls; try discriminate. reflexivity.
Qed.

Lemma rethrown_not_abort (config : ModelConfig.ModelConfig) (error : JsError) :
  isAbortError (GeminiAdapter.rethrown config error) = false.
Proof.
  unfold GeminiAdapter.rethrown.
  destruct (GeminiAdapter.isModelAPIError error) eqn:Ec.
  - destruct error; try discriminate Ec. reflexivity.
  - destruct (isAbortError error) eqn:Ea; [reflexivity|exact Ea].
Qed.

Section Loop.
Variable T World : Type.
Variable operation : World -> (T + JsError) * World.
Variable wait : Z -> World -> World.
Hypothesis never_aborted :
  forall w error w', operation w = (inr error, w') ->
                     isAbortError error = false.

(** Without an AbortError the loop ends in a result or in an upstream-API
    error: the error of an attempt which is not to be retried, or the
    error which wraps the last failure. *)
Lemma retryLoop_error_class :
  forall turns maxRetries timeout attempt lastError w error,
    runResult (retryLoop operation wait turns maxRetries timeout attempt
                         lastError w) = inr error ->
    GeminiAdapter.isModelAPIError error = true.
Proof.
  induction turns as [|turns IH]; intros mr to a le w error.
  - cbn. intros H. injection H as <-. reflexivity.
  - cbn [retryLoop]. unfold runResult, later. cbn [fst].
    destruct (operation w) as [[v|e] w'] eqn:Eo; [discriminate|].
    rewrite (never_aborted Eo).
    destruct (isNonRetryable e) eqn:En.
    + cbn. intros H. injection H as <-. now apply nonRetryable_class.
    + destruct (a =? mr)%Z.
      * cbn. intros H. injection H as <-. reflexivity.
      * cbn [fst]. apply IH.
Qed.

End Loop.

End RunErrorFacts.

Import RunErrorFacts.

(** ** The Gemini adapter *)

(** X26.  [callGeminiAPI] turns the AbortError of a request cut off by the
    deadline into the upstream-API error "Request timed out", which the
    retry engine does not recognise as a timeout.  So, unless the building
    of the request itself is aborted, every failure of [analyze] is an
    upstream-API error and none is the engine's TimeoutError; and when
    retries remain, a first request which is cut off is followed by a wait
    of 1000 ms and a second request. *)
Theorem gemini_timeout_is_retried :
  forall (World Request : Type)
         (buildRequest : World -> (Request + JsError) * World)
         (exchange : Request -> World ->
                     (VisionResponse.VisionModelResponse + JsError) * World)
         (wait : Z -> World -> World)
         (config : ModelConfig.ModelConfig) (w : World),
    (forall w0 error w1,
       buildRequest w0 = (inr error, w1) -> isAbortError error = false) ->
    (forall error,
       runResult (GeminiAdapter.analyze buildRequest exchange wait config w)
       = inr error ->
       exists code message details cause,
         error = VisionMCPError ModelAPIErrorC code message details cause) /\
    (forall requestBody w1 w2 error,
       buildRequest w = (inl requestBody, w1) ->
       exchange requestBody w1 = (inr error, w2) ->
       isAbortError error = true ->
       (0 < effectiveMaxRetries (ModelConfig.retrySettings config) noOverride)%Z ->
       exists rest,
         runTrace (GeminiAdapter.analyze buildRequest exchange wait config w) =
         Attempt 0 :: Backoff 1000 :: rest).
Proof.
  intros World Request buildRequest exchange wait config w Hbuild. split.
  - intros error H.
    assert (Hop : forall w0 e w1,
               GeminiAdapter.operation buildRequest exchange config w0
               = (inr e, w1) ->
               isAbortError e = false).
    { intros w0 e w1. unfold GeminiAdapter.operation, GeminiAdapter.callGeminiAPI.
      destruct (buildRequest w0) as [[request|e0] w0'] eqn:Eb.
      - destruct (exchange request w0') as [[r|e1] w0''].
        + discriminate.
        + intros He. injection He as <- _. apply rethrown_not_abort.
      - intros He. injection He as <- _. exact (Hbuild _ _ _ Eb). }
    unfold GeminiAdapter.analyze, withRetry in H.
    pose proof (@retryLoop_error_class _ _ _ wait Hop _ _ _ _ _ _ _ H) as Hc.
    destruct error as [cls code m d c| | |]; try discriminate Hc.
    destruct cls; try discriminate Hc.
    now exists code, m, d, c.
  - intros requestBody w1 w2 error Hb He Ha Hmr.
    unfold GeminiAdapter.analyze, withRetry.
    change {| BaseAdapter.maxRetries := None; BaseAdapter.timeout := None |}
      with noOverride.
    set (mr := effectiveMaxRetries (ModelConfig.retrySettings config)
                                   noOverride) in *.
    assert (Hturns : Z.to_nat (mr + 1) = S (S (Z.to_nat (mr - 1)))) by lia.
    rewrite Hturns. cbn [retryLoop].
    assert (Hop : GeminiAdapter.operation buildRequest exchange config w =
                  (inr (GeminiAdapter.rethrown config error), w2)).
    { unfold GeminiAdapter.operation, GeminiAdapter.callGeminiAPI.
      now rewrite Hb, He. }
    rewrite Hop.
    assert (Hr : GeminiAdapter.rethrown config error =
                 ModelAPIError "Request timed out"
                   (Some [("timeout" : jsstring,
                           JNumber (orDefault
                                      (ModelConfig.setting
                                         (ModelConfig.timeout config)) 60000));
                          ("reason" : jsstring,
                           JString "API request exceeded timeout")])
                   None).
    { unfold GeminiAdapter.rethrown. rewrite Ha.
      destruct error; try discriminate Ha. reflexivity. }
    rewrite Hr. unfold ModelAPIError. cbn [isAbortError isNonRetryable].
    cbn [sanitizeDetails map fst snd getField].
    change (JsString.eqb "timeout" "status") with false.
    change (JsString.eqb "reason" "status") with false. cbv iota.
    replace (0 =? mr)%Z with false by (symmetry; apply Z.eqb_neq; lia).
    eexists. unfold later, runTrace. cbn [fst snd]. reflexivity.
Qed.

Lemma gemini_timeout_is_retried_witness :
  exists rest,
    runTrace (GeminiAdapter.analyze requestBuilt cutOff noWait geminiConfig 0) =
    Attempt 0 :: Backoff 1000 :: rest.
Proof.
  assert (Hbuild : forall (w0 : nat) (error : JsError) (w1 : nat),
             requestBuilt w0 = (inr error, w1) -> isAbortError error = false)
    by (intros w0 error w1 H; discriminate H).
  exact (proj2 (@gemini_timeout_is_retried
                  nat unit requestBuilt cutOff noWait geminiConfig 0 Hbuild)
               tt 0 1 (AbortError "This operation was aborted")
               eq_refl eq_refl eq_refl eq_refl).
Defined.

(* ================================================================== *)
(** * Facts about the request URLs *)
(* ================================================================== *)

Module UrlFacts.
Import JsString Regex Errors RegexFacts SuffixFacts ConfigFacts.

Lemma endsWith_app (p a : jsstring) : endsWith p (a ++ p) = true.
Proof. unfold endsWith. rewrite rev_app_distr. apply startsWith_prefix. Qed.

Lemma firstn_suffix (a p : jsstring) :
  firstn (length (a ++ p) - length p) (a ++ p) = a.
Proof.
  rewrite length_app, Nat.add_sub, firstn_app, firstn_all, Nat.sub_diag.
  cbn [firstn]. apply app_nil_r.
Qed.

(** [s.replace(/\/$/, '')] *)
Lemma without_trailing_slash (s : jsstring) :
  replaceFirst ModelConfig.pat_trailing_slash (fun _ => []) s =
  if endsWith "/" s then removelast s else s.
Proof. unfold replaceFirst. apply replaceFirstFrom_trailing_slash. Qed.

Lemma claude_base (root : jsstring) :
  endsWith "/v1" root = false ->
  (if endsWith "/v1" root then firstn (length root - 3) root else root) ++
  "/v1/messages" = root ++ "/v1/messages".
Proof. now intros ->. Qed.

Lemma claude_base_v1 (root : jsstring) :
  (if endsWith "/v1" (root ++ "/v1")
   then firstn (length (root ++ "/v1") - 3) (root ++ "/v1")
   else root ++ "/v1") ++ "/v1/messages" = root ++ "/v1/messages".
Proof.
  rewrite (endsWith_app "/v1" root).
  change 3 with (length (list_ascii_of_string "/v1")).
  now rewrite firstn_suffix.
Qed.

(** No match of the key pattern starts at a character other than [?]. *)
Lemma matchHere_query_key_other (c : ascii) (s : jsstring) prev :
  Ascii.eqb c "?" = false ->
  matchHere GeminiAdapter.pat_query_key prev (c :: s) = None.
Proof.
  intros Hc. unfold matchHere, GeminiAdapter.pat_query_key.
  cbn [seqs lit list_ascii_of_string rmatch chr].
  rewrite Ascii.eqb_sym, Hc. reflexivity.
Qed.

Lemma query_key_plain (pre rest : jsstring) f :
  without "?" pre = true ->
  forall prev,
    replaceFirstFrom GeminiAdapter.pat_query_key f prev (pre ++ rest) =
    pre ++ replaceFirstFrom GeminiAdapter.pat_query_key f
                            (prevAfter prev pre) rest.
Proof.
  unfold without.
  induction pre as [|c pre IH]; intros Hpre prev; [reflexivity|].
  cbn [forallb] in Hpre. apply andb_true_iff in Hpre.
  destruct Hpre as [Hc Hpre]. apply negb_true_iff in Hc.
  cbn [app replaceFirstFrom].
  rewrite (@matchHere_query_key_other c (pre ++ rest) prev Hc).
  rewrite (IH Hpre), prevAfter_cons. reflexivity.
Qed.

Lemma rmatch_query_key (key rest : jsstring) prev :
  key <> [] -> forallb isValueChar key = true -> valueEnds rest = true ->
  rmatch GeminiAdapter.pat_query_key prev ("?key=" ++ key ++ rest) accept
  = Some rest.
Proof.
  intros Hk Hall Hrest. destruct key as [|x key]; [contradiction|].
  cbn [forallb] in Hall. apply andb_true_iff in Hall. destruct Hall as [Hx Hall].
  unfold GeminiAdapter.pat_query_key.
  change (rmatch (seqs [lit "?key="; plus isValueChar]) prev
                 (list_ascii_of_string "?key=" ++ (x :: key) ++ rest) accept)
    with (rmatch (plus isValueChar) (Some "="%char) ((x :: key) ++ rest) accept).
  unfold plus. cbn [rmatch app]. rewrite Hx.
  exact (@star_greedy_run isValueChar key rest Hall Hrest (Some x)).
Qed.

Lemma query_key_masked (key rest : jsstring) (mask : jsstring) prev :
  key <> [] -> forallb isValueChar key = true -> valueEnds rest = true ->
  replaceFirstFrom GeminiAdapter.pat_query_key (fun _ => mask) prev
                   ("?key=" ++ key ++ rest) = mask ++ rest.
Proof.
  intros Hk Hall Hrest.
  change (list_ascii_of_string "?key=" ++ key ++ rest)
    with ("?"%char :: "key=" ++ key ++ rest).
  cbn [replaceFirstFrom]. unfold matchHere.
  change ("?"%char :: "key=" ++ key ++ rest)
    with (list_ascii_of_string "?key=" ++ key ++ rest).
  rewrite (@rmatch_query_key key rest prev Hk Hall Hrest).
  f_equal.
  replace (list_ascii_of_string "?key=" ++ key ++ rest)
    with ((list_ascii_of_string "?key=" ++ key) ++ rest)
    by (now rewrite <- app_assoc).
  rewrite length_app, Nat.add_sub.
  now rewrite skipn_app, skipn_all, Nat.sub_diag.
Qed.

End UrlFacts.

Import UrlFacts.

(** ** Request URLs *)

(** X27.  The Claude adapter sends its requests to the same URL whether
    the configured base URL is written with or without a slash at its end
    and with or without [/v1]: for a root which ends in neither, the base
    URLs root, root/, root/v1 and root/v1/ all give root/v1/messages. *)
Theorem claude_api_url_spellings :
  forall (config : ModelConfig.ModelConfig) (root : jsstring),
    endsWith "/" root = false ->
    endsWith "/v1" root = false ->
    In (ModelConfig.baseUrl config)
       [root; root ++ "/"; root ++ "/v1"; root ++ "/v1/"] ->
    ClaudeAdapter.apiUrl config = root ++ "/v1/messages".
Proof.
  intros config root Hslash Hv1 Hin. unfold ClaudeAdapter.apiUrl.
  cbv zeta. rewrite without_trailing_slash.
  cbn [In] in Hin. destruct Hin as [<- | [<- | [<- | [<- | []]]]].
  - rewrite Hslash. now apply claude_base.
  - rewrite (endsWith_app "/" root).
    change (list_ascii_of_string "/") with ["/"%char].
    rewrite removelast_last. now apply claude_base.
  - replace (endsWith "/" (root ++ "/v1")) with false
      by (unfold endsWith; now rewrite rev_app_distr).
    apply claude_base_v1.
  - replace (root ++ "/v1/") with ((root ++ "/v1") ++ "/")
      by (now rewrite <- app_assoc).
    rewrite (endsWith_app "/" (root ++ "/v1")).
    change (list_ascii_of_string "/") with ["/"%char].
    rewrite removelast_last. apply claude_base_v1.
Qed.

Lemma claude_api_url_spellings_witness :
  ClaudeAdapter.apiUrl claudeConfig = "https://proxy.example" ++ "/v1/messages".
Proof.
  exact (@claude_api_url_spellings
           claudeConfig "https://proxy.example" eq_refl eq_refl
           (or_intror (or_intror (or_intror (or_introl eq_refl))))).
Defined.

(** X28.  In query mode the Gemini adapter puts the API key into the URL
    and logs that URL through [sanitizeUrl].  When the URL before the key
    holds no question mark, the logged URL shows three stars for the part
    of the key up to its first ampersand or white space, and shows what
    follows as it is: the key is wholly hidden exactly when it holds
    neither.  In the two header modes the URL holds no key. *)
Theorem gemini_logged_url :
  forall (config : ModelConfig.ModelConfig)
         (options : GeminiAdapter.GeminiAdapterOptions)
         (key rest : jsstring),
    let prefix :=
      replaceFirst ModelConfig.pat_trailing_slash (fun _ => [])
                   (ModelConfig.baseUrl config) ++
      "/" ++ GeminiAdapter.apiVersion options ++ "/models/" ++
      ModelConfig.name config ++ ":generateContent" in
    ModelConfig.apiKey config = key ++ rest ->
    key <> [] ->
    forallb isValueChar key = true ->
    valueEnds rest = true ->
    without "?" prefix = true ->
    match GeminiAdapter.authMode options with
    | GeminiAdapter.query =>
        GeminiAdapter.buildApiUrl config options =
        prefix ++ "?key=" ++ key ++ rest /\
        GeminiAdapter.sanitizeUrl options
          (GeminiAdapter.buildApiUrl config options) =
        prefix ++ "?key=***" ++ rest
    | _ =>
        GeminiAdapter.buildApiUrl config options = prefix /\
        GeminiAdapter.sanitizeUrl options
          (GeminiAdapter.buildApiUrl config options) = prefix
    end.
Proof.
  intros config options key rest prefix Hkey Hk Hall Hrest Hprefix.
  unfold GeminiAdapter.sanitizeUrl, GeminiAdapter.buildApiUrl. cbv zeta.
  fold prefix.
  assert (Hp : replaceFirst ModelConfig.pat_trailing_slash (fun _ => [])
                 (ModelConfig.baseUrl config) ++
               "/" ++ GeminiAdapter.apiVersion options ++ "/models/" ++
               ModelConfig.name config ++ ":generateContent" = prefix)
    by reflexivity.
  destruct (GeminiAdapter.authMode options); rewrite ?Hp;
    try (split; reflexivity).
  rewrite Hkey. split; [reflexivity|].
  unfold replaceFirst. rewrite (@query_key_plain prefix _ _ Hprefix).
  now rewrite (@query_key_masked key rest _ _ Hk Hall Hrest).
Qed.

Lemma gemini_logged_url_witness :
  GeminiAdapter.sanitizeUrl
    {| GeminiAdapter.apiVersion := "v1beta";
       GeminiAdapter.authMode := GeminiAdapter.query |}
    (GeminiAdapter.buildApiUrl
       geminiConfig
       {| GeminiAdapter.apiVersion := "v1beta";
          GeminiAdapter.authMode := GeminiAdapter.query |}) =
  "https://generativelanguage.googleapis.com/v1beta/models/gemini-2.0-flash-exp:generateContent"
  ++ "?key=***" ++ [].
Proof.
  assert (Hk : ("AIza0123456789" : jsstring) <> []) by discriminate.
  exact (proj2 (@gemini_logged_url
                  geminiConfig
                  {| GeminiAdapter.apiVersion := "v1beta";
                     GeminiAdapter.authMode := GeminiAdapter.query |}
                  "AIza0123456789" [] eq_refl Hk eq_refl eq_refl eq_refl)).
Defined.

(* ================================================================== *)
(** * Facts about the text blocks of a Claude response *)
(* ================================================================== *)

Module ClaudeFacts.
Import JsString Errors ThinkingExtractors.





End ClaudeFacts.

Import ClaudeFacts.

(** ** The Claude adapter *)



(** ** What reaches the client *)

(** X30.  Whatever the response and the model type, a text returned by
    [filterThinkingContent], and so the content returned by
    [parseResponse], holds none of [<thinking>], [</thinking>] and
    [<<analysis>>] in any case of letters; this covers the four
    extractors, the fallback for a type missing from the table and the
    path taken when the table entry cannot be called. *)
Theorem returned_content_is_clean :
  forall (response : JsValue) (modelType : jsstring),
    (forall text,
       RawThinkingFilter.filterThinkingContent response modelType = inl text ->
       forallb (fun marker => negb (includesI marker text))
               LEFTOVER_MARKERS = true) /\
    (forall r,
       VisionResponse.parseResponse response modelType = inl r ->
       forallb (fun marker =>
                  negb (includesI marker (VisionResponse.content r)))
               LEFTOVER_MARKERS = true).
Proof.
  intros response modelType.
  assert (Hp : forall v,
             forallb (fun marker =>
                        negb (includesI
                                marker
                                (RawThinkingFilter.stripThinkingPatterns v)))
                     LEFTOVER_MARKERS = true).
  { intros v. destruct v; try reflexivity.
    cbn [RawThinkingFilter.stripThinkingPatterns].
    apply stripThinkingPatterns_clean. }
  assert (Hs : forall envelope,
             forallb (fun marker =>
                        negb (includesI
                                marker
                                (RawThinkingFilter.stripThinking envelope)))
                     LEFTOVER_MARKERS = true).
  { intros envelope. unfold RawThinkingFilter.stripThinking.
    destruct (_ && _); [reflexivity|apply Hp]. }
  assert (Hf : forall text,
             RawThinkingFilter.filterThinkingContent response modelType
             = inl text ->
             forallb (fun marker => negb (includesI marker text))
                     LEFTOVER_MARKERS = true).
  { intros text. unfold RawThinkingFilter.filterThinkingContent.
    destruct (negb (truthy modelType)); [discriminate|].
    destruct (RawThinkingFilter.THINKING_EXTRACTORS (toLowerCase modelType));
      intros H; injection H as <-; [apply Hs|apply Hp|apply Hs]. }
  split; [exact Hf|].
  intros r. unfold VisionResponse.parseResponse.
  destruct (negb (truthy modelType)) eqn:Em; [discriminate|].
  destruct (RawThinkingFilter.choiceContent response) as [| | | |[|c s]| |];
    try discriminate.
  intros H. injection H as <-. cbn [VisionResponse.content].
  destruct (RawThinkingFilter.filterThinkingContent response modelType)
    as [filtered|e] eqn:Ef; [now apply Hf|].
  unfold RawThinkingFilter.filterThinkingContent in Ef. rewrite Em in Ef.
  destruct (RawThinkingFilter.THINKING_EXTRACTORS (toLowerCase modelType));
    discriminate Ef.
Qed.
